(** * RoCE GID cache and GID management: a shallow embedding

    This development models [drivers/infiniband/core/roce_gid_cache.c]
    and [drivers/infiniband/core/roce_gid_mgmt.c].

    - Kernel memory owned by a device is a record threaded through a
      small state-and-fault monad; a C access that would be undefined
      (NULL dereference, index outside [data_vec]) yields [None].
    - Unsigned integers are [Z] with the wrap-around written out.
    - The lock-free read protocol is modelled against *observations*:
      every load of a slot made by a reader may see a different value
      of that slot, because a writer may run in between.
    - What comes from headers outside these two files is a parameter:
      the driver's [modify_gid], [addrconf_ifid_eui48],
      [IB_GID_TYPE_SIZE], the [NETDEV_*] event numbers.

    The embedding comes first: the data, [roce_gid_mgmt.c] in modules
    [GidMgmt] (network device notifications and their worker) and
    [GidAddr] (address notifications), a few concrete devices,
    [roce_gid_cache.c] in section [Device], with [update_gid] and
    [update_gid_ip] of [roce_gid_mgmt.c] next to the cache operations
    they call.  The properties follow, and last their instances on the
    concrete devices. *)

From Stdlib Require Import ZArith Lia Bool.
From Stdlib Require Import Strings.Byte.
From stdpp Require Import base tactics option list.

Local Open Scope Z_scope.

(** ** Constants from headers *)

(** errno values (include/uapi/asm-generic/errno-base.h, errno.h). *)
Definition EPERM  : Z := 1.

Definition EAGAIN : Z := 11.

Definition EINVAL : Z := 22.

Definition ENOSPC : Z := 28.

Definition ENOSYS : Z := 38.

(** [unsigned int] is 32 bits wide; [(unsigned int)-1] is the in-flight
    sequence value. *)
Definition UINT_MODULUS : Z := 2 ^ 32.

Definition SEQ_INVALID : Z := UINT_MODULUS - 1.

Definition uint (x : Z) : Z := x mod UINT_MODULUS.

(** [unsigned long] is 64 bits wide. *)
Definition ULONG_MODULUS : Z := 2 ^ 64.

Definition ulong (x : Z) : Z := x mod ULONG_MODULUS.

(** ** Data model *)

#[global] Instance byte_eq_decision : EqDecision byte := byte_eq_dec.

(** [union ib_gid]: 16 raw bytes. *)
Definition ib_gid := list byte.

(** [zgid]: the zero-initialised global. *)
Definition zgid : ib_gid := replicate 16 x00.

(** [memcmp] on two GIDs, up to the sign of a non-zero result. *)
Definition memcmp (a b : ib_gid) : Z := if decide (a = b) then 0 else 1.

(** [struct ib_gid_attr]: the GID type (an enum, used as an integer) and
    the [net_device] pointer, as an address with [0] for NULL. *)
Record ib_gid_attr := mk_attr { gid_type : Z; ndev : Z }.

#[global] Instance ib_gid_attr_eq_decision : EqDecision ib_gid_attr.
Proof. solve_decision. Defined.

Definition zattr : ib_gid_attr := {| gid_type := 0; ndev := 0 |}.

Definition roce_gid_type_msk : ib_gid_attr := {| gid_type := -1; ndev := 0 |}.

Definition roce_gid_type_netdev_msk : ib_gid_attr := {| gid_type := -1; ndev := -1 |}.

(** One element of [data_vec]; [context] is the driver's opaque pointer. *)
Record gid_cache_entry := mk_entry {
  seq : Z;
  gid : ib_gid;
  attr : ib_gid_attr;
  context : Z
}.

#[global] Instance gid_cache_entry_eq_decision : EqDecision gid_cache_entry.
Proof. solve_decision. Defined.

(** [struct ib_roce_gid_cache].  [sz] is the length of [data_vec], as
    [alloc_roce_gid_cache] sets it; the mutex shows in the event trace. *)
Record ib_roce_gid_cache := mk_cache {
  active : bool;
  data_vec : list gid_cache_entry
}.

(** What [kcalloc] returns for one slot. *)
Definition zero_entry : gid_cache_entry :=
  {| seq := 0; gid := zgid; attr := zattr; context := 0 |}.

Definition alloc_roce_gid_cache (n : nat) : ib_roce_gid_cache :=
  {| active := false; data_vec := replicate n zero_entry |}.

(** Observable effects of the writer paths, in program order. *)
Inductive event :=
| EvMutexLock (port : Z)
| EvMutexUnlock (port : Z)
| EvWriteGid (port ix : Z) (g : ib_gid) (a : ib_gid_attr)
| EvDevPut (dev : Z)
| EvDevHold (dev : Z)
| EvGidChange (port : Z).

#[global] Instance event_eq_decision : EqDecision event.
Proof. solve_decision. Defined.

(** [ib_dev] as far as these files touch it: [cache.roce_gid_cache]
    (NULL, or one pointer per port, each possibly NULL), the state of
    the hardware behind the driver callback, and the trace of effects. *)
Record ib_device (hw_state : Type) := mk_dev {
  roce_gid_cache : option (list (option ib_roce_gid_cache));
  hw : hw_state;
  trace : list event
}.

Arguments mk_dev {hw_state}.
Arguments roce_gid_cache {hw_state}.
Arguments hw {hw_state}.
Arguments trace {hw_state}.

(** ** The lock-free read protocol: what a reader observes *)

(** The loads a reader makes in one slot.  A concurrent [write_gid] may
    run between any two of them, so each load has its own view of the
    slot. *)
Inductive access :=
| LdSeq        (* first ACCESS_ONCE of seq *)
| LdGidType    (* attr->gid_type *)
| LdGid        (* the sixteen gid bytes *)
| LdNdev       (* attr->ndev *)
| LdAttr       (* memcpy of the whole attr *)
| LdSeqAgain.  (* second ACCESS_ONCE of seq *)

Definition slot_obs := access -> gid_cache_entry.

(** A slot nobody writes while it is read. *)
Definition quiescent (e : gid_cache_entry) : slot_obs := fun _ => e.

(** What a reader sees of one table and of the device. *)
Record cache_obs := mk_cache_obs {
  obs_active : bool;
  obs_vec : list slot_obs
}.

Definition device_obs := option (list (option cache_obs)).

(** Where a load of a reader falls when one [write_gid] runs next to
    it: before the in-flight value is stored, after the new version is
    stored, or in between. *)
Inductive write_phase := BeforeWrite | DuringWrite | AfterWrite.

Definition phase_rank (ph : write_phase) : nat :=
  match ph with BeforeWrite => 0 | DuringWrite => 1 | AfterWrite => 2 end.

(** ** Properties of traces *)

(** The lock discipline on a trace: every [write_gid] on the table of
    a port happens while the mutex of that table is held.  [held] lists
    the ports whose mutex is held when the trace starts. *)
Fixpoint writes_under_lock (held : list Z) (t : list event) : bool :=
  match t with
  | [] => true
  | EvMutexLock p :: t' => writes_under_lock (p :: held) t'
  | EvMutexUnlock p :: t' => writes_under_lock (filter (fun q => q <> p) held) t'
  | EvWriteGid p _ _ _ :: t' => bool_decide (p ∈ held) && writes_under_lock held t'
  | _ :: t' => writes_under_lock held t'
  end.

(** Events of writes to the table of [p] that touch no mutex. *)
Definition write_event_of (p : Z) (e : event) : Prop :=
  match e with
  | EvMutexLock _ | EvMutexUnlock _ => False
  | EvWriteGid q _ _ _ => q = p
  | _ => True
  end.

(** A write of the zero GID, as the trace records it. *)
Definition is_delete_write (e : event) : Prop :=
  match e with
  | EvWriteGid _ _ g _ => g = zgid
  | _ => False
  end.

#[global] Instance is_delete_write_dec e : Decision (is_delete_write e).
Proof. destruct e; simpl; apply _. Defined.

Definition count_delete_writes (evs : list event) : nat :=
  length (filter is_delete_write evs).

(** * [roce_gid_mgmt.c]: from notifications to work items *)

Module GidMgmt.

(** The two callbacks and the two filters a work item can carry. *)
Inductive roce_netdev_callback := add_netdev_ips | del_netdev_ips.

Inductive roce_netdev_filter := is_eth_port_of_netdev | pass_all_filter.

#[global] Instance roce_netdev_callback_eq_dec : EqDecision roce_netdev_callback.
Proof. solve_decision. Defined.

#[global] Instance roce_netdev_filter_eq_dec : EqDecision roce_netdev_filter.
Proof. solve_decision. Defined.

(** [struct netdev_event_work_cmd]; [None] is a NULL function pointer. *)
Record netdev_event_work_cmd := mk_cmd {
  cb : option roce_netdev_callback;
  filter : option roce_netdev_filter
}.

#[global] Instance netdev_event_work_cmd_eq_dec : EqDecision netdev_event_work_cmd.
Proof. solve_decision. Defined.

Definition ROCE_NETDEV_CALLBACK_SZ : nat := 2.

(** [struct netdev_event_work], without its [work_struct]. *)
Record netdev_event_work := mk_work {
  cmds : list netdev_event_work_cmd;
  ndev : Z
}.

Definition add_cmd : netdev_event_work_cmd :=
  {| cb := Some add_netdev_ips; filter := Some is_eth_port_of_netdev |}.

Definition del_cmd : netdev_event_work_cmd :=
  {| cb := Some del_netdev_ips; filter := Some pass_all_filter |}.

(** One element of [cmds] after [= { {0} }]. *)
Definition zero_cmd : netdev_event_work_cmd := {| cb := None; filter := None |}.

Definition NOTIFY_DONE : Z := 0.

(** What the worker does, in order. *)
Inductive action :=
| RtnlLock
| EnumRocePorts (dev : Z) (f : option roce_netdev_filter) (c : roce_netdev_callback)
| RtnlUnlock
| DevPut (dev : Z)
| Kfree.

Section Notifier.

(** The notifier event numbers and the [reg_state] bound tested, from
    [linux/netdevice.h]. *)
Variables NETDEV_UP NETDEV_REGISTER NETDEV_UNREGISTER NETDEV_CHANGEADDR : Z.

Variable NETREG_UNREGISTERED : Z.

(** [netdevice_event]: the status returned and the work item queued on
    [roce_gid_mgmt_wq], if any.  [reg_state] is [ndev->reg_state];
    [kmalloc_ok] tells whether the allocation of the work item
    succeeds. *)
Definition netdevice_event (event : Z) (dev : Z) (reg_state : Z)
    (kmalloc_ok : bool) : Z * option netdev_event_work :=
  let cmds0 := replicate ROCE_NETDEV_CALLBACK_SZ zero_cmd in
  let chosen : option (list netdev_event_work_cmd) :=
    if (event =? NETDEV_REGISTER) || (event =? NETDEV_UP)
    then Some (<[0%nat := add_cmd]> cmds0)
    else if event =? NETDEV_UNREGISTER
    then (if reg_state <? NETREG_UNREGISTERED
          then Some (<[0%nat := del_cmd]> cmds0)
          else None)
    else if event =? NETDEV_CHANGEADDR
    then Some (<[1%nat := add_cmd]> (<[0%nat := del_cmd]> cmds0))
    else None in
  match chosen with
  | None => (NOTIFY_DONE, None)
  | Some cs =>
      if kmalloc_ok
      then (NOTIFY_DONE, Some {| cmds := cs; ndev := dev |})
      else (NOTIFY_DONE, None)
  end.

(** The loop of [netdevice_event_work_handler]: it stops at the first
    command without a callback. *)
Fixpoint run_cmds (dev : Z) (cs : list netdev_event_work_cmd) : list action :=
  match cs with
  | [] => []
  | c :: rest =>
      match cb c with
      | None => []
      | Some f =>
          [RtnlLock; EnumRocePorts dev (filter c) f; RtnlUnlock]
          ++ run_cmds dev rest
      end
  end.

Definition netdevice_event_work_handler (work : netdev_event_work) : list action :=
  run_cmds (ndev work) (take ROCE_NETDEV_CALLBACK_SZ (cmds work))
  ++ [DevPut (ndev work); Kfree].

(** The case labels of a [switch] are distinct constants. *)
Definition distinct_events : Prop :=
  NETDEV_UP <> NETDEV_UNREGISTER
  /\ NETDEV_UP <> NETDEV_CHANGEADDR
  /\ NETDEV_REGISTER <> NETDEV_UNREGISTER
  /\ NETDEV_REGISTER <> NETDEV_CHANGEADDR
  /\ NETDEV_UNREGISTER <> NETDEV_CHANGEADDR.

End Notifier.

End GidMgmt.

(** ** The discipline of the worker *)

(** What [netdevice_event_work_handler] has to respect: [rtnl] is
    taken only when free and released only when held, ports are
    enumerated only while it is held, the device reference and the
    work item are released with the lock free, and nothing follows
    the [kfree] of the work item.  [held] tells whether the lock is
    held when the actions start. *)
Fixpoint rtnl_discipline (held : bool) (acts : list GidMgmt.action) : bool :=
  match acts with
  | [] => negb held
  | GidMgmt.RtnlLock :: rest => negb held && rtnl_discipline true rest
  | GidMgmt.EnumRocePorts _ _ _ :: rest => held && rtnl_discipline held rest
  | GidMgmt.RtnlUnlock :: rest => held && rtnl_discipline false rest
  | GidMgmt.DevPut _ :: rest => negb held && rtnl_discipline held rest
  | GidMgmt.Kfree :: rest => negb held && bool_decide (rest = [])
  end.

(** The enumerations of the ports of [dev] among the actions, as the
    pairs of filter and callback they were made with. *)
Fixpoint enum_calls (dev : Z) (acts : list GidMgmt.action)
    : list (option GidMgmt.roce_netdev_filter * GidMgmt.roce_netdev_callback) :=
  match acts with
  | [] => []
  | GidMgmt.EnumRocePorts dev' f c :: rest =>
      if dev' =? dev then (f, c) :: enum_calls dev rest else enum_calls dev rest
  | _ :: rest => enum_calls dev rest
  end.

(** The references dropped on [dev] among the actions. *)
Fixpoint dev_puts (dev : Z) (acts : list GidMgmt.action) : nat :=
  match acts with
  | [] => 0
  | GidMgmt.DevPut dev' :: rest =>
      (if dev' =? dev then 1 else 0) + dev_puts dev rest
  | _ :: rest => dev_puts dev rest
  end.

(** * [roce_gid_mgmt.c]: address notifications *)

(** [enum gid_op_type]. *)
Inductive gid_op_type := GID_DEL | GID_ADD.

#[global] Instance gid_op_type_eq_dec : EqDecision gid_op_type.
Proof. solve_decision. Defined.

Module GidAddr.

(** [struct update_gid_event_work], without its [work_struct]. *)
Record update_gid_event_work := mk_addr_work {
  work_gid : ib_gid;
  work_gid_attr : ib_gid_attr;
  work_gid_op : gid_op_type
}.

(** What [ptr] points to, read as [struct in_ifaddr] ([ifa_address],
    [ifa_dev->dev]) and as [struct inet6_ifaddr] ([addr],
    [idev->dev]). *)
Record ifaddr := mk_ifaddr {
  v4_ifa_address : list byte;
  v4_dev : Z;
  v6_addr : list byte;
  v6_dev : Z
}.

(** What [addr_event] does besides returning, in order. *)
Inductive addr_effect :=
| DevHold (dev : Z)
| QueueWork (w : update_gid_event_work).

Section AddrNotifier.

(** From [linux/socket.h] and [linux/netdevice.h]. *)
Variables AF_INET AF_INET6 : Z.

Variables NETDEV_UP NETDEV_DOWN : Z.

(** [IS_ENABLED(CONFIG_IPV6)]. *)
Variable ipv6_enabled : bool.

(** [rdma_ip2gid] on a socket address of the family and the address
    bytes given. *)
Variable rdma_ip2gid : Z -> list byte -> ib_gid.

(** [addr_event]: the status returned and the effects.  [kmalloc_ok]
    tells whether the allocation of the work item succeeds. *)
Definition addr_event (event : Z) (ifa : ifaddr) (sa_family : Z)
    (kmalloc_ok : bool) : Z * list addr_effect :=
  let sa : option (list byte * Z) :=
    if sa_family =? AF_INET then Some (v4_ifa_address ifa, v4_dev ifa)
    else if ipv6_enabled && (sa_family =? AF_INET6)
    then Some (v6_addr ifa, v6_dev ifa)
    else None in
  match sa with
  | None => (GidMgmt.NOTIFY_DONE, [])
  | Some (addr, dev) =>
      let gid_op :=
        if event =? NETDEV_UP then Some GID_ADD
        else if event =? NETDEV_DOWN then Some GID_DEL
        else None in
      match gid_op with
      | None => (GidMgmt.NOTIFY_DONE, [])
      | Some op =>
          if kmalloc_ok
          then (GidMgmt.NOTIFY_DONE,
                [DevHold dev;
                 QueueWork {| work_gid := rdma_ip2gid sa_family addr;
                              work_gid_attr := {| gid_type := 0; ndev := dev |};
                              work_gid_op := op |}])
          else (GidMgmt.NOTIFY_DONE, [])
      end
  end.

End AddrNotifier.

End GidAddr.

(** ** Concrete devices *)

(** A driver whose [modify_gid] always succeeds and keeps the context. *)
Definition modify_ok (h : unit) (port ix : Z) (g : ib_gid) (a : ib_gid_attr)
    (ctx : Z) : Z * Z * unit := (0, ctx, tt).

(** A driver that clears any slot, refuses every GID of type 0 and
    accepts the others. *)
Definition modify_typed (h : unit) (port ix : Z) (g : ib_gid) (a : ib_gid_attr)
    (ctx : Z) : Z * Z * unit :=
  if decide (g = zgid) then (0, 0, tt)
  else if gid_type a =? 0 then (- EINVAL, 9, tt)
  else (0, 7, tt).

Definition eui_of (dev : Z) : list byte :=
  [x02; x00; x00; xff; xfe; x00; x00; x01].

Definition entry_with_seq (v : Z) : gid_cache_entry :=
  {| seq := v; gid := zgid; attr := zattr; context := 0 |}.

(** A device with one port. *)
Definition one_port (act : bool) (vec : list gid_cache_entry) : ib_device unit :=
  {| roce_gid_cache := Some [Some {| active := act; data_vec := vec |}];
     hw := tt;
     trace := [] |}.

(** A device whose cache was never set up. *)
Definition no_cache : ib_device unit :=
  {| roce_gid_cache := None; hw := tt; trace := [] |}.

Definition gid_a : ib_gid := [xfe; x80] ++ replicate 13 x00 ++ [x01].

Definition gid_b : ib_gid := [xfe; x80] ++ replicate 13 x00 ++ [x02].

Definition gid_c : ib_gid := [xfe; x80] ++ replicate 13 x00 ++ [x03].

Definition attr_ib (dev : Z) : ib_gid_attr := {| gid_type := 0; ndev := dev |}.

Definition entry_b : gid_cache_entry :=
  {| seq := 2; gid := gid_b; attr := attr_ib 5; context := 0 |}.

(** Slot 0 holds [gid_b], slot 1 is empty. *)
Definition table_b : ib_roce_gid_cache :=
  {| active := true; data_vec := [entry_b; zero_entry] |}.

Definition dev_b : ib_device unit := one_port true [entry_b; zero_entry].

(** A reader that saw version 2 first and version 4 afterwards. *)
Definition torn_slot : slot_obs :=
  fun ld => match ld with
            | LdSeq => {| seq := 2; gid := gid_b; attr := attr_ib 5; context := 0 |}
            | _ => {| seq := 4; gid := gid_a; attr := attr_ib 5; context := 0 |}
            end.

Definition torn_table : cache_obs :=
  {| obs_active := true; obs_vec := [torn_slot] |}.

(** [entry_b] rewritten with [gid_a] by one [write_gid]. *)
Definition entry_a : gid_cache_entry :=
  {| seq := 4; gid := gid_a; attr := attr_ib 5; context := 0 |}.

(** [dev_b] after [write_gid] stored [gid_a] in slot 0. *)
Definition dev_b_rewritten : ib_device unit :=
  {| roce_gid_cache :=
       Some [Some {| active := true; data_vec := [entry_a; zero_entry] |}];
     hw := tt;
     trace := [EvWriteGid 1 0 gid_a (attr_ib 5); EvGidChange 1] |}.

(** Every port is an Ethernet port. *)
Definition all_eth (port : Z) : bool := true.

(** A reader whose first load came before the write and whose other
    loads came after it, as [torn_slot] has it. *)
Definition torn_phases (ld : access) : write_phase :=
  match ld with
  | LdSeq => BeforeWrite
  | _ => AfterWrite
  end.

(** * [roce_gid_cache.c] *)

Section Device.

(** State of the hardware behind [ib_dev->modify_gid]. *)
Variable hw_state : Type.

(** [ib_dev->modify_gid(ib_dev, port, ix, gid, attr, &context)]: returns
    the status, the context it left behind and the new hardware state. *)
Variable modify_gid :
  hw_state -> Z -> Z -> ib_gid -> ib_gid_attr -> Z -> Z * Z * hw_state.

(** [addrconf_ifid_eui48(&gid->raw[8], dev)]: the eight bytes it stores. *)
Variable addrconf_ifid_eui48 : Z -> list byte.

(** [IB_GID_TYPE_SIZE], the number of GID types. *)
Variable IB_GID_TYPE_SIZE : nat.

(** *** The monad: state passing, [None] for undefined behaviour *)

Definition M (A : Type) : Type :=
  ib_device hw_state -> option (A * ib_device hw_state).

Definition ret {A} (a : A) : M A := fun d => Some (a, d).

Definition bind {A B} (m : M A) (k : A -> M B) : M B :=
  fun d => match m d with
           | Some (a, d') => k a d'
           | None => None
           end.

Definition fault {A} : M A := fun _ => None.

Notation "x <- m ;; k" := (bind m (fun x => k))
  (at level 100, m at next level, right associativity).

Notation "m ;;; k" := (bind m (fun _ => k))
  (at level 100, right associativity).

Definition emit (e : event) : M unit :=
  fun d => Some (tt, {| roce_gid_cache := roce_gid_cache d;
                        hw := hw d;
                        trace := trace d ++ [e] |}).

Definition mutex_lock (port : Z) : M unit := emit (EvMutexLock port).

Definition mutex_unlock (port : Z) : M unit := emit (EvMutexUnlock port).

(** [ib_dev->cache.roce_gid_cache[port - 1]], given that the array
    pointer is not NULL. *)
Definition port_cache (port : Z) : M (option ib_roce_gid_cache) :=
  fun d => match roce_gid_cache d with
           | None => None
           | Some tbl =>
               if port <? 1 then None
               else match tbl !! Z.to_nat (port - 1) with
                    | Some c => Some (c, d)
                    | None => None
                    end
           end.

(** Dereference of a cache pointer. *)
Definition deref (c : option ib_roce_gid_cache) : M ib_roce_gid_cache :=
  match c with Some c => ret c | None => fault end.

(** Read and write [cache->data_vec[ix]] of the cache of [port]. *)
Definition load_entry (port ix : Z) : M gid_cache_entry :=
  c <- port_cache port ;;
  c <- deref c ;;
  if ix <? 0 then fault
  else match data_vec c !! Z.to_nat ix with
       | Some e => ret e
       | None => fault
       end.

Definition store_entry (port ix : Z) (e : gid_cache_entry) : M unit :=
  fun d =>
    match roce_gid_cache d with
    | None => None
    | Some tbl =>
        if (port <? 1) || (ix <? 0) then None
        else match tbl !! Z.to_nat (port - 1) with
             | Some (Some c) =>
                 if decide (Z.to_nat ix < length (data_vec c))%nat then
                   let c' := {| active := active c;
                                data_vec := <[Z.to_nat ix := e]> (data_vec c) |} in
                   Some (tt, {| roce_gid_cache :=
                                  Some (<[Z.to_nat (port - 1) := Some c']> tbl);
                                hw := hw d;
                                trace := trace d |})
                 else None
             | _ => None
             end
    end.

Definition call_modify_gid (port ix : Z) (g : ib_gid) (a : ib_gid_attr)
    (ctx : Z) : M (Z * Z) :=
  fun d =>
    let '(r, ctx', h') := modify_gid (hw d) port ix g a ctx in
    Some ((r, ctx'), {| roce_gid_cache := roce_gid_cache d;
                        hw := h';
                        trace := trace d |}).

(** *** [write_gid] *)

(** Lines 119-121: the sequence number stored at the end of a write. *)
Definition publish_seq (orig_seq : Z) : Z :=
  let orig_seq := uint (orig_seq + 1) in
  let orig_seq := if orig_seq =? SEQ_INVALID then 0 else orig_seq in
  uint (orig_seq + 1).

Definition when (b : bool) (m : M unit) : M unit := if b then m else ret tt.

(** [write_gid(ib_dev, port, cache, ix, gid, attr)], with [cache] the
    table of [port] as at every call site.  In program order: read
    [seq], store the in-flight value, call [modify_gid] on the context
    of the slot, release the old device handle unless it is kept, fall
    back to [zgid], [zattr] and a NULL context when [modify_gid]
    failed, copy GID and attributes, take the new device handle, store
    the new [seq], and dispatch the GID change event on success.  The
    status of [modify_gid] is returned. *)
Definition write_gid (port ix : Z) (g : ib_gid) (a : ib_gid_attr) : M Z :=
  emit (EvWriteGid port ix g a) ;;;
  e <- load_entry port ix ;;
  let orig_seq := seq e in
  store_entry port ix
    {| seq := SEQ_INVALID; gid := gid e; attr := attr e; context := context e |} ;;;
  rc <- call_modify_gid port ix g a (context e) ;;
  let '(r, ctx) := rc in
  let old_net_dev := ndev (attr e) in
  when (negb (old_net_dev =? 0) && negb (old_net_dev =? ndev a))
       (emit (EvDevPut old_net_dev)) ;;;
  let '(g', a', ctx') := if r =? 0 then (g, a, ctx) else (zgid, zattr, 0) in
  store_entry port ix
    {| seq := SEQ_INVALID; gid := g'; attr := a'; context := ctx' |} ;;;
  when (negb (ndev a' =? 0) && negb (ndev a' =? old_net_dev))
       (emit (EvDevHold (ndev a'))) ;;;
  store_entry port ix
    {| seq := publish_seq orig_seq; gid := g'; attr := a'; context := ctx' |} ;;;
  when (r =? 0) (emit (EvGidChange port)) ;;;
  ret r.

(** *** [find_gid] *)

(** Body of the loop of [find_gid] for one slot: [Some true] is
    [return i], [Some false] is [continue], [None] is a dereference of a
    NULL [val]. *)
Definition find_gid_slot (s : slot_obs) (g : ib_gid)
    (val : option ib_gid_attr) (msk : ib_gid_attr) : option bool :=
  let orig_seq := seq (s LdSeq) in
  if orig_seq =? SEQ_INVALID then Some false
  else
    type_differs ←
      (if gid_type msk =? 0 then Some false
       else v ← val;
            Some (negb (gid_type (attr (s LdGidType))
                        =? Z.land (gid_type v) (gid_type msk))));
    if (type_differs : bool) then Some false
    else if negb (memcmp g (gid (s LdGid)) =? 0) then Some false
    else
      ndev_differs ←
        (if ndev msk =? 0 then Some false
         else v ← val;
              Some (negb (ndev (attr (s LdNdev))
                          =? Z.land (ndev msk) (ndev v))));
      if (ndev_differs : bool) then Some false
      else Some (orig_seq =? seq (s LdSeqAgain)).

Fixpoint find_gid_from (i : Z) (vec : list slot_obs) (g : ib_gid)
    (val : option ib_gid_attr) (msk : ib_gid_attr) : option Z :=
  match vec with
  | [] => Some (-1)
  | s :: rest =>
      match find_gid_slot s g val msk with
      | None => None
      | Some true => Some i
      | Some false => find_gid_from (i + 1) rest g val msk
      end
  end.

Definition find_gid (vec : list slot_obs) (g : ib_gid)
    (val : option ib_gid_attr) (msk : ib_gid_attr) : option Z :=
  find_gid_from 0 vec g val msk.

Definition lift {A} (o : option A) : M A :=
  match o with Some a => ret a | None => fault end.

(** [find_gid] as [roce_add_gid] and [roce_del_gid] call it, with the
    mutex of the table held: the slots are taken as quiescent, no
    other holder of the mutex being able to run [write_gid]. *)
Definition find_gid_locked (port : Z) (g : ib_gid)
    (val : option ib_gid_attr) (msk : ib_gid_attr) : M Z :=
  c <- port_cache port ;;
  c <- deref c ;;
  lift (find_gid (quiescent <$> data_vec c) g val msk).

(** *** [make_default_gid] *)

Definition make_default_gid (dev : Z) : ib_gid :=
  [xfe; x80; x00; x00; x00; x00; x00; x00] ++ addrconf_ifid_eui48 dev.

(** *** The cache operations *)

Definition cache_array_is_null : M bool :=
  fun d => Some (bool_decide (roce_gid_cache d = None), d).

Definition roce_add_gid (port : Z) (g : ib_gid) (a : ib_gid_attr) : M Z :=
  null <- cache_array_is_null ;;
  if (null : bool) then ret (- ENOSYS)
  else
    c <- port_cache port ;;
    c <- deref c ;;
    if negb (active c) then ret (- ENOSYS)
    else
      mutex_lock port ;;;
      ix <- find_gid_locked port g (Some a) roce_gid_type_msk ;;
      if 0 <=? ix then mutex_unlock port ;;; ret 0
      else
        ix <- find_gid_locked port zgid None zattr ;;
        if ix <? 0 then mutex_unlock port ;;; ret (- ENOSPC)
        else
          write_gid port ix g a ;;;
          mutex_unlock port ;;;
          ret 0.

Definition roce_del_gid (port : Z) (g : ib_gid) (a : ib_gid_attr) : M Z :=
  null <- cache_array_is_null ;;
  if (null : bool) then ret 0
  else
    c <- port_cache port ;;
    c <- deref c ;;
    if negb (active c) then ret (- ENOSYS)
    else if negb (ndev a =? 0) && (memcmp g (make_default_gid (ndev a)) =? 0)
    then ret (- EPERM)
    else
      mutex_lock port ;;;
      ix <- find_gid_locked port g (Some a) roce_gid_type_netdev_msk ;;
      if ix <? 0 then mutex_unlock port ;;; ret 0
      else
        write_gid port ix zgid zattr ;;;
        mutex_unlock port ;;;
        ret 0.

Fixpoint del_all_loop (port dev : Z) (ixs : list Z) : M unit :=
  match ixs with
  | [] => ret tt
  | ix :: rest =>
      e <- load_entry port ix ;;
      (if ndev (attr e) =? dev
       then write_gid port ix zgid zattr ;;; ret tt
       else ret tt) ;;;
      del_all_loop port dev rest
  end.

Definition indices (n : nat) : list Z := seqZ 0 (Z.of_nat n).

Definition roce_del_all_netdev_gids (port dev : Z) : M Z :=
  null <- cache_array_is_null ;;
  if (null : bool) then ret 0
  else
    c <- port_cache port ;;
    c <- deref c ;;
    if negb (active c) then ret (- ENOSYS)
    else
      mutex_lock port ;;;
      del_all_loop port dev (indices (length (data_vec c))) ;;;
      mutex_unlock port ;;;
      ret 0.

(** [1UL << i & ~gid_type_mask], on [unsigned long]. *)
Definition type_not_in_mask (i gid_type_mask : Z) : bool :=
  negb (Z.land (ulong (Z.shiftl 1 i)) (ulong (Z.lnot gid_type_mask)) =? 0).

Fixpoint set_default_loop (port dev : Z) (g : ib_gid) (gid_type_mask : Z)
    (types : list Z) (success : Z) : M unit :=
  match types with
  | [] => ret tt
  | i :: rest =>
      if type_not_in_mask i gid_type_mask
      then set_default_loop port dev g gid_type_mask rest success
      else
        r <- write_gid port success zgid zattr ;;
        if negb (r =? 0)
        then set_default_loop port dev g gid_type_mask rest success
        else
          r <- write_gid port success g {| gid_type := i; ndev := dev |} ;;
          if negb (r =? 0)
          then set_default_loop port dev g gid_type_mask rest success
          else set_default_loop port dev g gid_type_mask rest (success + 1)
  end.

Definition roce_gid_cache_set_default_gid (port dev gid_type_mask : Z) : M unit :=
  c <- port_cache port ;;
  match c with
  | None => ret tt
  | Some _ =>
      set_default_loop port dev (make_default_gid dev) gid_type_mask
        (indices IB_GID_TYPE_SIZE) 0
  end.

(** *** [roce_gid_cache_get_gid], a lock-free reader *)

(** The caller's [gid] and [attr] buffers ([attr] may be NULL) go in
    and come out next to the status.  [None]: undefined behaviour. *)
Definition roce_gid_cache_get_gid (dv : device_obs) (port index : Z)
    (gid_buf : ib_gid) (attr_buf : option ib_gid_attr)
    : option (Z * ib_gid * option ib_gid_attr) :=
  match dv with
  | None => Some (- EINVAL, gid_buf, attr_buf)
  | Some tbl =>
      if port <? 1 then None
      else
        c ← tbl !! Z.to_nat (port - 1);
        c ← (c : option cache_obs);
        if negb (obs_active c) then Some (- ENOSYS, gid_buf, attr_buf)
        else if (index <? 0) || (Z.of_nat (length (obs_vec c)) <=? index)
        then Some (- EINVAL, gid_buf, attr_buf)
        else
          s ← obs_vec c !! Z.to_nat index;
          let orig_seq := seq (s LdSeq) in
          let local_gid := gid (s LdGid) in
          let local_attr := attr (s LdAttr) in
          if (orig_seq =? SEQ_INVALID) || negb (orig_seq =? seq (s LdSeqAgain))
          then Some (- EAGAIN, gid_buf, attr_buf)
          else Some (0, local_gid,
                     match attr_buf with
                     | Some _ => Some local_attr
                     | None => None
                     end)
  end.

(** ** Vocabulary of the statements *)

(** The table of a port, when the access is defined. *)
Definition table_of (d : ib_device hw_state) (port : Z) : option ib_roce_gid_cache :=
  tbl ← roce_gid_cache d;
  if port <? 1 then None else mjoin (tbl !! Z.to_nat (port - 1)).

(** The slot [ix] of the table of a port. *)
Definition slot (d : ib_device hw_state) (port ix : Z) : option gid_cache_entry :=
  c ← table_of d port;
  if ix <? 0 then None else data_vec c !! Z.to_nat ix.

Definition set_slot (c : ib_roce_gid_cache) (ix : Z) (e : gid_cache_entry)
    : ib_roce_gid_cache :=
  {| active := active c; data_vec := <[Z.to_nat ix := e]> (data_vec c) |}.

(** The device after the table of [port] became [c], the hardware [h],
    and the events [evs] happened. *)
Definition updated (d : ib_device hw_state) (port : Z) (c : ib_roce_gid_cache)
    (h : hw_state) (evs : list event) : ib_device hw_state :=
  {| roce_gid_cache :=
       (fun tbl => <[Z.to_nat (port - 1) := Some c]> tbl) <$> roce_gid_cache d;
     hw := h;
     trace := trace d ++ evs |}.

(** The device after the events [evs], nothing else changed. *)
Definition logged (d : ib_device hw_state) (evs : list event)
    : ib_device hw_state :=
  {| roce_gid_cache := roce_gid_cache d; hw := hw d; trace := trace d ++ evs |}.

(** The entry [write_gid] leaves in a slot that held [e]. *)
Definition written_entry (e : gid_cache_entry) (g : ib_gid) (a : ib_gid_attr)
    (r ctx : Z) : gid_cache_entry :=
  if r =? 0
  then {| seq := publish_seq (seq e); gid := g; attr := a; context := ctx |}
  else {| seq := publish_seq (seq e); gid := zgid; attr := zattr; context := 0 |}.

(** The events of one [write_gid]. *)
Definition write_events (e : gid_cache_entry) (port ix : Z) (g : ib_gid)
    (a : ib_gid_attr) (r : Z) : list event :=
  let old_net_dev := ndev (attr e) in
  let a' := if r =? 0 then a else zattr in
  [EvWriteGid port ix g a]
  ++ (if negb (old_net_dev =? 0) && negb (old_net_dev =? ndev a)
      then [EvDevPut old_net_dev] else [])
  ++ (if negb (ndev a' =? 0) && negb (ndev a' =? old_net_dev)
      then [EvDevHold (ndev a')] else [])
  ++ (if r =? 0 then [EvGidChange port] else []).

(** The entry a failed write leaves: the zero GID, the zero attributes
    and a NULL context, under the next sequence number. *)
Definition emptied (e : gid_cache_entry) : gid_cache_entry :=
  {| seq := publish_seq (seq e); gid := zgid; attr := zattr; context := 0 |}.

(** The version a slot carries after one [write_gid] on it. *)
Definition seq_after_write (port ix : Z) (g : ib_gid) (a : ib_gid_attr)
    (d : ib_device hw_state) : option Z :=
  match write_gid port ix g a d with
  | Some (_, d') => seq <$> slot d' port ix
  | None => None
  end.

(** A slot, as one scan observed it, passes every test of the loop
    body: the first version read is not the in-flight value, the type
    and the device agree under the mask, the GID bytes agree, and the
    version read again is the version read first. *)
Definition slot_qualifies (s : slot_obs) (g : ib_gid) (v msk : ib_gid_attr)
    : Prop :=
  seq (s LdSeq) <> SEQ_INVALID
  /\ (gid_type msk = 0
      \/ gid_type (attr (s LdGidType)) = Z.land (gid_type v) (gid_type msk))
  /\ gid (s LdGid) = g
  /\ (ndev msk = 0
      \/ ndev (attr (s LdNdev)) = Z.land (ndev msk) (ndev v))
  /\ seq (s LdSeqAgain) = seq (s LdSeq).

#[global] Instance slot_qualifies_dec s g v msk :
  Decision (slot_qualifies s g v msk).
Proof. unfold slot_qualifies. apply _. Defined.

(** The same without a [val]: only the empty mask avoids the
    dereference. *)
Definition slot_is_free (s : slot_obs) (g : ib_gid) : Prop :=
  seq (s LdSeq) <> SEQ_INVALID
  /\ gid (s LdGid) = g
  /\ seq (s LdSeqAgain) = seq (s LdSeq).

#[global] Instance slot_is_free_dec s g : Decision (slot_is_free s g).
Proof. unfold slot_is_free. apply _. Defined.

(** A stored entry with the GID and the GID type asked for. *)
Definition same_gid_and_type (g : ib_gid) (a : ib_gid_attr)
    (e : gid_cache_entry) : Prop :=
  seq e <> SEQ_INVALID /\ gid_type (attr e) = gid_type a /\ gid e = g.

(** A slot [find_gid] accepts as empty: the zero GID, not in flight. *)
Definition empty_slot (e : gid_cache_entry) : Prop :=
  seq e <> SEQ_INVALID /\ gid e = zgid.

(** A stored entry with the GID, the GID type and the device asked for:
    what [find_gid] matches under [roce_gid_type_netdev_msk]. *)
Definition stored_as (g : ib_gid) (a : ib_gid_attr) (e : gid_cache_entry)
    : Prop :=
  seq e <> SEQ_INVALID
  /\ gid_type (attr e) = gid_type a
  /\ gid e = g
  /\ ndev (attr e) = ndev a.

(** Deleting a default GID is refused before the mutex is taken. *)
Definition is_default_gid_of (g : ib_gid) (a : ib_gid_attr) : Prop :=
  ndev a <> 0 /\ g = make_default_gid (ndev a).

(** *** [roce_gid_cache_set_default_gid], told type by type *)

(** The wording of the specification (section 4.3, SetDefault), to
    compare the loop with: one GID type is served by deleting whatever
    slot [success] holds and, when that went through, writing the
    default GID there; the counter advances only when both writes
    succeed. *)
Definition replace_default (port dev : Z) (g : ib_gid) (type success : Z) : M Z :=
  r <- write_gid port success zgid zattr ;;
  if r =? 0 then
    r <- write_gid port success g {| gid_type := type; ndev := dev |} ;;
    ret (if r =? 0 then success + 1 else success)
  else ret success.

Fixpoint for_each_type (port dev : Z) (g : ib_gid) (types : list Z)
    (success : Z) : M Z :=
  match types with
  | [] => ret success
  | type :: rest =>
      success' <- replace_default port dev g type success ;;
      for_each_type port dev g rest success'
  end.

(** The GID types present in the mask, in ascending order. *)
Definition types_in_mask (gid_type_mask : Z) : list Z :=
  filter (fun i => Z.testbit gid_type_mask i = true) (indices IB_GID_TYPE_SIZE).

Definition set_default_by_type (port dev gid_type_mask : Z) : M unit :=
  c <- port_cache port ;;
  match c with
  | None => ret tt
  | Some _ =>
      for_each_type port dev (make_default_gid dev)
        (types_in_mask gid_type_mask) 0 ;;;
      ret tt
  end.

(** ** Vocabulary of the further properties *)

(** The events a run added to the trace. *)
Definition new_events (d d' : ib_device hw_state) : list event :=
  drop (length (trace d)) (trace d').

(** References taken on [dev] minus references dropped on it. *)
Fixpoint ref_delta (dev : Z) (evs : list event) : Z :=
  match evs with
  | [] => 0
  | EvDevHold d :: evs' => (if d =? dev then 1 else 0) + ref_delta dev evs'
  | EvDevPut d :: evs' => ref_delta dev evs' - (if d =? dev then 1 else 0)
  | _ :: evs' => ref_delta dev evs'
  end.

(** 1 when the entry names [dev], 0 otherwise. *)
Definition names_dev (dev : Z) (e : gid_cache_entry) : Z :=
  if ndev (attr e) =? dev then 1 else 0.

(** What a reader sees of a table, and of a device, nobody writes. *)
Definition observe_cache (c : ib_roce_gid_cache) : cache_obs :=
  {| obs_active := active c; obs_vec := quiescent <$> data_vec c |}.

Definition observe (d : ib_device hw_state) : device_obs :=
  (fun tbl : list (option ib_roce_gid_cache) =>
     (fun c : option ib_roce_gid_cache => observe_cache <$> c) <$> tbl)
  <$> roce_gid_cache d.

(** The entry a successful [write_gid] of [g] and [a] leaves in a slot
    that held [e], the driver having left the context [ctx]. *)
Definition stored (e : gid_cache_entry) (g : ib_gid) (a : ib_gid_attr)
    (ctx : Z) : gid_cache_entry :=
  {| seq := publish_seq (seq e); gid := g; attr := a; context := ctx |}.

(** ** [_roce_gid_cache_find_gid]: the scan over the ports *)

Definition ENOENT : Z := 2.

(** Stores through [u8 *] and [u16 *]. *)
Definition u8 (x : Z) : Z := x mod 2 ^ 8.

Definition u16 (x : Z) : Z := x mod 2 ^ 16.

(** [start_port]: a switch numbers its ports from 0, any other node
    from 1. *)
Definition start_port (is_switch : bool) : Z := if is_switch then 0 else 1.

(** The loop over [p] of [_roce_gid_cache_find_gid].  [eth n] tells
    whether [rdma_port_get_link_layer(ib_dev, n)] is
    [IB_LINK_LAYER_ETHERNET]; [tbl] is the array of tables as the
    reader sees it.  The caller's [port] and [index] buffers, each
    behind a pointer that may be NULL, go in and come out next to the
    status. *)
Fixpoint find_gid_ports (is_switch : bool) (eth : Z -> bool)
    (tbl : list (option cache_obs)) (ps : list Z) (g : ib_gid)
    (val : option ib_gid_attr) (msk : ib_gid_attr)
    (port_buf index_buf : option Z) : option (Z * option Z * option Z) :=
  match ps with
  | [] => Some (- ENOENT, port_buf, index_buf)
  | p :: rest =>
      if negb (eth (p + start_port is_switch))
      then find_gid_ports is_switch eth tbl rest g val msk port_buf index_buf
      else
        c ← tbl !! Z.to_nat p;
        c ← (c : option cache_obs);
        if negb (obs_active c)
        then find_gid_ports is_switch eth tbl rest g val msk port_buf index_buf
        else
          local_index ← find_gid (obs_vec c) g val msk;
          if 0 <=? local_index
          then Some (0,
                     (fun _ => u8 (p + start_port is_switch)) <$> port_buf,
                     (fun _ => u16 local_index) <$> index_buf)
          else find_gid_ports is_switch eth tbl rest g val msk port_buf index_buf
  end.

Definition _roce_gid_cache_find_gid (is_switch : bool) (phys_port_cnt : Z)
    (eth : Z -> bool) (dv : device_obs) (g : ib_gid)
    (val : option ib_gid_attr) (msk : ib_gid_attr)
    (port_buf index_buf : option Z) : option (Z * option Z * option Z) :=
  match dv with
  | None => Some (- ENOENT, port_buf, index_buf)
  | Some tbl =>
      find_gid_ports is_switch eth tbl (seqZ 0 phys_port_cnt) g val msk
        port_buf index_buf
  end.

Definition roce_gid_cache_find_gid (is_switch : bool) (phys_port_cnt : Z)
    (eth : Z -> bool) (dv : device_obs) (g : ib_gid) (type : Z)
    (port_buf index_buf : option Z) : option (Z * option Z * option Z) :=
  let gid_type_val := {| gid_type := type; ndev := 0 |} in
  _roce_gid_cache_find_gid is_switch phys_port_cnt eth dv g
    (Some gid_type_val) roce_gid_type_msk port_buf index_buf.

(** The table the scan searches at [p]: the port is an Ethernet port
    and its table is active. *)
Definition searched (is_switch : bool) (eth : Z -> bool)
    (tbl : list (option cache_obs)) (p : Z) (c : cache_obs) : Prop :=
  eth (p + start_port is_switch) = true
  /\ tbl !! Z.to_nat p = Some (Some c)
  /\ obs_active c = true.

(** Some slot of the table qualifies. *)
Definition table_has (c : cache_obs) (g : ib_gid) (v msk : ib_gid_attr) : Prop :=
  exists i (s : slot_obs), obs_vec c !! i = Some s /\ slot_qualifies s g v msk.

(** Every Ethernet port among the first [cnt] has a table. *)
Definition eth_ports_have_tables (is_switch : bool) (eth : Z -> bool)
    (tbl : list (option cache_obs)) (cnt : Z) : Prop :=
  forall p, 0 <= p < cnt -> eth (p + start_port is_switch) = true ->
    is_Some (mjoin (tbl !! Z.to_nat p)).

(** ** Set-up, activation and tear-down *)

Definition ENOMEM : Z := 12.

(** [ib_dev->cache.roce_gid_cache = arr]. *)
Definition set_cache_array (arr : option (list (option ib_roce_gid_cache)))
    : M unit :=
  fun d => Some (tt, {| roce_gid_cache := arr; hw := hw d; trace := trace d |}).

(** [ib_dev->cache.roce_gid_cache[p]], read and written: the array
    pointer is dereferenced and [p] has to lie inside the array. *)
Definition load_cache_ptr (p : Z) : M (option ib_roce_gid_cache) :=
  fun d => match roce_gid_cache d with
           | None => None
           | Some tbl =>
               match tbl !! Z.to_nat p with
               | Some c => Some (c, d)
               | None => None
               end
           end.

Definition store_cache_ptr (p : Z) (c : option ib_roce_gid_cache) : M unit :=
  fun d => match roce_gid_cache d with
           | None => None
           | Some tbl =>
               if decide (Z.to_nat p < length tbl)%nat
               then Some (tt, {| roce_gid_cache := Some (<[Z.to_nat p := c]> tbl);
                                 hw := hw d;
                                 trace := trace d |})
               else None
           end.

(** [alloc_roce_gid_cache] where either of its two allocations may
    fail: [ok] tells whether both succeed. *)
Definition alloc_roce_gid_cache_or_null (ok : bool) (sz : nat)
    : option ib_roce_gid_cache :=
  if ok then Some (alloc_roce_gid_cache sz) else None.

(** [free_roce_gid_cache]: one [dev_put] for every slot that names a
    device; the memory itself is not modelled. *)
Fixpoint put_devices (vec : list gid_cache_entry) : M unit :=
  match vec with
  | [] => ret tt
  | e :: rest =>
      when (negb (ndev (attr e) =? 0)) (emit (EvDevPut (ndev (attr e)))) ;;;
      put_devices rest
  end.

Definition free_roce_gid_cache (c : option ib_roce_gid_cache) : M unit :=
  match c with
  | None => ret tt
  | Some c => put_devices (data_vec c)
  end.

(** [set_roce_gid_cache_active(ib_dev->cache.roce_gid_cache[p], active)]. *)
Definition set_roce_gid_cache_active (p : Z) (act : bool) : M unit :=
  c <- load_cache_ptr p ;;
  match c with
  | None => ret tt
  | Some c => store_cache_ptr p (Some {| active := act; data_vec := data_vec c |})
  end.

(** The allocation loop of [roce_gid_cache_setup_one]: [false] is the
    jump to [rollback_cache_setup]. *)
Fixpoint setup_ports (gid_tbl_len : Z -> nat) (alloc_ok : Z -> bool)
    (ps : list Z) : M bool :=
  match ps with
  | [] => ret true
  | port :: rest =>
      let c := alloc_roce_gid_cache_or_null (alloc_ok port) (gid_tbl_len port) in
      store_cache_ptr port c ;;;
      match c with
      | None => ret false
      | Some _ => setup_ports gid_tbl_len alloc_ok rest
      end
  end.

Fixpoint free_ports (ps : list Z) : M unit :=
  match ps with
  | [] => ret tt
  | port :: rest =>
      c <- load_cache_ptr port ;;
      free_roce_gid_cache c ;;;
      free_ports rest
  end.

(** [roce_gid_cache_setup_one].  [has_modify_gid]: the driver has the
    callback; [gid_tbl_len p] is [ib_dev->gid_tbl_len[p]], taken not
    negative; [array_ok] and [alloc_ok p] tell which allocations
    succeed. *)
Definition roce_gid_cache_setup_one (has_modify_gid : bool) (phys_port_cnt : Z)
    (gid_tbl_len : Z -> nat) (array_ok : bool) (alloc_ok : Z -> bool) : M Z :=
  if negb has_modify_gid then ret (- ENOSYS)
  else
    set_cache_array
      (if array_ok then Some (replicate (Z.to_nat phys_port_cnt) None) else None) ;;;
    if negb array_ok then ret (- ENOMEM)
    else
      ok <- setup_ports gid_tbl_len alloc_ok (seqZ 0 phys_port_cnt) ;;
      if (ok : bool) then ret 0
      else
        free_ports (seqZ 0 phys_port_cnt) ;;;
        set_cache_array None ;;;
        ret (- ENOMEM).

Definition roce_gid_cache_cleanup_one (phys_port_cnt : Z) : M unit :=
  null <- cache_array_is_null ;;
  if (null : bool) then ret tt
  else
    free_ports (seqZ 0 phys_port_cnt) ;;;
    set_cache_array None.

Fixpoint set_active_ports (act : bool) (ps : list Z) : M unit :=
  match ps with
  | [] => ret tt
  | port :: rest =>
      set_roce_gid_cache_active port act ;;;
      set_active_ports act rest
  end.

Definition roce_gid_cache_set_active_state (phys_port_cnt : Z) (act : bool)
    : M unit :=
  null <- cache_array_is_null ;;
  if (null : bool) then ret tt
  else set_active_ports act (seqZ 0 phys_port_cnt).

Definition roce_gid_cache_is_active (port : Z) : M Z :=
  null <- cache_array_is_null ;;
  if (null : bool) then ret 0
  else
    c <- port_cache port ;;
    c <- deref c ;;
    ret (if active c then 1 else 0).

(** [roce_gid_cache_client_setup_one]; [work_ok] tells whether the
    work item of the rescan is allocated, the result whether
    [roce_rescan_devices] was scheduled. *)
Definition roce_gid_cache_client_setup_one (has_modify_gid : bool)
    (phys_port_cnt : Z) (gid_tbl_len : Z -> nat) (array_ok : bool)
    (alloc_ok : Z -> bool) (work_ok : bool) : M bool :=
  r <- roce_gid_cache_setup_one has_modify_gid phys_port_cnt gid_tbl_len
         array_ok alloc_ok ;;
  if r =? 0 then
    if negb work_ok then roce_gid_cache_cleanup_one phys_port_cnt ;;; ret false
    else roce_gid_cache_set_active_state phys_port_cnt true ;;; ret true
  else ret false.

(** The device with another array of tables. *)
Definition with_cache_array (d : ib_device hw_state)
    (arr : option (list (option ib_roce_gid_cache))) : ib_device hw_state :=
  {| roce_gid_cache := arr; hw := hw d; trace := trace d |}.

(** A table as [alloc_roce_gid_cache] leaves it, or no table. *)
Definition fresh_or_null (c : option ib_roce_gid_cache) : Prop :=
  match c with
  | None => True
  | Some c => exists n, c = alloc_roce_gid_cache n
  end.

(** The references on [dev] the slots of the tables stand for. *)
Definition refs_in_vec (dev : Z) (vec : list gid_cache_entry) : Z :=
  foldr (fun e n => names_dev dev e + n) 0 vec.

Definition refs_in_tables (dev : Z) (tbl : list (option ib_roce_gid_cache)) : Z :=
  foldr (fun c n => from_option (fun c => refs_in_vec dev (data_vec c)) 0 c + n)
        0 tbl.

(** ** [write_gid] between its barriers *)

(** Up to the first [smp_wmb]: the version is read and the in-flight
    value is stored.  The entry found is returned. *)
Definition write_gid_invalidate (port ix : Z) : M gid_cache_entry :=
  e <- load_entry port ix ;;
  store_entry port ix
    {| seq := SEQ_INVALID; gid := gid e; attr := attr e; context := context e |} ;;;
  ret e.

(** Between the two [smp_wmb]: the driver is called, the device
    handles are exchanged and the slot gets its new content, its
    version still in flight.  The status and the content stored are
    returned. *)
Definition write_gid_update (port ix : Z) (g : ib_gid) (a : ib_gid_attr)
    (e : gid_cache_entry) : M (Z * gid_cache_entry) :=
  rc <- call_modify_gid port ix g a (context e) ;;
  let '(r, ctx) := rc in
  let old_net_dev := ndev (attr e) in
  when (negb (old_net_dev =? 0) && negb (old_net_dev =? ndev a))
       (emit (EvDevPut old_net_dev)) ;;;
  let '(g', a', ctx') := if r =? 0 then (g, a, ctx) else (zgid, zattr, 0) in
  store_entry port ix
    {| seq := SEQ_INVALID; gid := g'; attr := a'; context := ctx' |} ;;;
  when (negb (ndev a' =? 0) && negb (ndev a' =? old_net_dev))
       (emit (EvDevHold (ndev a'))) ;;;
  ret (r, {| seq := SEQ_INVALID; gid := g'; attr := a'; context := ctx' |}).

(** After the second [smp_wmb]: the new version is stored and the
    event dispatched. *)
Definition write_gid_publish (port ix orig_seq r : Z) (e' : gid_cache_entry)
    : M Z :=
  store_entry port ix
    {| seq := publish_seq orig_seq; gid := gid e'; attr := attr e';
       context := context e' |} ;;;
  when (r =? 0) (emit (EvGidChange port)) ;;;
  ret r.

Definition write_gid_stepwise (port ix : Z) (g : ib_gid) (a : ib_gid_attr)
    : M Z :=
  emit (EvWriteGid port ix g a) ;;;
  e <- write_gid_invalidate port ix ;;
  x <- write_gid_update port ix g a e ;;
  write_gid_publish port ix (seq e) (fst x) (snd x).

(** What a reader can see of a slot that one [write_gid] takes from
    [e0] to [e3].  The reader loads the version first and last, with a
    read barrier after the first and before the last load; the writer
    stores the in-flight value first and the new version last, with a
    write barrier after the first and before the last store.  So no
    load falls earlier than the first load of the version or later
    than the last; a load before the write sees [e0], a load after it
    sees [e3], and a load in between sees the in-flight version and
    whatever bytes the copy has reached. *)
Definition sees_one_write (e0 e3 : gid_cache_entry) (s : slot_obs) : Prop :=
  exists ph : access -> write_phase,
    (forall ld, (phase_rank (ph LdSeq) <= phase_rank (ph ld))%nat
                /\ (phase_rank (ph ld) <= phase_rank (ph LdSeqAgain))%nat)
    /\ forall ld, match ph ld with
                  | BeforeWrite => s ld = e0
                  | DuringWrite => seq (s ld) = SEQ_INVALID
                  | AfterWrite => s ld = e3
                  end.

(** ** [roce_gid_mgmt.c]: updates of the cache *)

(** The loop of [update_gid].  [gid_type_mask] is what
    [gid_type_mask_support(ib_dev, port)] returned.  The caller's
    [gid_attr] gets the GID type of each round written into it and is
    returned as the loop leaves it; the status of [roce_add_gid] and
    of [roce_del_gid] is dropped. *)
Fixpoint update_gid_loop (gid_op : gid_op_type) (port : Z) (g : ib_gid)
    (gid_attr : ib_gid_attr) (gid_type_mask : Z) (types : list Z)
    : M ib_gid_attr :=
  match types with
  | [] => ret gid_attr
  | i :: rest =>
      if negb (Z.land (ulong (Z.shiftl 1 i)) gid_type_mask =? 0)
      then
        let gid_attr := {| gid_type := i; ndev := ndev gid_attr |} in
        match gid_op with
        | GID_ADD => roce_add_gid port g gid_attr
        | GID_DEL => roce_del_gid port g gid_attr
        end ;;;
        update_gid_loop gid_op port g gid_attr gid_type_mask rest
      else update_gid_loop gid_op port g gid_attr gid_type_mask rest
  end.

Definition update_gid (gid_op : gid_op_type) (port : Z) (g : ib_gid)
    (gid_attr : ib_gid_attr) (gid_type_mask : Z) : M ib_gid_attr :=
  update_gid_loop gid_op port g gid_attr gid_type_mask (indices IB_GID_TYPE_SIZE).

(** [update_gid_ip]: [g] is what [rdma_ip2gid(addr, &gid)] stored; the
    attributes are zeroed and the [ndev] argument, here [dev], is not
    used. *)
Definition update_gid_ip (gid_op : gid_op_type) (port dev : Z) (g : ib_gid)
    (gid_type_mask : Z) : M unit :=
  let gid_attr := {| gid_type := 0; ndev := 0 |} in
  update_gid gid_op port g gid_attr gid_type_mask ;;;
  ret tt.

(** * Properties of [roce_gid_cache.c] *)

(** ** Traces *)

Lemma writes_under_lock_skip p held evs rest :
  p ∈ held ->
  Forall (write_event_of p) evs ->
  writes_under_lock held (evs ++ rest) = writes_under_lock held rest.
Proof.
  intros Hp Hevs. induction Hevs as [|e evs He Hevs IH]; [done|].
  destruct e; simpl in *; try done. subst. by rewrite bool_decide_true.
Qed.

Lemma writes_under_lock_bracket p evs :
  Forall (write_event_of p) evs ->
  writes_under_lock [] ([EvMutexLock p] ++ evs ++ [EvMutexUnlock p]) = true.
Proof.
  intros Hevs. simpl. rewrite (writes_under_lock_skip p); [|apply list_elem_of_here|done].
  simpl. done.
Qed.

(** ** What [find_gid] finds *)

Lemma memcmp_zero a b : (memcmp a b =? 0) = bool_decide (a = b).
Proof. unfold memcmp. by destruct (decide (a = b)); simpl; case_bool_decide. Qed.

Lemma find_gid_slot_val s g v msk :
  find_gid_slot s g (Some v) msk = Some (bool_decide (slot_qualifies s g v msk)).
Proof.
  unfold find_gid_slot, slot_qualifies. simpl. rewrite memcmp_zero.
  destruct (Z.eqb_spec (seq (s LdSeq)) SEQ_INVALID) as [Hs|Hs].
  { rewrite bool_decide_false; [done|]. tauto. }
  destruct (Z.eqb_spec (gid_type msk) 0) as [Hm|Hm]; simpl.
  - case_bool_decide as Hg; simpl.
    + destruct (Z.eqb_spec (ndev msk) 0) as [Hn|Hn]; simpl.
      * destruct (Z.eqb_spec (seq (s LdSeq)) (seq (s LdSeqAgain))) as [Hq|Hq];
          f_equal; symmetry; [apply bool_decide_eq_true|apply bool_decide_eq_false];
          intuition congruence.
      * destruct (Z.eqb_spec (ndev (attr (s LdNdev))) (Z.land (ndev msk) (ndev v)));
          simpl;
          [destruct (Z.eqb_spec (seq (s LdSeq)) (seq (s LdSeqAgain))) as [Hq|Hq]|];
          f_equal; symmetry;
          first [apply bool_decide_eq_true; by intuition congruence
                |apply bool_decide_eq_false; by intuition congruence].
    + f_equal; symmetry. apply bool_decide_eq_false. intuition congruence.
  - destruct (Z.eqb_spec (gid_type (attr (s LdGidType)))
                (Z.land (gid_type v) (gid_type msk))) as [Ht|Ht]; simpl.
    + case_bool_decide as Hg; simpl.
      * destruct (Z.eqb_spec (ndev msk) 0) as [Hn|Hn]; simpl.
        -- destruct (Z.eqb_spec (seq (s LdSeq)) (seq (s LdSeqAgain))) as [Hq|Hq];
             f_equal; symmetry; [apply bool_decide_eq_true|apply bool_decide_eq_false];
             intuition congruence.
        -- destruct (Z.eqb_spec (ndev (attr (s LdNdev))) (Z.land (ndev msk) (ndev v)));
             simpl;
             [destruct (Z.eqb_spec (seq (s LdSeq)) (seq (s LdSeqAgain))) as [Hq|Hq]|];
             f_equal; symmetry;
             first [apply bool_decide_eq_true; by intuition congruence
                   |apply bool_decide_eq_false; by intuition congruence].
      * f_equal; symmetry. apply bool_decide_eq_false. intuition congruence.
    + f_equal; symmetry. apply bool_decide_eq_false. intuition congruence.
Qed.

Lemma find_gid_slot_null s g :
  find_gid_slot s g None zattr = Some (bool_decide (slot_is_free s g)).
Proof.
  unfold find_gid_slot, slot_is_free. simpl. rewrite memcmp_zero.
  destruct (Z.eqb_spec (seq (s LdSeq)) SEQ_INVALID) as [Hs|Hs].
  { rewrite bool_decide_false; [done|]. tauto. }
  case_bool_decide as Hg; simpl.
  - destruct (Z.eqb_spec (seq (s LdSeq)) (seq (s LdSeqAgain))) as [Hq|Hq];
      f_equal; symmetry; [apply bool_decide_eq_true|apply bool_decide_eq_false];
      intuition congruence.
  - f_equal; symmetry. apply bool_decide_eq_false. intuition congruence.
Qed.

(** The scan returns the first slot on which the loop body says
    [return], whatever the test [P] it implements. *)
Lemma find_gid_from_list_find (P : slot_obs -> Prop) `{!forall s, Decision (P s)}
    k vec g val msk :
  (forall s, s ∈ vec -> find_gid_slot s g val msk = Some (bool_decide (P s))) ->
  find_gid_from k vec g val msk =
    Some (match list_find P vec with
          | Some (i, _) => k + Z.of_nat i
          | None => -1
          end).
Proof.
  revert k. induction vec as [|s vec IH]; intros k Hbody; [done|].
  simpl. rewrite Hbody by apply list_elem_of_here.
  unfold list_find; fold (list_find P). 
  destruct (decide (P s)) as [HP|HP].
  - rewrite bool_decide_true by done. f_equal. lia.
  - rewrite bool_decide_false by done.
    rewrite IH by (intros; apply Hbody; by apply list_elem_of_further).
    destruct (list_find P vec) as [[i x]|]; simpl; f_equal. lia.
Qed.

(** C5: [find_gid] returns the lowest index whose slot qualifies (first
    version read not in flight, type, GID bytes and device matching
    under the mask, version unchanged when read again), and [-1] when
    no slot qualifies; a slot whose version was in flight or changed
    between the two reads is never the result. *)
Theorem find_gid_lowest_match (vec : list slot_obs) g v msk :
  exists r,
    find_gid vec g (Some v) msk = Some r
    /\ ((r = -1
         /\ forall i (s : slot_obs), vec !! i = Some s ->
                        ~ slot_qualifies s g v msk)
        \/ (exists i (s : slot_obs),
              r = Z.of_nat i
              /\ vec !! i = Some s
              /\ slot_qualifies s g v msk
              /\ forall j (s' : slot_obs), vec !! j = Some s' -> (j < i)%nat ->
                              ~ slot_qualifies s' g v msk))
    /\ (forall i (s : slot_obs), vec !! i = Some s ->
          seq (s LdSeq) = SEQ_INVALID \/ seq (s LdSeqAgain) <> seq (s LdSeq) ->
          r <> Z.of_nat i).
Proof.
  unfold find_gid.
  rewrite (find_gid_from_list_find (fun s => slot_qualifies s g v msk))
    by (intros; apply find_gid_slot_val).
  destruct (list_find _ vec) as [[i s]|] eqn:Hf; eexists; (split; [reflexivity|]).
  - apply list_find_Some in Hf as (Hi & Hq & Hleast). split.
    + right. exists i, s. split_and!; [lia|done..].
    + intros i' s' Hi' Hbad Heq. assert (i' = i) by lia. subst i'.
      assert (s' = s) by (rewrite Hi in Hi'; congruence). subst s'.
      destruct Hq as (? & _ & _ & _ & ?). tauto.
  - rewrite list_find_None, Forall_lookup in Hf. split.
    + left. split; [done|]. intros i s Hi. by eapply Hf.
    + intros i s _ _. lia.
Qed.

(** ** Reasoning about the writer monad *)

Lemma table_of_inv d port c :
  table_of d port = Some c ->
  exists tbl, roce_gid_cache d = Some tbl /\ (port <? 1) = false
              /\ tbl !! Z.to_nat (port - 1) = Some (Some c).
Proof.
  unfold table_of. destruct (roce_gid_cache d) as [tbl|]; simpl; [|done].
  destruct (port <? 1); [done|].
  destruct (tbl !! Z.to_nat (port - 1)) as [[c'|]|] eqn:E; simpl; try done.
  intros [= ->]. eauto.
Qed.

Lemma table_of_updated d port c c' h evs :
  table_of d port = Some c -> table_of (updated d port c' h evs) port = Some c'.
Proof.
  intros (tbl & Ht & Hp & Hl)%table_of_inv.
  unfold table_of, updated. simpl. rewrite Ht. simpl. rewrite Hp.
  rewrite list_lookup_insert_eq; [done|]. by eapply lookup_lt_Some.
Qed.

Lemma table_of_updated_ne d port port' c' h evs :
  1 <= port -> 1 <= port' -> port <> port' ->
  table_of (updated d port c' h evs) port' = table_of d port'.
Proof.
  intros Hp Hp' Hne. unfold table_of, updated. simpl.
  destruct (roce_gid_cache d) as [tbl|]; simpl; [|done].
  destruct (port' <? 1); [done|].
  rewrite list_lookup_insert_ne; [done|lia].
Qed.

Lemma write_gid_run d port ix g a c e r ctx h' :
  table_of d port = Some c ->
  0 <= ix ->
  data_vec c !! Z.to_nat ix = Some e ->
  modify_gid (hw d) port ix g a (context e) = (r, ctx, h') ->
  write_gid port ix g a d =
    Some (r, updated d port (set_slot c ix (written_entry e g a r ctx)) h'
                (write_events e port ix g a r)).
Proof.
  intros (tbl & Ht & Hp & Hl)%table_of_inv Hix He Hm.
  assert (Hlt : (Z.to_nat ix < length (data_vec c))%nat) by by eapply lookup_lt_Some.
  assert (Hlp : (Z.to_nat (port - 1) < length tbl)%nat) by by eapply lookup_lt_Some.
  assert (Hix' : (ix <? 0) = false) by lia.
  destruct d as [rc h t]. simpl in *. subst rc.
  cbv [write_gid bind emit load_entry port_cache deref store_entry
       call_modify_gid when ret updated set_slot written_entry write_events
       roce_gid_cache hw trace fmap option_fmap option_map].
  rewrite Hp, Hl, Hix'. cbn [orb]. rewrite He, Hl.
  rewrite decide_True by done. rewrite Hm.
  set (old := ndev (attr e)).
  destruct (negb (old =? 0) && negb (old =? ndev a));
    destruct (r =? 0);
    try destruct (negb (ndev a =? 0) && negb (ndev a =? old));
    repeat first
      [ rewrite list_lookup_insert_eq by (rewrite ?length_insert; done)
      | rewrite decide_True by (cbn [data_vec]; rewrite ?length_insert; done)
      | progress cbv beta iota
      | progress cbn [data_vec active ndev zattr Z.eqb negb andb] ];
    rewrite ?list_insert_insert_eq, <- ?app_assoc; reflexivity.
Qed.

(** Outside its slot and its table, [write_gid] changes nothing, and it
    is defined on every slot that exists. *)
Lemma write_gid_defined d port ix g a e :
  slot d port ix = Some e ->
  exists c r ctx h',
    table_of d port = Some c
    /\ modify_gid (hw d) port ix g a (context e) = (r, ctx, h')
    /\ write_gid port ix g a d =
         Some (r, updated d port (set_slot c ix (written_entry e g a r ctx)) h'
                     (write_events e port ix g a r)).
Proof.
  unfold slot. destruct (table_of d port) as [c|] eqn:Hc; simpl; [|done].
  destruct (ix <? 0) eqn:Hix; [done|]. intros He.
  destruct (modify_gid (hw d) port ix g a (context e)) as [[r ctx] h'] eqn:Hm.
  exists c, r, ctx, h'. split_and!; [done..|].
  eapply write_gid_run; eauto. lia.
Qed.

Lemma slot_updated d port ix c c' e' h evs :
  table_of d port = Some c ->
  0 <= ix ->
  (Z.to_nat ix < length (data_vec c'))%nat ->
  slot (updated d port (set_slot c' ix e') h evs) port ix = Some e'.
Proof.
  intros Hc Hix Hlt. unfold slot.
  erewrite table_of_updated by done. simpl.
  assert ((ix <? 0) = false) as -> by lia.
  by apply list_lookup_insert_eq.
Qed.

(** ** The sequence number published by a write *)

Lemma UINT_MODULUS_value : UINT_MODULUS = 4294967296.
Proof. reflexivity. Qed.

Lemma publish_seq_below v :
  0 <= v < SEQ_INVALID - 2 -> publish_seq v = v + 2.
Proof.
  unfold publish_seq, uint, SEQ_INVALID. rewrite UINT_MODULUS_value. intros Hv.
  rewrite (Z.mod_small (v + 1)) by lia.
  destruct (Z.eqb_spec (v + 1) (4294967296 - 1)); [lia|].
  rewrite Z.mod_small by lia. lia.
Qed.

Lemma publish_seq_wraps : publish_seq (SEQ_INVALID - 1) = 1.
Proof. reflexivity. Qed.

Lemma publish_seq_reaches_invalid : publish_seq (SEQ_INVALID - 2) = SEQ_INVALID.
Proof. reflexivity. Qed.

Lemma seq_written_entry e g a r ctx :
  seq (written_entry e g a r ctx) = publish_seq (seq e).
Proof. unfold written_entry. by destruct (r =? 0). Qed.

(** C1 (as the code has it): a write to a slot whose version is [v]
    always completes and publishes [publish_seq v].  While [v + 2] stays
    below the in-flight value [(unsigned int)-1], that is [v + 2]: not
    the in-flight value and strictly greater than [v]; from
    [v = 2^32 - 2] the counter wraps to [1]. *)
Theorem write_gid_publishes d port ix g a e :
  slot d port ix = Some e ->
  exists r d' e',
    write_gid port ix g a d = Some (r, d')
    /\ slot d' port ix = Some e'
    /\ (0 <= seq e < SEQ_INVALID - 2 ->
        seq e' = seq e + 2 /\ seq e' <> SEQ_INVALID /\ seq e < seq e')
    /\ (seq e = SEQ_INVALID - 1 -> seq e' = 1).
Proof.
  intros He.
  destruct (write_gid_defined d port ix g a e He) as (c & r & ctx & h' & Hc & Hm & Hw).
  eexists r, _, (written_entry e g a r ctx). split; [exact Hw|].
  unfold slot in He. rewrite Hc in He. simpl in He.
  destruct (ix <? 0) eqn:Hix; [done|].
  split.
  - eapply slot_updated; [done|lia|]. by eapply lookup_lt_Some.
  - rewrite seq_written_entry. split.
    + intros Hv. rewrite publish_seq_below by done. lia.
    + intros ->. apply publish_seq_wraps.
Qed.

(** ** [roce_add_gid] *)

Lemma table_of_logged d evs port : table_of (logged d evs) port = table_of d port.
Proof. reflexivity. Qed.

Lemma logged_logged d evs evs' :
  logged (logged d evs) evs' = logged d (evs ++ evs').
Proof. unfold logged. simpl. by rewrite app_assoc. Qed.

Lemma updated_logged d evs port c h evs' :
  updated (logged d evs) port c h evs' = updated d port c h (evs ++ evs').
Proof. unfold updated, logged. simpl. by rewrite app_assoc. Qed.

Lemma logged_updated d evs port c h evs' :
  logged (updated d port c h evs) evs' = updated d port c h (evs ++ evs').
Proof. unfold updated, logged. simpl. by rewrite app_assoc. Qed.

Lemma qualifies_type_msk e g a :
  slot_qualifies (quiescent e) g a roce_gid_type_msk <-> same_gid_and_type g a e.
Proof.
  unfold slot_qualifies, same_gid_and_type, quiescent. simpl.
  rewrite Z.land_m1_r. intuition lia.
Qed.

Lemma free_quiescent e : slot_is_free (quiescent e) zgid <-> empty_slot e.
Proof. unfold slot_is_free, empty_slot, quiescent. tauto. Qed.

Lemma bind_run {A B} (m : M A) (k : A -> M B) d a d' :
  m d = Some (a, d') -> bind m k d = k a d'.
Proof. unfold bind. by intros ->. Qed.

Lemma bind_assoc {A B C} (m : M A) (f : A -> M B) (k : B -> M C) d :
  bind (bind m f) k d = bind m (fun x => bind (f x) k) d.
Proof. unfold bind. by destruct (m d) as [[a d']|]. Qed.

Lemma cache_array_is_null_run d port c :
  table_of d port = Some c -> cache_array_is_null d = Some (false, d).
Proof.
  intros (tbl & Ht & _)%table_of_inv. unfold cache_array_is_null.
  rewrite Ht. by rewrite bool_decide_false.
Qed.

Lemma port_cache_run d port c :
  table_of d port = Some c -> port_cache port d = Some (Some c, d).
Proof.
  intros (tbl & Ht & Hp & Hl)%table_of_inv. unfold port_cache.
  by rewrite Ht, Hp, Hl.
Qed.

Lemma emit_run e d : emit e d = Some (tt, logged d [e]).
Proof. reflexivity. Qed.

Lemma find_gid_locked_run d port c g val msk :
  table_of d port = Some c ->
  find_gid_locked port g val msk d =
    lift (find_gid (quiescent <$> data_vec c) g val msk) d.
Proof.
  intros Hc. unfold find_gid_locked.
  erewrite bind_run by by apply port_cache_run. reflexivity.
Qed.

Lemma add_gid_steps d port c g a :
  table_of d port = Some c ->
  active c = true ->
  roce_add_gid port g a d =
    match list_find (fun s => slot_qualifies s g a roce_gid_type_msk)
            (quiescent <$> data_vec c) with
    | Some _ => Some (0, logged d [EvMutexLock port; EvMutexUnlock port])
    | None =>
        match list_find (fun s => slot_is_free s zgid) (quiescent <$> data_vec c) with
        | None => Some (- ENOSPC, logged d [EvMutexLock port; EvMutexUnlock port])
        | Some (i, _) =>
            match write_gid port (Z.of_nat i) g a (logged d [EvMutexLock port]) with
            | Some (_, d') => Some (0, logged d' [EvMutexUnlock port])
            | None => None
            end
        end
    end.
Proof.
  intros Hc Hact.
  unfold roce_add_gid.
  erewrite bind_run by by eapply cache_array_is_null_run. cbv beta iota.
  erewrite bind_run by by eapply port_cache_run. cbv beta iota.
  erewrite bind_run by reflexivity. cbv beta iota. rewrite Hact. cbn [negb].
  unfold mutex_lock, mutex_unlock.
  erewrite bind_run by apply emit_run. cbv beta iota.
  unfold bind at 1. erewrite find_gid_locked_run by exact Hc.
  unfold find_gid.
  rewrite (find_gid_from_list_find (fun s => slot_qualifies s g a roce_gid_type_msk))
    by (intros; apply find_gid_slot_val).
  cbn [lift ret].
  destruct (list_find _ _) as [[i s]|] eqn:Hf.
  { assert ((0 <=? 0 + Z.of_nat i) = true) as -> by (apply Z.leb_le; lia).
    erewrite bind_run by apply emit_run. unfold ret. by rewrite logged_logged. }
  cbn [Z.leb Z.compare Z.opp].
  unfold bind at 1. erewrite find_gid_locked_run by exact Hc.
  unfold find_gid.
  rewrite (find_gid_from_list_find (fun s => slot_is_free s zgid))
    by (intros; apply find_gid_slot_null).
  cbn [lift ret].
  destruct (list_find (fun s => slot_is_free s zgid) _) as [[i s]|] eqn:Hf2.
  - assert ((0 + Z.of_nat i <? 0) = false) as -> by (apply Z.ltb_ge; lia).
    unfold bind at 1. rewrite Z.add_0_l.
    destruct (write_gid _ _ _ _ _) as [[r d']|]; [|done].
    by erewrite bind_run by apply emit_run.
  - cbn [Z.ltb Z.compare].
    erewrite bind_run by apply emit_run. unfold ret. by rewrite logged_logged.
Qed.

Lemma list_find_quiescent (P : slot_obs -> Prop) `{!forall s, Decision (P s)}
    (vec : list gid_cache_entry) :
  match list_find P (quiescent <$> vec) with
  | Some (i, s) =>
      exists e, s = quiescent e /\ vec !! i = Some e /\ P (quiescent e)
                /\ forall j e', vec !! j = Some e' -> (j < i)%nat ->
                                ~ P (quiescent e')
  | None => forall j e', vec !! j = Some e' -> ~ P (quiescent e')
  end.
Proof.
  destruct (list_find P (quiescent <$> vec)) as [[i s]|] eqn:Hf.
  - apply list_find_Some in Hf as (Hi & HP & Hleast).
    rewrite list_lookup_fmap in Hi.
    destruct (vec !! i) as [e|] eqn:He; simplify_eq/=.
    exists e. split_and!; [done..|].
    intros j e' Hj Hlt. eapply Hleast; [|done].
    by rewrite list_lookup_fmap, Hj.
  - rewrite list_find_None, Forall_lookup in Hf.
    intros j e' Hj. eapply (Hf j). by rewrite list_lookup_fmap, Hj.
Qed.

(** With no slot holding the GID under its type, [roce_add_gid] runs
    [write_gid] on the lowest-index empty slot. *)
Lemma add_gid_writes_lowest_empty d port c g a i e :
  table_of d port = Some c ->
  active c = true ->
  (forall j e', data_vec c !! j = Some e' -> ~ same_gid_and_type g a e') ->
  data_vec c !! i = Some e ->
  empty_slot e ->
  (forall j e', data_vec c !! j = Some e' -> (j < i)%nat -> ~ empty_slot e') ->
  exists r ctx h',
    modify_gid (hw d) port (Z.of_nat i) g a (context e) = (r, ctx, h')
    /\ roce_add_gid port g a d =
         Some (0, updated d port
                    (set_slot c (Z.of_nat i) (written_entry e g a r ctx)) h'
                    ([EvMutexLock port]
                     ++ write_events e port (Z.of_nat i) g a r
                     ++ [EvMutexUnlock port])).
Proof.
  intros Hc Hact Hnone Hi He Hleast. rewrite (add_gid_steps d port c g a Hc Hact).
  pose proof (list_find_quiescent
                (fun s => slot_qualifies s g a roce_gid_type_msk) (data_vec c)) as Hq.
  pose proof (list_find_quiescent (fun s => slot_is_free s zgid) (data_vec c)) as Hz.
  destruct (list_find (fun s => slot_qualifies _ _ _ _) _) as [[i' s]|].
  { destruct Hq as (e' & _ & Hi' & He'%qualifies_type_msk & _).
    by destruct (Hnone i' e'). }
  destruct (list_find (fun s => slot_is_free _ _) _) as [[i' s]|].
  - destruct Hz as (e' & _ & Hi' & He'%free_quiescent & Hleast').
    assert (i' = i).
    { destruct (Nat.lt_trichotomy i' i) as [Hlt|[Heq|Hgt]]; [|done|].
      - by destruct (Hleast i' e').
      - destruct (Hleast' i e Hi Hgt). by apply free_quiescent. }
    subst i'. assert (e' = e) by congruence. subst e'.
    destruct (modify_gid (hw d) port (Z.of_nat i) g a (context e))
      as [[r ctx] h'] eqn:Hm.
    exists r, ctx, h'. split; [done|].
    erewrite write_gid_run; [| |lia| |]; cycle 1.
    { by rewrite table_of_logged. }
    { by rewrite Nat2Z.id. }
    { exact Hm. }
    by rewrite updated_logged, logged_updated.
  - destruct (Hz i e Hi). by apply free_quiescent.
Qed.

(** C4: on an active table, [roce_add_gid]
    - returns 0 and changes no table when some slot already holds the
      GID with the same GID type;
    - otherwise fails with [-ENOSPC] and changes no table when no slot
      is empty;
    - otherwise runs [write_gid] on the lowest-index empty slot, inside
      the mutex of the table, and returns 0. *)
Theorem roce_add_gid_cases d port c g a :
  table_of d port = Some c ->
  active c = true ->
  ((exists i e, data_vec c !! i = Some e /\ same_gid_and_type g a e) ->
   roce_add_gid port g a d =
     Some (0, logged d [EvMutexLock port; EvMutexUnlock port]))
  /\ ((forall i e, data_vec c !! i = Some e -> ~ same_gid_and_type g a e) ->
      (forall i e, data_vec c !! i = Some e -> ~ empty_slot e) ->
      roce_add_gid port g a d =
        Some (- ENOSPC, logged d [EvMutexLock port; EvMutexUnlock port]))
  /\ (forall i e,
        (forall j e', data_vec c !! j = Some e' -> ~ same_gid_and_type g a e') ->
        data_vec c !! i = Some e ->
        empty_slot e ->
        (forall j e', data_vec c !! j = Some e' -> (j < i)%nat -> ~ empty_slot e') ->
        exists r ctx h',
          modify_gid (hw d) port (Z.of_nat i) g a (context e) = (r, ctx, h')
          /\ roce_add_gid port g a d =
               Some (0, updated d port
                          (set_slot c (Z.of_nat i) (written_entry e g a r ctx)) h'
                          ([EvMutexLock port]
                           ++ write_events e port (Z.of_nat i) g a r
                           ++ [EvMutexUnlock port]))).
Proof.
  intros Hc Hact. rewrite (add_gid_steps d port c g a Hc Hact).
  pose proof (list_find_quiescent
                (fun s => slot_qualifies s g a roce_gid_type_msk) (data_vec c)) as Hq.
  pose proof (list_find_quiescent (fun s => slot_is_free s zgid) (data_vec c)) as Hz.
  split_and!.
  - intros (i & e & Hi & He).
    destruct (list_find _ _) as [[i' s]|]; [done|].
    exfalso. eapply Hq; [done|]. by apply qualifies_type_msk.
  - intros Hnone Hfull.
    destruct (list_find (fun s => slot_qualifies _ _ _ _) _) as [[i' s]|].
    { destruct Hq as (e & _ & Hi & He%qualifies_type_msk & _). by destruct (Hnone i' e). }
    destruct (list_find (fun s => slot_is_free _ _) _) as [[i' s]|]; [|done].
    destruct Hz as (e & _ & Hi & He%free_quiescent & _). by destruct (Hfull i' e).
  - intros i e Hnone Hi He Hleast.
    clear Hq Hz. rewrite <- (add_gid_steps d port c g a Hc Hact).
    by eapply add_gid_writes_lowest_empty.
Qed.

(** ** A failing [modify_gid] *)

Lemma written_entry_failed e g a r ctx :
  r <> 0 -> written_entry e g a r ctx = emptied e.
Proof. unfold written_entry. intros Hr. by destruct (Z.eqb_spec r 0). Qed.

Lemma write_gid_failed d port ix g a e r ctx h' :
  slot d port ix = Some e ->
  modify_gid (hw d) port ix g a (context e) = (r, ctx, h') ->
  r <> 0 ->
  exists d',
    write_gid port ix g a d = Some (r, d')
    /\ slot d' port ix = Some (emptied e).
Proof.
  intros He Hm Hr.
  destruct (write_gid_defined d port ix g a e He)
    as (c & r' & ctx' & h'' & Hc & Hm' & Hw).
  rewrite Hm in Hm'. simplify_eq. eexists. split; [exact Hw|].
  rewrite written_entry_failed by done.
  unfold slot in He. rewrite Hc in He. simpl in He.
  destruct (ix <? 0) eqn:Hix; [done|].
  eapply slot_updated; [done|lia|]. by eapply lookup_lt_Some.
Qed.

(** C6: when [roce_add_gid] reaches [write_gid] and [modify_gid] fails
    there, [write_gid] stores the zero GID, the zero attributes and a
    NULL context in the slot and reports the failure, and
    [roce_add_gid] still returns 0. *)
Theorem failed_modify_gid_not_escalated d port c g a i e r ctx h' :
  table_of d port = Some c ->
  active c = true ->
  (forall j e', data_vec c !! j = Some e' -> ~ same_gid_and_type g a e') ->
  data_vec c !! i = Some e ->
  empty_slot e ->
  (forall j e', data_vec c !! j = Some e' -> (j < i)%nat -> ~ empty_slot e') ->
  modify_gid (hw d) port (Z.of_nat i) g a (context e) = (r, ctx, h') ->
  r <> 0 ->
  (exists d1,
     write_gid port (Z.of_nat i) g a (logged d [EvMutexLock port]) = Some (r, d1)
     /\ slot d1 port (Z.of_nat i) = Some (emptied e))
  /\ (exists d',
        roce_add_gid port g a d = Some (0, d')
        /\ slot d' port (Z.of_nat i) = Some (emptied e)
        /\ EvGidChange port ∉ drop (length (trace d)) (trace d')).
Proof.
  intros Hc Hact Hnone Hi He Hleast Hm Hr. split.
  - eapply write_gid_failed; [|exact Hm|exact Hr].
    unfold slot. rewrite table_of_logged, Hc. simpl.
    assert ((Z.of_nat i <? 0) = false) as -> by (apply Z.ltb_ge; lia).
    by rewrite Nat2Z.id.
  - destruct (add_gid_writes_lowest_empty d port c g a i e Hc Hact Hnone Hi He Hleast)
      as (r' & ctx' & h'' & Hm' & Hadd).
    rewrite Hm in Hm'. simplify_eq. eexists. split; [exact Hadd|]. split.
    + rewrite written_entry_failed by done.
      eapply slot_updated; [done|lia|]. rewrite Nat2Z.id. by eapply lookup_lt_Some.
    + unfold updated. simpl. rewrite drop_app_length.
      unfold write_events. destruct (Z.eqb_spec r' 0) as [|_]; [done|].
      cbn [ndev zattr Z.eqb negb andb].
      destruct (_ && _); simpl; rewrite ?not_elem_of_cons;
        split_and?; try done; apply not_elem_of_nil.
Qed.

(** ** [roce_del_gid] *)

Lemma qualifies_type_netdev_msk e g a :
  slot_qualifies (quiescent e) g a roce_gid_type_netdev_msk <-> stored_as g a e.
Proof.
  unfold slot_qualifies, stored_as, quiescent. simpl.
  rewrite Z.land_m1_r, Z.land_m1_l. intuition lia.
Qed.

Lemma del_gid_guard g a :
  negb (ndev a =? 0) && (memcmp g (make_default_gid (ndev a)) =? 0)
  = bool_decide (is_default_gid_of g a).
Proof.
  unfold is_default_gid_of. rewrite memcmp_zero.
  destruct (Z.eqb_spec (ndev a) 0); simpl; repeat case_bool_decide;
    try done; tauto.
Qed.

Lemma del_gid_steps d port c g a :
  table_of d port = Some c ->
  active c = true ->
  roce_del_gid port g a d =
    if bool_decide (is_default_gid_of g a) then Some (- EPERM, d)
    else
      match list_find (fun s => slot_qualifies s g a roce_gid_type_netdev_msk)
              (quiescent <$> data_vec c) with
      | None => Some (0, logged d [EvMutexLock port; EvMutexUnlock port])
      | Some (i, _) =>
          match write_gid port (Z.of_nat i) zgid zattr
                  (logged d [EvMutexLock port]) with
          | Some (_, d') => Some (0, logged d' [EvMutexUnlock port])
          | None => None
          end
      end.
Proof.
  intros Hc Hact. unfold roce_del_gid.
  erewrite bind_run by by eapply cache_array_is_null_run. cbv beta iota.
  erewrite bind_run by by eapply port_cache_run. cbv beta iota.
  erewrite bind_run by reflexivity. cbv beta iota. rewrite Hact. cbn [negb].
  rewrite del_gid_guard. case_bool_decide; [done|].
  unfold mutex_lock, mutex_unlock.
  erewrite bind_run by apply emit_run. cbv beta iota.
  unfold bind at 1. erewrite find_gid_locked_run by exact Hc.
  unfold find_gid.
  rewrite (find_gid_from_list_find
             (fun s => slot_qualifies s g a roce_gid_type_netdev_msk))
    by (intros; apply find_gid_slot_val).
  cbn [lift ret].
  destruct (list_find _ _) as [[i s]|] eqn:Hf.
  - assert ((0 + Z.of_nat i <? 0) = false) as -> by (apply Z.ltb_ge; lia).
    unfold bind at 1. rewrite Z.add_0_l.
    destruct (write_gid _ _ _ _ _) as [[r d']|]; [|done].
    by erewrite bind_run by apply emit_run.
  - cbn [Z.ltb Z.compare].
    erewrite bind_run by apply emit_run. unfold ret. by rewrite logged_logged.
Qed.

(** C7: on an active table, [roce_del_gid] of the default GID of the
    device named in the attributes fails with [-EPERM] and changes
    nothing; and the deletion of a GID that no slot stores (under the
    type and device given) returns 0 and changes no table. *)
Theorem roce_del_gid_reserved_or_missing d port c g a :
  table_of d port = Some c ->
  active c = true ->
  (ndev a <> 0 -> g = make_default_gid (ndev a) ->
   roce_del_gid port g a d = Some (- EPERM, d))
  /\ (~ is_default_gid_of g a ->
      (forall i e, data_vec c !! i = Some e -> ~ stored_as g a e) ->
      roce_del_gid port g a d =
        Some (0, logged d [EvMutexLock port; EvMutexUnlock port])
      /\ table_of (logged d [EvMutexLock port; EvMutexUnlock port]) port = Some c)
  /\ (~ is_default_gid_of g a ->
      (forall i e, data_vec c !! i = Some e -> gid e <> g) ->
      roce_del_gid port g a d =
        Some (0, logged d [EvMutexLock port; EvMutexUnlock port])).
Proof.
  intros Hc Hact. rewrite (del_gid_steps d port c g a Hc Hact).
  pose proof (list_find_quiescent
                (fun s => slot_qualifies s g a roce_gid_type_netdev_msk)
                (data_vec c)) as Hq.
  split_and!.
  - intros Hn Hg. by rewrite bool_decide_true.
  - intros Hnd Hnone. rewrite bool_decide_false by done.
    destruct (list_find _ _) as [[i s]|]; [|done].
    destruct Hq as (e & _ & Hi & He%qualifies_type_netdev_msk & _).
    by destruct (Hnone i e).
  - intros Hnd Hnone. rewrite bool_decide_false by done.
    destruct (list_find _ _) as [[i s]|]; [|done].
    destruct Hq as (e & _ & Hi & He%qualifies_type_netdev_msk & _).
    destruct He as (_ & _ & Hg & _). by destruct (Hnone i e).
Qed.

(** ** Inactive tables and devices without a cache *)

Lemma cache_array_is_null_absent d :
  roce_gid_cache d = None -> cache_array_is_null d = Some (true, d).
Proof. intros Hn. unfold cache_array_is_null. by rewrite Hn. Qed.

Lemma add_gid_inactive d port c g a :
  table_of d port = Some c -> active c = false ->
  roce_add_gid port g a d = Some (- ENOSYS, d).
Proof.
  intros Hc Hact. unfold roce_add_gid.
  erewrite bind_run by by eapply cache_array_is_null_run. cbv beta iota.
  erewrite bind_run by by eapply port_cache_run. cbv beta iota.
  erewrite bind_run by reflexivity. cbv beta iota. by rewrite Hact.
Qed.

Lemma del_gid_inactive d port c g a :
  table_of d port = Some c -> active c = false ->
  roce_del_gid port g a d = Some (- ENOSYS, d).
Proof.
  intros Hc Hact. unfold roce_del_gid.
  erewrite bind_run by by eapply cache_array_is_null_run. cbv beta iota.
  erewrite bind_run by by eapply port_cache_run. cbv beta iota.
  erewrite bind_run by reflexivity. cbv beta iota. by rewrite Hact.
Qed.

Lemma del_all_inactive d port c dev :
  table_of d port = Some c -> active c = false ->
  roce_del_all_netdev_gids port dev d = Some (- ENOSYS, d).
Proof.
  intros Hc Hact. unfold roce_del_all_netdev_gids.
  erewrite bind_run by by eapply cache_array_is_null_run. cbv beta iota.
  erewrite bind_run by by eapply port_cache_run. cbv beta iota.
  erewrite bind_run by reflexivity. cbv beta iota. by rewrite Hact.
Qed.

(** C3 (as the code has it): on a table that is not active,
    [roce_add_gid], [roce_del_gid], [roce_del_all_netdev_gids] and
    [roce_gid_cache_get_gid] fail with [-ENOSYS] and change nothing.  On
    a device without a cache, [roce_add_gid] fails with [-ENOSYS],
    [roce_del_gid] and [roce_del_all_netdev_gids] return 0, and
    [roce_gid_cache_get_gid] fails with [-EINVAL]; nothing changes. *)
Theorem inactive_or_absent_cache d port g a dev :
  (forall c, table_of d port = Some c -> active c = false ->
     roce_add_gid port g a d = Some (- ENOSYS, d)
     /\ roce_del_gid port g a d = Some (- ENOSYS, d)
     /\ roce_del_all_netdev_gids port dev d = Some (- ENOSYS, d))
  /\ (forall tbl cv index gid_buf attr_buf,
        1 <= port ->
        tbl !! Z.to_nat (port - 1) = Some (Some cv) ->
        obs_active cv = false ->
        roce_gid_cache_get_gid (Some tbl) port index gid_buf attr_buf
          = Some (- ENOSYS, gid_buf, attr_buf))
  /\ (roce_gid_cache d = None ->
      roce_add_gid port g a d = Some (- ENOSYS, d)
      /\ roce_del_gid port g a d = Some (0, d)
      /\ roce_del_all_netdev_gids port dev d = Some (0, d))
  /\ (forall index gid_buf attr_buf,
        roce_gid_cache_get_gid None port index gid_buf attr_buf
          = Some (- EINVAL, gid_buf, attr_buf)).
Proof.
  split_and!.
  - intros c Hc Hact. split_and!;
      eauto using add_gid_inactive, del_gid_inactive, del_all_inactive.
  - intros tbl cv index gid_buf attr_buf Hp Hl Hact.
    unfold roce_gid_cache_get_gid.
    assert ((port <? 1) = false) as -> by (apply Z.ltb_ge; lia).
    rewrite Hl. simpl. by rewrite Hact.
  - intros Hn. unfold roce_add_gid, roce_del_gid, roce_del_all_netdev_gids.
    by rewrite !(bind_run _ _ _ _ _ (cache_array_is_null_absent d Hn)).
  - done.
Qed.

(** ** [roce_gid_cache_get_gid] *)

(** Whatever the device looks like, a call that returns a non-zero
    status hands both buffers back as they came. *)
Lemma get_gid_failure_buffers dv port index gid_buf attr_buf r gid_out attr_out :
  roce_gid_cache_get_gid dv port index gid_buf attr_buf
    = Some (r, gid_out, attr_out) ->
  r <> 0 ->
  gid_out = gid_buf /\ attr_out = attr_buf.
Proof.
  unfold roce_gid_cache_get_gid. intros Hget Hr.
  destruct dv as [tbl|]; [|by simplify_eq].
  destruct (port <? 1); [done|].
  destruct (tbl !! Z.to_nat (port - 1)) as [[cv|]|]; simpl in Hget; try done.
  destruct (obs_active cv); simpl in Hget; [|by simplify_eq].
  destruct ((index <? 0) || _); [by simplify_eq|].
  destruct (obs_vec cv !! Z.to_nat index) as [s|]; simpl in Hget; [|done].
  destruct ((seq (s LdSeq) =? SEQ_INVALID) || _); by simplify_eq.
Qed.

(** C10: on an active table, [roce_gid_cache_get_gid]
    - fails with [-EINVAL] for an index outside the table,
    - fails with [-EAGAIN] when the first version read is the in-flight
      value or differs from the version read again,
    and in both cases returns the caller's buffers unwritten; it copies
    out the GID and the attributes it read between the two version reads
    only when they agree. *)
Theorem get_gid_outputs tbl cv port index gid_buf attr_buf :
  1 <= port ->
  tbl !! Z.to_nat (port - 1) = Some (Some cv) ->
  obs_active cv = true ->
  (index < 0 \/ Z.of_nat (length (obs_vec cv)) <= index ->
   roce_gid_cache_get_gid (Some tbl) port index gid_buf attr_buf
     = Some (- EINVAL, gid_buf, attr_buf))
  /\ (forall s : slot_obs,
        0 <= index ->
        obs_vec cv !! Z.to_nat index = Some s ->
        (seq (s LdSeq) = SEQ_INVALID \/ seq (s LdSeqAgain) <> seq (s LdSeq) ->
         roce_gid_cache_get_gid (Some tbl) port index gid_buf attr_buf
           = Some (- EAGAIN, gid_buf, attr_buf))
        /\ (seq (s LdSeq) <> SEQ_INVALID ->
            seq (s LdSeqAgain) = seq (s LdSeq) ->
            roce_gid_cache_get_gid (Some tbl) port index gid_buf attr_buf
              = Some (0, gid (s LdGid),
                      (fun _ => attr (s LdAttr)) <$> attr_buf)))
  /\ (forall r gid_out attr_out,
        roce_gid_cache_get_gid (Some tbl) port index gid_buf attr_buf
          = Some (r, gid_out, attr_out) ->
        r <> 0 ->
        gid_out = gid_buf /\ attr_out = attr_buf).
Proof.
  intros Hp Hl Hact.
  assert (Hstart : forall k,
    roce_gid_cache_get_gid (Some tbl) port index gid_buf attr_buf = k <->
    (if (index <? 0) || (Z.of_nat (length (obs_vec cv)) <=? index)
     then Some (- EINVAL, gid_buf, attr_buf)
     else
       s ← (obs_vec cv !! Z.to_nat index : option slot_obs);
       if (seq (s LdSeq) =? SEQ_INVALID)
          || negb (seq (s LdSeq) =? seq (s LdSeqAgain))
       then Some (- EAGAIN, gid_buf, attr_buf)
       else Some (0, gid (s LdGid),
                  match attr_buf with
                  | Some _ => Some (attr (s LdAttr))
                  | None => None
                  end)) = k).
  { intros k. unfold roce_gid_cache_get_gid.
    assert ((port <? 1) = false) as -> by (apply Z.ltb_ge; lia).
    rewrite Hl. simpl. by rewrite Hact. }
  split_and!.
  - intros Hout. apply Hstart.
    destruct (Z.ltb_spec index 0); [done|].
    destruct (Z.leb_spec (Z.of_nat (length (obs_vec cv))) index); [done|lia].
  - intros s Hix Hs.
    assert ((index <? 0) || (Z.of_nat (length (obs_vec cv)) <=? index) = false)
      as Hin.
    { apply lookup_lt_Some in Hs.
      destruct (Z.ltb_spec index 0); [lia|].
      destruct (Z.leb_spec (Z.of_nat (length (obs_vec cv))) index); [lia|done]. }
    split.
    + intros Hbad. apply Hstart. rewrite Hin, Hs. simpl.
      destruct (Z.eqb_spec (seq (s LdSeq)) SEQ_INVALID); [done|].
      destruct (Z.eqb_spec (seq (s LdSeq)) (seq (s LdSeqAgain))); [|done].
      destruct Hbad; congruence.
    + intros Hok Hsame. apply Hstart. rewrite Hin, Hs. simpl.
      destruct (Z.eqb_spec (seq (s LdSeq)) SEQ_INVALID); [done|].
      destruct (Z.eqb_spec (seq (s LdSeq)) (seq (s LdSeqAgain))); [|congruence].
      simpl. by destruct attr_buf.
  - intros r gid_out attr_out. apply get_gid_failure_buffers.
Qed.

(** ** [roce_gid_cache_set_default_gid] *)

Lemma type_not_in_mask_testbit i gid_type_mask :
  0 <= i < 64 ->
  type_not_in_mask i gid_type_mask = negb (Z.testbit gid_type_mask i).
Proof.
  intros Hi. unfold type_not_in_mask, ulong, ULONG_MODULUS.
  rewrite Z.shiftl_1_l.
  rewrite (Z.mod_small (2 ^ i)) by (split; [lia|apply Z.pow_lt_mono_r; lia]).
  destruct (Z.testbit gid_type_mask i) eqn:Hb; simpl.
  - replace (Z.land (2 ^ i) (Z.lnot gid_type_mask mod 2 ^ 64)) with 0; [done|].
    symmetry. apply Z.bits_inj'. intros n Hn.
    rewrite Z.land_spec, Z.bits_0, Z.pow2_bits_eqb by lia.
    destruct (Z.eqb_spec i n) as [<-|]; [|done]. simpl.
    rewrite Z.mod_pow2_bits_low, Z.lnot_spec, Hb by lia. done.
  - destruct (Z.eqb_spec (Z.land (2 ^ i) (Z.lnot gid_type_mask mod 2 ^ 64)) 0)
      as [Hz|]; [|done].
    apply (f_equal (fun z => Z.testbit z i)) in Hz.
    rewrite Z.land_spec, Z.bits_0, Z.pow2_bits_eqb, Z.eqb_refl in Hz by lia.
    rewrite Z.mod_pow2_bits_low, Z.lnot_spec, Hb in Hz by lia. done.
Qed.

Lemma set_default_loop_by_type port dev g gid_type_mask types success d :
  Forall (fun i => 0 <= i < 64) types ->
  set_default_loop port dev g gid_type_mask types success d =
    (for_each_type port dev g
       (filter (fun i => Z.testbit gid_type_mask i = true) types) success ;;;
     ret tt) d.
Proof.
  intros Hty. revert success d.
  induction Hty as [|i types Hi Hty IH]; intros success d; [done|].
  simpl. rewrite type_not_in_mask_testbit by done.
  rewrite filter_cons.
  destruct (Z.testbit gid_type_mask i) eqn:Hb; simpl.
  - rewrite ?decide_True by done. simpl.
    unfold replace_default, bind.
    destruct (write_gid port success zgid zattr d) as [[r d1]|]; [|done].
    destruct (Z.eqb_spec r 0); simpl; [|apply IH].
    destruct (write_gid port success g _ d1) as [[r2 d2]|]; [|done].
    unfold ret. destruct (Z.eqb_spec r2 0); simpl; apply IH.
  - rewrite ?decide_False by done. apply IH.
Qed.

Lemma indices_range n : Forall (fun i => 0 <= i < Z.of_nat n) (indices n).
Proof.
  unfold indices. apply Forall_forall. intros i Hi%elem_of_seqZ. lia.
Qed.

Lemma count_delete_writes_app evs1 evs2 :
  count_delete_writes (evs1 ++ evs2)
  = (count_delete_writes evs1 + count_delete_writes evs2)%nat.
Proof. unfold count_delete_writes. by rewrite filter_app, length_app. Qed.

Lemma count_delete_writes_write_events e port ix g a r :
  count_delete_writes (write_events e port ix g a r)
  = if decide (g = zgid) then 1%nat else 0%nat.
Proof.
  unfold write_events, count_delete_writes.
  change ([EvWriteGid port ix g a] ++ ?l) with (EvWriteGid port ix g a :: l).
  rewrite filter_cons.
  assert (Hrest : forall l, Forall (fun e => ~ is_delete_write e) l ->
                            filter is_delete_write l = []).
  { intros l Hl. induction Hl as [|x l Hx Hl IH]; [done|].
    by rewrite filter_cons, decide_False. }
  rewrite Hrest.
  - destruct (decide (is_delete_write _)) as [H|H]; simpl in H;
      destruct (decide (g = zgid)); done.
  - rewrite !Forall_app. split_and!; repeat case_match; repeat constructor; auto.
Qed.

Lemma make_default_gid_not_zero dev : make_default_gid dev <> zgid.
Proof. unfold make_default_gid, zgid. simpl. discriminate. Qed.

(** One [write_gid] on an existing slot: defined, the table keeps its
    length, and the trace grows by the events of that write. *)
Lemma write_gid_step d port ix g a c :
  table_of d port = Some c ->
  0 <= ix < Z.of_nat (length (data_vec c)) ->
  exists r d' c' evs,
    write_gid port ix g a d = Some (r, d')
    /\ table_of d' port = Some c'
    /\ length (data_vec c') = length (data_vec c)
    /\ trace d' = trace d ++ evs
    /\ count_delete_writes evs = if decide (g = zgid) then 1%nat else 0%nat.
Proof.
  intros Hc Hix.
  destruct (lookup_lt_is_Some_2 (data_vec c) (Z.to_nat ix)) as [e He]; [lia|].
  destruct (modify_gid (hw d) port ix g a (context e)) as [[r ctx] h'] eqn:Hm.
  eexists r, _, _, _. split; [eapply write_gid_run; eauto; lia|].
  split; [by eapply table_of_updated|].
  split; [by (unfold set_slot; simpl; rewrite length_insert)|].
  split; [reflexivity|]. apply count_delete_writes_write_events.
Qed.

Lemma for_each_type_defined port dev g types : forall success d c,
  g <> zgid ->
  table_of d port = Some c ->
  0 <= success ->
  success + Z.of_nat (length types) <= Z.of_nat (length (data_vec c)) ->
  exists success' d' c' evs,
    for_each_type port dev g types success d = Some (success', d')
    /\ table_of d' port = Some c'
    /\ length (data_vec c') = length (data_vec c)
    /\ success <= success' <= success + Z.of_nat (length types)
    /\ trace d' = trace d ++ evs
    /\ count_delete_writes evs = length types.
Proof.
  induction types as [|type types IH]; intros success d c Hg Hc Hs Hlen.
  { exists success, d, c, []. simpl. rewrite app_nil_r.
    split_and!; try done; lia. }
  simpl in Hlen. simpl. unfold replace_default.
  destruct (write_gid_step d port success zgid zattr c Hc)
    as (r1 & d1 & c1 & evs1 & Hw1 & Hc1 & Hl1 & Ht1 & Hn1); [lia|].
  rewrite decide_True in Hn1 by done.
  rewrite bind_assoc, (bind_run _ _ _ _ _ Hw1).
  destruct (Z.eqb_spec r1 0) as [Hr1|Hr1].
  - destruct (write_gid_step d1 port success g
                {| gid_type := type; ndev := dev |} c1 Hc1)
      as (r2 & d2 & c2 & evs2 & Hw2 & Hc2 & Hl2 & Ht2 & Hn2); [lia|].
    rewrite decide_False in Hn2 by done.
    rewrite bind_assoc, (bind_run _ _ _ _ _ Hw2).
    erewrite bind_run by reflexivity.
    destruct (IH (if r2 =? 0 then success + 1 else success) d2 c2)
      as (s' & d' & c' & evs & Hrun & Hc' & Hl' & Hs' & Ht' & Hn');
      [done|done|destruct (r2 =? 0); lia|destruct (r2 =? 0); lia|].
    exists s', d', c', (evs1 ++ evs2 ++ evs). split; [exact Hrun|].
    split; [done|]. split; [congruence|].
    split; [destruct (r2 =? 0); lia|].
    split; [by rewrite Ht', Ht2, Ht1, <- !app_assoc|].
    rewrite !count_delete_writes_app. lia.
  - erewrite bind_run by reflexivity.
    destruct (IH success d1 c1)
      as (s' & d' & c' & evs & Hrun & Hc' & Hl' & Hs' & Ht' & Hn');
      [done|done|lia|lia|].
    exists s', d', c', (evs1 ++ evs). split; [exact Hrun|].
    split; [done|]. split; [congruence|]. split; [lia|].
    split; [by rewrite Ht', Ht1, <- !app_assoc|].
    rewrite !count_delete_writes_app. lia.
Qed.

Lemma length_types_in_mask gid_type_mask :
  (length (types_in_mask gid_type_mask) <= IB_GID_TYPE_SIZE)%nat.
Proof.
  unfold types_in_mask, indices.
  etrans; [apply length_filter|]. rewrite length_seqZ. lia.
Qed.


(** ** The mutex of the table *)

Lemma write_events_of_port e port ix g a r :
  Forall (write_event_of port) (write_events e port ix g a r).
Proof.
  unfold write_events. rewrite !Forall_app.
  split_and!; repeat case_match; repeat constructor; done.
Qed.

Lemma write_gid_step_events d port ix g a c :
  table_of d port = Some c ->
  0 <= ix < Z.of_nat (length (data_vec c)) ->
  exists r d' c' evs,
    write_gid port ix g a d = Some (r, d')
    /\ table_of d' port = Some c'
    /\ length (data_vec c') = length (data_vec c)
    /\ trace d' = trace d ++ evs
    /\ Forall (write_event_of port) evs.
Proof.
  intros Hc Hix.
  destruct (lookup_lt_is_Some_2 (data_vec c) (Z.to_nat ix)) as [e He]; [lia|].
  destruct (modify_gid (hw d) port ix g a (context e)) as [[r ctx] h'] eqn:Hm.
  eexists r, _, _, _. split; [eapply write_gid_run; eauto; lia|].
  split; [by eapply table_of_updated|].
  split; [by (unfold set_slot; simpl; rewrite length_insert)|].
  split; [reflexivity|]. apply write_events_of_port.
Qed.

Lemma list_find_quiescent_lt (P : slot_obs -> Prop) `{!forall s, Decision (P s)}
    (vec : list gid_cache_entry) i s :
  list_find P (quiescent <$> vec) = Some (i, s) -> (i < length vec)%nat.
Proof.
  intros (Hi & _)%list_find_Some. apply lookup_lt_Some in Hi.
  by rewrite length_fmap in Hi.
Qed.

(** [roce_add_gid] writes only between taking and releasing the mutex
    of the table. *)
Lemma roce_add_gid_locks d port c g a :
  table_of d port = Some c ->
  exists r d' evs,
    roce_add_gid port g a d = Some (r, d')
    /\ trace d' = trace d ++ evs
    /\ writes_under_lock [] evs = true.
Proof.
  intros Hc. destruct (active c) eqn:Hact; cycle 1.
  { exists (- ENOSYS), d, []. rewrite app_nil_r.
    split; [by eapply add_gid_inactive|done]. }
  rewrite (add_gid_steps d port c g a Hc Hact).
  destruct (list_find _ _) as [[i s]|] eqn:Hf; [by eexists _, _, _|].
  destruct (list_find (fun s => slot_is_free _ _) _) as [[i s]|] eqn:Hf2;
    [|by eexists _, _, _].
  apply list_find_quiescent_lt in Hf2.
  destruct (write_gid_step_events (logged d [EvMutexLock port]) port
              (Z.of_nat i) g a c)
    as (r & d1 & c1 & evs & Hw & _ & _ & Ht & Hevs); [done|lia|].
  rewrite Hw. eexists 0, _, ([EvMutexLock port] ++ evs ++ [EvMutexUnlock port]).
  split; [done|]. split.
  - simpl. rewrite Ht. simpl. by rewrite <- !app_assoc.
  - by apply writes_under_lock_bracket.
Qed.

(** So does [roce_del_gid]. *)
Lemma roce_del_gid_locks d port c g a :
  table_of d port = Some c ->
  exists r d' evs,
    roce_del_gid port g a d = Some (r, d')
    /\ trace d' = trace d ++ evs
    /\ writes_under_lock [] evs = true.
Proof.
  intros Hc. destruct (active c) eqn:Hact; cycle 1.
  { exists (- ENOSYS), d, []. rewrite app_nil_r.
    split; [by eapply del_gid_inactive|done]. }
  rewrite (del_gid_steps d port c g a Hc Hact).
  case_bool_decide.
  { exists (- EPERM), d, []. by rewrite app_nil_r. }
  destruct (list_find _ _) as [[i s]|] eqn:Hf; [|by eexists _, _, _].
  apply list_find_quiescent_lt in Hf.
  destruct (write_gid_step_events (logged d [EvMutexLock port]) port
              (Z.of_nat i) zgid zattr c)
    as (r & d1 & c1 & evs & Hw & _ & _ & Ht & Hevs); [done|lia|].
  rewrite Hw. eexists 0, _, ([EvMutexLock port] ++ evs ++ [EvMutexUnlock port]).
  split; [done|]. split.
  - simpl. rewrite Ht. simpl. by rewrite <- !app_assoc.
  - by apply writes_under_lock_bracket.
Qed.

Lemma load_entry_run d port c ix e :
  table_of d port = Some c ->
  0 <= ix ->
  data_vec c !! Z.to_nat ix = Some e ->
  load_entry port ix d = Some (e, d).
Proof.
  intros Hc Hix He. unfold load_entry.
  erewrite bind_run by by eapply port_cache_run. cbv beta iota.
  erewrite bind_run by reflexivity. cbv beta iota.
  assert ((ix <? 0) = false) as -> by (apply Z.ltb_ge; lia).
  by rewrite He.
Qed.

Lemma del_all_loop_events port dev ixs : forall d c,
  table_of d port = Some c ->
  Forall (fun ix => 0 <= ix < Z.of_nat (length (data_vec c))) ixs ->
  exists d' c' evs,
    del_all_loop port dev ixs d = Some (tt, d')
    /\ table_of d' port = Some c'
    /\ length (data_vec c') = length (data_vec c)
    /\ trace d' = trace d ++ evs
    /\ Forall (write_event_of port) evs.
Proof.
  induction ixs as [|ix ixs IH]; intros d c Hc Hixs.
  { exists d, c, []. by rewrite app_nil_r. }
  apply Forall_cons in Hixs as [Hix Hixs]. simpl.
  destruct (lookup_lt_is_Some_2 (data_vec c) (Z.to_nat ix)) as [e He]; [lia|].
  erewrite bind_run by (eapply load_entry_run; eauto; lia). cbv beta iota.
  destruct (ndev (attr e) =? dev).
  - destruct (write_gid_step_events d port ix zgid zattr c Hc Hix)
      as (r & d1 & c1 & evs1 & Hw & Hc1 & Hl1 & Ht1 & Hevs1).
    rewrite bind_assoc, (bind_run _ _ _ _ _ Hw).
    erewrite bind_run by reflexivity.
    destruct (IH d1 c1 Hc1) as (d' & c' & evs & Hrun & Hc' & Hl' & Ht' & Hevs).
    { by rewrite Hl1. }
    exists d', c', (evs1 ++ evs). split; [done|]. split; [done|].
    split; [congruence|]. split; [by rewrite Ht', Ht1, <- app_assoc|].
    by apply Forall_app.
  - erewrite bind_run by reflexivity. by apply IH.
Qed.

(** And so does [roce_del_all_netdev_gids], across the whole scan. *)
Lemma roce_del_all_netdev_gids_locks d port c dev :
  table_of d port = Some c ->
  exists r d' evs,
    roce_del_all_netdev_gids port dev d = Some (r, d')
    /\ trace d' = trace d ++ evs
    /\ writes_under_lock [] evs = true.
Proof.
  intros Hc. destruct (active c) eqn:Hact.
  2:{ exists (- ENOSYS), d, []. rewrite app_nil_r.
      split; [by eapply del_all_inactive|done]. }
  unfold roce_del_all_netdev_gids.
  erewrite bind_run by by eapply cache_array_is_null_run. cbv beta iota.
  erewrite bind_run by by eapply port_cache_run. cbv beta iota.
  erewrite bind_run by reflexivity. cbv beta iota. rewrite Hact. cbn [negb].
  unfold mutex_lock, mutex_unlock.
  erewrite bind_run by apply emit_run. cbv beta iota.
  destruct (del_all_loop_events port dev (indices (length (data_vec c)))
              (logged d [EvMutexLock port]) c)
    as (d1 & c1 & evs & Hrun & _ & _ & Ht & Hevs); [done|apply indices_range|].
  rewrite (bind_run _ _ _ _ _ Hrun).
  erewrite bind_run by apply emit_run.
  eexists 0, _, ([EvMutexLock port] ++ evs ++ [EvMutexUnlock port]).
  split; [done|]. split.
  - simpl. rewrite Ht. simpl. by rewrite <- !app_assoc.
  - by apply writes_under_lock_bracket.
Qed.

(** ** Further properties of [write_gid] *)

Lemma publish_seq_range v : 0 <= publish_seq v < UINT_MODULUS.
Proof. unfold publish_seq, uint. apply Z.mod_pos_bound. reflexivity. Qed.

Lemma publish_seq_not_zero v : publish_seq v <> 0.
Proof.
  unfold publish_seq, uint, SEQ_INVALID. rewrite UINT_MODULUS_value.
  pose proof (Z.mod_pos_bound (v + 1) 4294967296 eq_refl) as Hb.
  destruct (Z.eqb_spec ((v + 1) mod 4294967296) (4294967296 - 1)); [done|].
  rewrite Z.mod_small by lia. lia.
Qed.

Lemma publish_seq_changes v : 0 <= v < UINT_MODULUS -> publish_seq v <> v.
Proof.
  rewrite UINT_MODULUS_value. intros Hv.
  assert (v < SEQ_INVALID - 2 \/ v = SEQ_INVALID - 2 \/ v = SEQ_INVALID - 1
          \/ v = SEQ_INVALID) as [Hlow | [ -> | [ -> | -> ] ] ]
    by (unfold SEQ_INVALID; rewrite UINT_MODULUS_value; lia).
  - rewrite publish_seq_below by lia. lia.
  - vm_compute. discriminate.
  - vm_compute. discriminate.
  - vm_compute. discriminate.
Qed.

(** X1: a [write_gid] on a slot whose version is an [unsigned int]
    leaves a version that differs from the one before, is again an
    [unsigned int], and is never 0: only a slot never written carries
    version 0. *)
Theorem write_gid_changes_version d port ix g a e :
  slot d port ix = Some e ->
  0 <= seq e < UINT_MODULUS ->
  exists r d' e',
    write_gid port ix g a d = Some (r, d')
    /\ slot d' port ix = Some e'
    /\ seq e' <> seq e
    /\ seq e' <> 0
    /\ 0 <= seq e' < UINT_MODULUS.
Proof.
  intros He Hv.
  destruct (write_gid_defined d port ix g a e He)
    as (c & r & ctx & h' & Hc & Hm & Hw).
  eexists r, _, (written_entry e g a r ctx). split; [exact Hw|].
  unfold slot in He. rewrite Hc in He. simpl in He.
  destruct (ix <? 0) eqn:Hix; [done|].
  split; [eapply slot_updated; [done|lia|by eapply lookup_lt_Some]|].
  rewrite seq_written_entry.
  auto using publish_seq_changes, publish_seq_not_zero, publish_seq_range.
Qed.

Lemma slot_updated_ne d port ix j c e' h evs :
  table_of d port = Some c ->
  j <> ix ->
  0 <= ix ->
  slot (updated d port (set_slot c ix e') h evs) port j = slot d port j.
Proof.
  intros Hc Hne Hix. unfold slot.
  erewrite table_of_updated by done. rewrite Hc. simpl.
  destruct (Z.ltb_spec j 0); [done|].
  apply list_lookup_insert_ne. lia.
Qed.

Lemma table_of_updated_other d port port' c c' h evs :
  table_of d port = Some c ->
  port' <> port ->
  table_of (updated d port c' h evs) port' = table_of d port'.
Proof.
  intros (tbl & Ht & Hp & _)%table_of_inv Hne. unfold table_of, updated. simpl.
  rewrite Ht. simpl.
  destruct (Z.ltb_spec port' 1); [done|].
  destruct (Z.ltb_spec port 1); [done|].
  rewrite list_lookup_insert_ne; [done|]. lia.
Qed.

(** X2: [write_gid] touches one slot.  Every other slot of the table,
    the [active] flag and the size of the table, and the table of
    every other port are after the write what they were before. *)
Theorem write_gid_frame d port ix g a e :
  slot d port ix = Some e ->
  exists r d' c c',
    write_gid port ix g a d = Some (r, d')
    /\ table_of d port = Some c
    /\ table_of d' port = Some c'
    /\ active c' = active c
    /\ length (data_vec c') = length (data_vec c)
    /\ (forall j, j <> ix -> slot d' port j = slot d port j)
    /\ (forall port', port' <> port -> table_of d' port' = table_of d port').
Proof.
  intros He.
  destruct (write_gid_defined d port ix g a e He)
    as (c & r & ctx & h' & Hc & Hm & Hw).
  unfold slot in He. rewrite Hc in He. simpl in He.
  destruct (Z.ltb_spec ix 0); [done|].
  eexists r, _, c, _. split; [exact Hw|]. split; [done|].
  split; [by eapply table_of_updated|].
  split; [done|]. split; [by (simpl; rewrite length_insert)|].
  split.
  - intros j Hj. by apply slot_updated_ne.
  - intros port' Hp. by eapply table_of_updated_other.
Qed.

Lemma new_events_updated d port c h evs :
  new_events d (updated d port c h evs) = evs.
Proof. unfold new_events, updated. simpl. apply drop_app_length. Qed.

Lemma new_events_logged d evs : new_events d (logged d evs) = evs.
Proof. unfold new_events, logged. simpl. apply drop_app_length. Qed.

Lemma ref_delta_write_events dev e port ix g a r :
  dev <> 0 ->
  ref_delta dev (write_events e port ix g a r) =
    (if negb (ndev (if r =? 0 then a else zattr) =? 0)
        && negb (ndev (if r =? 0 then a else zattr) =? ndev (attr e))
     then if ndev (if r =? 0 then a else zattr) =? dev then 1 else 0 else 0)
    - (if negb (ndev (attr e) =? 0) && negb (ndev (attr e) =? ndev a)
       then if ndev (attr e) =? dev then 1 else 0 else 0).
Proof.
  intros Hdev. unfold write_events. simpl.
  destruct (negb (ndev (attr e) =? 0) && negb (ndev (attr e) =? ndev a));
    destruct (negb (ndev (if r =? 0 then a else zattr) =? 0)
              && negb (ndev (if r =? 0 then a else zattr) =? ndev (attr e)));
    destruct (r =? 0); simpl; lia.
Qed.

(** X3: [write_gid] and the device references.  For a device [dev],
    when [modify_gid] succeeds, or when the slot does not already name
    the device the caller asks for, the references taken minus the
    references dropped on [dev] equal the change in whether the slot
    names [dev].  When [modify_gid] fails on a slot that already names
    the device asked for, the slot stops naming it while the
    references taken and dropped balance: the reference the slot stood
    for is not given back. *)
Theorem write_gid_device_references d port ix g a e r ctx h' dev :
  slot d port ix = Some e ->
  dev <> 0 ->
  modify_gid (hw d) port ix g a (context e) = (r, ctx, h') ->
  exists d' e',
    write_gid port ix g a d = Some (r, d')
    /\ slot d' port ix = Some e'
    /\ (r = 0 \/ ndev (attr e) <> ndev a ->
        ref_delta dev (new_events d d') = names_dev dev e' - names_dev dev e)
    /\ (r <> 0 -> ndev (attr e) = ndev a -> ndev a = dev ->
        names_dev dev e = 1 /\ names_dev dev e' = 0
        /\ ref_delta dev (new_events d d') = 0).
Proof.
  intros He Hdev Hm.
  destruct (write_gid_defined d port ix g a e He)
    as (c & r' & ctx' & h'' & Hc & Hm' & Hw).
  rewrite Hm in Hm'. simplify_eq.
  eexists _, (written_entry e g a r' ctx'). split; [exact Hw|].
  unfold slot in He. rewrite Hc in He. simpl in He.
  destruct (Z.ltb_spec ix 0); [done|].
  split; [eapply slot_updated; [done|lia|by eapply lookup_lt_Some]|].
  rewrite new_events_updated, ref_delta_write_events by done.
  unfold names_dev, written_entry. split.
  - intros Hok.
    destruct (Z.eqb_spec r' 0); simpl;
      repeat match goal with
             | |- context [?x =? ?y] => destruct (Z.eqb_spec x y); simpl
             end; try lia; try (destruct Hok; congruence);
      destruct dev; simpl; lia.
  - intros Hr Hsame Hd.
    destruct (Z.eqb_spec r' 0); [done|]. simpl.
    repeat match goal with
           | |- context [?x =? ?y] => destruct (Z.eqb_spec x y); simpl
           end; try lia; try congruence; destruct dev; simpl; lia.
Qed.

(** X4: [roce_add_gid], [roce_del_gid] and [roce_del_all_netdev_gids]
    complete on every table that exists, and every [write_gid] they
    make happens between their taking and their releasing the mutex
    of that table. *)
Theorem writers_take_the_mutex d port c g a dev :
  table_of d port = Some c ->
  (exists r d',
     roce_add_gid port g a d = Some (r, d')
     /\ trace d' = trace d ++ new_events d d'
     /\ writes_under_lock [] (new_events d d') = true)
  /\ (exists r d',
        roce_del_gid port g a d = Some (r, d')
        /\ trace d' = trace d ++ new_events d d'
        /\ writes_under_lock [] (new_events d d') = true)
  /\ (exists r d',
        roce_del_all_netdev_gids port dev d = Some (r, d')
        /\ trace d' = trace d ++ new_events d d'
        /\ writes_under_lock [] (new_events d d') = true).
Proof.
  intros Hc. split_and!.
  - destruct (roce_add_gid_locks d port c g a Hc) as (r & d' & evs & Hrun & Ht & Hl).
    exists r, d'. unfold new_events. by rewrite Ht, drop_app_length.
  - destruct (roce_del_gid_locks d port c g a Hc) as (r & d' & evs & Hrun & Ht & Hl).
    exists r, d'. unfold new_events. by rewrite Ht, drop_app_length.
  - destruct (roce_del_all_netdev_gids_locks d port c dev Hc)
      as (r & d' & evs & Hrun & Ht & Hl).
    exists r, d'. unfold new_events. by rewrite Ht, drop_app_length.
Qed.

(** ** Slots after the operations *)

Lemma write_gid_slots d port ix g a e :
  slot d port ix = Some e ->
  exists r ctx h' d',
    modify_gid (hw d) port ix g a (context e) = (r, ctx, h')
    /\ write_gid port ix g a d = Some (r, d')
    /\ slot d' port ix = Some (written_entry e g a r ctx)
    /\ (forall j, j <> ix -> slot d' port j = slot d port j)
    /\ (exists c c', table_of d port = Some c /\ table_of d' port = Some c'
                     /\ active c' = active c
                     /\ length (data_vec c') = length (data_vec c))
    /\ trace d' = trace d ++ write_events e port ix g a r.
Proof.
  intros He.
  destruct (write_gid_defined d port ix g a e He)
    as (c & r & ctx & h' & Hc & Hm & Hw).
  unfold slot in He. rewrite Hc in He. simpl in He.
  destruct (Z.ltb_spec ix 0); [done|].
  eexists r, ctx, h', _. split; [done|]. split; [exact Hw|].
  split; [eapply slot_updated; [done|lia|by eapply lookup_lt_Some]|].
  split; [intros j Hj; by apply slot_updated_ne|].
  split; [|done].
  exists c, (set_slot c ix (written_entry e g a r ctx)).
  split; [done|]. split; [by eapply table_of_updated|].
  split; [done|]. simpl. by rewrite length_insert.
Qed.

Lemma slot_lookup d port c j :
  table_of d port = Some c ->
  slot d port (Z.of_nat j) = data_vec c !! j.
Proof.
  intros Hc. unfold slot. rewrite Hc. simpl.
  destruct (Z.ltb_spec (Z.of_nat j) 0); [lia|]. by rewrite Nat2Z.id.
Qed.

Lemma list_find_quiescent_unique (P : slot_obs -> Prop)
    `{!forall s, Decision (P s)} (vec : list gid_cache_entry) i e :
  vec !! i = Some e ->
  P (quiescent e) ->
  (forall j e', vec !! j = Some e' -> (j < i)%nat -> ~ P (quiescent e')) ->
  list_find P (quiescent <$> vec) = Some (i, quiescent e).
Proof.
  intros Hi HP Hleast. apply list_find_Some. split_and!.
  - by rewrite list_lookup_fmap, Hi.
  - done.
  - intros j s Hj Hlt. rewrite list_lookup_fmap in Hj.
    destruct (vec !! j) as [e'|] eqn:He'; simplify_eq/=. by eapply Hleast.
Qed.

(** With the GID stored and not reserved, [roce_del_gid] runs
    [write_gid] with the zero GID on the lowest-index slot that stores
    it under the type and the device given. *)
Lemma del_gid_writes_lowest_match d port c g a i e :
  table_of d port = Some c ->
  active c = true ->
  ~ is_default_gid_of g a ->
  data_vec c !! i = Some e ->
  stored_as g a e ->
  (forall j e', data_vec c !! j = Some e' -> (j < i)%nat -> ~ stored_as g a e') ->
  exists r ctx h',
    modify_gid (hw d) port (Z.of_nat i) zgid zattr (context e) = (r, ctx, h')
    /\ roce_del_gid port g a d =
         Some (0, updated d port
                    (set_slot c (Z.of_nat i) (written_entry e zgid zattr r ctx)) h'
                    ([EvMutexLock port]
                     ++ write_events e port (Z.of_nat i) zgid zattr r
                     ++ [EvMutexUnlock port])).
Proof.
  intros Hc Hact Hnd Hi He Hleast. rewrite (del_gid_steps d port c g a Hc Hact).
  rewrite bool_decide_false by done.
  rewrite (list_find_quiescent_unique _ (data_vec c) i e); [|done| |].
  - destruct (modify_gid (hw d) port (Z.of_nat i) zgid zattr (context e))
      as [[r ctx] h'] eqn:Hm.
    exists r, ctx, h'. split; [done|].
    erewrite write_gid_run; [| |lia| |]; cycle 1.
    { by rewrite table_of_logged. }
    { by rewrite Nat2Z.id. }
    { exact Hm. }
    by rewrite updated_logged, logged_updated.
  - by apply qualifies_type_netdev_msk.
  - intros j e' Hj Hlt Hq%qualifies_type_netdev_msk. by eapply Hleast.
Qed.

Lemma written_entry_zero e r ctx :
  gid (written_entry e zgid zattr r ctx) = zgid
  /\ attr (written_entry e zgid zattr r ctx) = zattr
  /\ seq (written_entry e zgid zattr r ctx) = publish_seq (seq e).
Proof. unfold written_entry. by destruct (r =? 0). Qed.

(** X5: on an active table, [roce_del_gid] of a GID that is stored
    under the type and the device given, and is not the default GID of
    that device, returns 0 and leaves the lowest-index slot storing it
    with the zero GID, the zero attributes and the next version,
    whether or not [modify_gid] succeeds; no other slot changes. *)
Theorem roce_del_gid_empties_the_match d port c g a i e :
  table_of d port = Some c ->
  active c = true ->
  ~ is_default_gid_of g a ->
  data_vec c !! i = Some e ->
  stored_as g a e ->
  (forall j e', data_vec c !! j = Some e' -> (j < i)%nat -> ~ stored_as g a e') ->
  exists d' e',
    roce_del_gid port g a d = Some (0, d')
    /\ slot d' port (Z.of_nat i) = Some e'
    /\ gid e' = zgid /\ attr e' = zattr /\ seq e' = publish_seq (seq e)
    /\ (forall j, j <> Z.of_nat i -> slot d' port j = slot d port j).
Proof.
  intros Hc Hact Hnd Hi He Hleast.
  destruct (del_gid_writes_lowest_match d port c g a i e Hc Hact Hnd Hi He Hleast)
    as (r & ctx & h' & Hm & Hdel).
  eexists _, (written_entry e zgid zattr r ctx). split; [exact Hdel|].
  split.
  - eapply slot_updated; [done|lia|]. rewrite Nat2Z.id. by eapply lookup_lt_Some.
  - destruct (written_entry_zero e r ctx) as (? & ? & ?). split_and!; [done..|].
    intros j Hj. apply slot_updated_ne; [done|done|lia].
Qed.

Lemma del_all_loop_slots port dev ixs : forall d,
  NoDup ixs ->
  (forall ix, ix ∈ ixs -> is_Some (slot d port ix)) ->
  exists d',
    del_all_loop port dev ixs d = Some (tt, d')
    /\ (forall j e, slot d port j = Some e ->
          if decide (j ∈ ixs /\ ndev (attr e) = dev)
          then exists e', slot d' port j = Some e'
                          /\ gid e' = zgid /\ attr e' = zattr
                          /\ seq e' = publish_seq (seq e)
          else slot d' port j = Some e)
    /\ (forall j, slot d port j = None -> slot d' port j = None).
Proof.
  induction ixs as [|ix ixs IH]; intros d Hnd Hin.
  { exists d. split; [done|]. split; [|done].
    intros j e Hj. rewrite decide_False; [done|].
    intros [Hj' _]. by apply not_elem_of_nil in Hj'. }
  apply NoDup_cons in Hnd as [Hix Hnd].
  destruct (Hin ix) as [e0 He0]; [apply list_elem_of_here|].
  simpl.
  assert (Hload : load_entry port ix d = Some (e0, d)).
  { unfold slot in He0.
    destruct (table_of d port) as [c|] eqn:Hc; simpl in He0; [|done].
    destruct (Z.ltb_spec ix 0); [done|].
    eapply load_entry_run; eauto. }
  rewrite (bind_run _ _ _ _ _ Hload).
  destruct (Z.eqb_spec (ndev (attr e0)) dev) as [Hdev|Hdev].
  - destruct (write_gid_slots d port ix zgid zattr e0 He0)
      as (r & ctx & h' & d1 & Hm & Hw & Hs1 & Hother & _ & _).
    rewrite bind_assoc, (bind_run _ _ _ _ _ Hw).
    erewrite bind_run by reflexivity.
    destruct (IH d1 Hnd) as (d' & Hrun & Hsome & Hnone).
    { intros j Hj. destruct (decide (j = ix)) as [->|Hne]; [by rewrite Hs1|].
      rewrite Hother by done. apply Hin. by apply list_elem_of_further. }
    exists d'. split; [done|]. split.
    + intros j e Hj. destruct (decide (j = ix)) as [->|Hne].
      * assert (e = e0) by congruence. subst e.
        rewrite decide_True by (split; [apply list_elem_of_here|done]).
        specialize (Hsome ix _ Hs1).
        rewrite decide_False in Hsome by (intros [? _]; done).
        destruct (written_entry_zero e0 r ctx) as (? & ? & ?). eauto.
      * rewrite <- Hother in Hj by done. specialize (Hsome j e Hj).
        destruct (decide (j ∈ ixs /\ ndev (attr e) = dev)) as [[Hj1 Hj2]|Hno].
        -- rewrite decide_True; [done|]. split; [by apply list_elem_of_further|done].
        -- rewrite decide_False; [done|].
           intros [[?|?]%elem_of_cons ?]; [done|]. by apply Hno.
    + intros j Hj. apply Hnone. destruct (decide (j = ix)) as [->|Hne]; [congruence|].
      by rewrite Hother.
  - erewrite bind_run by reflexivity.
    destruct (IH d Hnd) as (d' & Hrun & Hsome & Hnone).
    { intros j Hj. apply Hin. by apply list_elem_of_further. }
    exists d'. split; [done|]. split; [|done].
    intros j e Hj. specialize (Hsome j e Hj).
    destruct (decide (j ∈ ixs /\ ndev (attr e) = dev)) as [[Hj1 Hj2]|Hno].
    + rewrite decide_True; [done|]. split; [by apply list_elem_of_further|done].
    + rewrite decide_False; [done|].
      intros [[->|?]%elem_of_cons ?]; [congruence|]. by apply Hno.
Qed.

Lemma slot_logged d evs port j : slot (logged d evs) port j = slot d port j.
Proof. reflexivity. Qed.

Lemma del_all_netdev_gids_run d port c dev :
  table_of d port = Some c ->
  active c = true ->
  exists d',
    roce_del_all_netdev_gids port dev d = Some (0, d')
    /\ (forall j e, slot d port j = Some e -> ndev (attr e) = dev ->
          exists e', slot d' port j = Some e'
                     /\ gid e' = zgid /\ attr e' = zattr
                     /\ seq e' = publish_seq (seq e))
    /\ (forall j e, slot d port j = Some e -> ndev (attr e) <> dev ->
          slot d' port j = Some e)
    /\ (dev <> 0 ->
        forall j e', slot d' port j = Some e' -> ndev (attr e') <> dev).
Proof.
  intros Hc Hact. unfold roce_del_all_netdev_gids.
  erewrite bind_run by by eapply cache_array_is_null_run. cbv beta iota.
  erewrite bind_run by by eapply port_cache_run. cbv beta iota.
  erewrite bind_run by reflexivity. cbv beta iota. rewrite Hact. cbn [negb].
  unfold mutex_lock, mutex_unlock.
  erewrite bind_run by apply emit_run. cbv beta iota.
  destruct (del_all_loop_slots port dev (indices (length (data_vec c)))
              (logged d [EvMutexLock port]))
    as (d1 & Hrun & Hsome & Hnone).
  { apply NoDup_seqZ. }
  { intros ix Hix%elem_of_seqZ. rewrite slot_logged. unfold slot. rewrite Hc. simpl.
    destruct (Z.ltb_spec ix 0); [lia|]. apply lookup_lt_is_Some_2. lia. }
  rewrite (bind_run _ _ _ _ _ Hrun).
  erewrite bind_run by apply emit_run.
  eexists. split; [reflexivity|].
  assert (Hin : forall j e, slot d port j = Some e ->
                            j ∈ indices (length (data_vec c))).
  { intros j e Hj. unfold slot in Hj. rewrite Hc in Hj. simpl in Hj.
    destruct (Z.ltb_spec j 0); [done|]. apply lookup_lt_Some in Hj.
    apply elem_of_seqZ. lia. }
  assert (Hyes : forall j e, slot d port j = Some e -> ndev (attr e) = dev ->
          exists e', slot d1 port j = Some e'
                     /\ gid e' = zgid /\ attr e' = zattr
                     /\ seq e' = publish_seq (seq e)).
  { intros j e Hj Hd. specialize (Hsome j e Hj).
    rewrite decide_True in Hsome by eauto. done. }
  assert (Hno : forall j e, slot d port j = Some e -> ndev (attr e) <> dev ->
          slot d1 port j = Some e).
  { intros j e Hj Hd. specialize (Hsome j e Hj).
    rewrite decide_False in Hsome by (intros [_ ?]; done). done. }
  split_and!; [done|done|].
  intros Hdev j e' Hj Hd. rewrite slot_logged in Hj.
  destruct (slot d port j) as [e|] eqn:He.
  - destruct (decide (ndev (attr e) = dev)) as [Heq|Hne].
    + destruct (Hyes j e He Heq) as (e'' & He'' & _ & Ha & _).
      assert (e'' = e') by congruence. subst e''. rewrite Ha in Hd. simpl in Hd.
      congruence.
    + rewrite (Hno j e He Hne) in Hj. congruence.
  - rewrite (Hnone j) in Hj; [done|]. by rewrite slot_logged.
Qed.

(** X6: on an active table, [roce_del_all_netdev_gids] returns 0; every
    slot that named the device carries the zero GID, the zero
    attributes and the next version afterwards, and every other slot
    is what it was.  So after the call for a non-NULL device no slot
    names it. *)
Theorem roce_del_all_netdev_gids_slots d port c dev :
  table_of d port = Some c ->
  active c = true ->
  exists d',
    roce_del_all_netdev_gids port dev d = Some (0, d')
    /\ (forall j e, slot d port j = Some e -> ndev (attr e) = dev ->
          exists e', slot d' port j = Some e'
                     /\ gid e' = zgid /\ attr e' = zattr
                     /\ seq e' = publish_seq (seq e))
    /\ (forall j e, slot d port j = Some e -> ndev (attr e) <> dev ->
          slot d' port j = Some e)
    /\ (dev <> 0 ->
        forall j e', slot d' port j = Some e' -> ndev (attr e') <> dev).
Proof. apply del_all_netdev_gids_run. Qed.

(** ** Adding, finding, reading and deleting *)

Lemma publish_seq_valid v : 0 <= v < SEQ_INVALID - 2 -> publish_seq v <> SEQ_INVALID.
Proof. intros Hv. rewrite publish_seq_below by done. lia. Qed.

(** A successful [roce_add_gid]: the device it leaves. *)
Lemma add_gid_succeeds d port c g a i e ctx h' :
  table_of d port = Some c ->
  active c = true ->
  (forall j e', data_vec c !! j = Some e' -> ~ same_gid_and_type g a e') ->
  data_vec c !! i = Some e ->
  empty_slot e ->
  (forall j e', data_vec c !! j = Some e' -> (j < i)%nat -> ~ empty_slot e') ->
  modify_gid (hw d) port (Z.of_nat i) g a (context e) = (0, ctx, h') ->
  roce_add_gid port g a d =
    Some (0, updated d port (set_slot c (Z.of_nat i) (stored e g a ctx)) h'
               ([EvMutexLock port]
                ++ write_events e port (Z.of_nat i) g a 0
                ++ [EvMutexUnlock port])).
Proof.
  intros Hc Hact Hnone Hi He Hleast Hm.
  destruct (add_gid_writes_lowest_empty d port c g a i e Hc Hact Hnone Hi He Hleast)
    as (r & ctx' & h'' & Hm' & Hadd).
  rewrite Hm in Hm'. by simplify_eq.
Qed.

Lemma set_slot_lookup c i e1 :
  (i < length (data_vec c))%nat ->
  data_vec (set_slot c (Z.of_nat i) e1) !! i = Some e1.
Proof. intros Hi. simpl. rewrite Nat2Z.id. by apply list_lookup_insert_eq. Qed.

Lemma set_slot_lookup_ne c i j e1 :
  j <> i ->
  data_vec (set_slot c (Z.of_nat i) e1) !! j = data_vec c !! j.
Proof. intros Hne. simpl. rewrite Nat2Z.id. by apply list_lookup_insert_ne. Qed.

Lemma find_gid_type_msk_at (vec : list gid_cache_entry) g a i e1 :
  vec !! i = Some e1 ->
  same_gid_and_type g a e1 ->
  (forall j e', vec !! j = Some e' -> (j < i)%nat -> ~ same_gid_and_type g a e') ->
  find_gid (quiescent <$> vec) g (Some a) roce_gid_type_msk = Some (Z.of_nat i).
Proof.
  intros Hi He1 Hleast. unfold find_gid.
  rewrite (find_gid_from_list_find (fun s => slot_qualifies s g a roce_gid_type_msk))
    by (intros; apply find_gid_slot_val).
  rewrite (list_find_quiescent_unique _ vec i e1); [done|done| |].
  - by apply qualifies_type_msk.
  - intros j e' Hj Hlt Hq%qualifies_type_msk. by eapply Hleast.
Qed.

Lemma get_gid_observe d port c i e gid_buf attr_buf :
  table_of d port = Some c ->
  active c = true ->
  data_vec c !! i = Some e ->
  seq e <> SEQ_INVALID ->
  roce_gid_cache_get_gid (observe d) port (Z.of_nat i) gid_buf attr_buf
    = Some (0, gid e, (fun _ => attr e) <$> attr_buf).
Proof.
  intros (tbl & Ht & Hp & Hl)%table_of_inv Hact Hi Hseq.
  unfold roce_gid_cache_get_gid, observe. rewrite Ht. simpl. rewrite Hp.
  rewrite list_lookup_fmap, Hl. simpl. rewrite Hact. simpl.
  rewrite length_fmap.
  destruct (Z.ltb_spec (Z.of_nat i) 0); [lia|].
  apply lookup_lt_Some in Hi as Hlt.
  destruct (Z.leb_spec (Z.of_nat (length (data_vec c))) (Z.of_nat i)); [lia|].
  simpl. rewrite Nat2Z.id, list_lookup_fmap, Hi. simpl. unfold quiescent.
  destruct (Z.eqb_spec (seq e) SEQ_INVALID); [done|]. rewrite Z.eqb_refl. simpl.
  by destruct attr_buf.
Qed.




(** ** The scan over the ports *)

Lemma find_gid_val (vec : list slot_obs) g v msk :
  find_gid vec g (Some v) msk =
    Some (match list_find (fun s => slot_qualifies s g v msk) vec with
          | Some (i, _) => Z.of_nat i
          | None => -1
          end).
Proof.
  unfold find_gid.
  by rewrite (find_gid_from_list_find (fun s => slot_qualifies s g v msk))
    by (intros; apply find_gid_slot_val).
Qed.

Lemma find_gid_ports_scan is_switch eth tbl g v msk port_buf index_buf n :
  forall k, 0 <= k ->
  (forall p, k <= p < k + n -> eth (p + start_port is_switch) = true ->
     is_Some (mjoin (tbl !! Z.to_nat p))) ->
  exists r port' index',
    find_gid_ports is_switch eth tbl (seqZ k n) g (Some v) msk
      port_buf index_buf = Some (r, port', index')
    /\ ((r = - ENOENT /\ port' = port_buf /\ index' = index_buf
         /\ forall p c, k <= p < k + n -> searched is_switch eth tbl p c ->
              ~ table_has c g v msk)
        \/ (r = 0
            /\ exists p c i (s : slot_obs),
                 k <= p < k + n
                 /\ searched is_switch eth tbl p c
                 /\ obs_vec c !! i = Some s
                 /\ slot_qualifies s g v msk
                 /\ port' = (fun _ => u8 (p + start_port is_switch)) <$> port_buf
                 /\ index' = (fun _ => u16 (Z.of_nat i)) <$> index_buf
                 /\ (forall p' c', k <= p' < p ->
                       searched is_switch eth tbl p' c' -> ~ table_has c' g v msk)
                 /\ (forall j (s' : slot_obs), obs_vec c !! j = Some s' ->
                       (j < i)%nat -> ~ slot_qualifies s' g v msk))).
Proof.
  destruct (Z.le_gt_cases n 0) as [Hn|Hn].
  { intros k _ _. rewrite seqZ_nil by done. simpl.
    eexists _, _, _. split; [done|]. left. split_and!; [done..|]. intros; lia. }
  rewrite <- (Z2Nat.id n) by lia. generalize (Z.to_nat n). clear n Hn.
  intros n. induction n as [|n IH]; intros k Hk Htab.
  { simpl. eexists _, _, _. split; [done|]. left. split_and!; [done..|].
    intros; lia. }
  rewrite Nat2Z.inj_succ, seqZ_cons by lia. rewrite Z.pred_succ.
  destruct (IH (Z.succ k)) as (r & port' & index' & Hrun & Hrest); [lia| |].
  { intros p Hp. apply Htab. lia. }
  assert (Hskip : (forall c, searched is_switch eth tbl k c -> ~ table_has c g v msk) ->
    exists r port' index',
      find_gid_ports is_switch eth tbl (seqZ (Z.succ k) (Z.of_nat n)) g (Some v) msk
        port_buf index_buf = Some (r, port', index')
    /\ ((r = - ENOENT /\ port' = port_buf /\ index' = index_buf
         /\ forall p c, k <= p < k + Z.succ (Z.of_nat n) -> searched is_switch eth tbl p c ->
              ~ table_has c g v msk)
        \/ (r = 0
            /\ exists p c i (s : slot_obs),
                 k <= p < k + Z.succ (Z.of_nat n)
                 /\ searched is_switch eth tbl p c
                 /\ obs_vec c !! i = Some s
                 /\ slot_qualifies s g v msk
                 /\ port' = (fun _ => u8 (p + start_port is_switch)) <$> port_buf
                 /\ index' = (fun _ => u16 (Z.of_nat i)) <$> index_buf
                 /\ (forall p' c', k <= p' < p ->
                       searched is_switch eth tbl p' c' -> ~ table_has c' g v msk)
                 /\ (forall j (s' : slot_obs), obs_vec c !! j = Some s' ->
                       (j < i)%nat -> ~ slot_qualifies s' g v msk)))).
  { intros Hk0. exists r, port', index'. split; [done|].
    destruct Hrest as [(-> & -> & -> & Hno)|(-> & p & c & i & s & Hp & Hs & Hi & Hq & -> & -> & Hlow & Hleast)].
    - left. split_and!; [done..|]. intros p c Hp Hs.
      destruct (decide (p = k)) as [->|]; [by apply Hk0|]. apply (Hno p c); [lia|done].
    - right. split; [done|]. exists p, c, i, s. split_and!; [lia|lia|done..| |assumption].
      intros p' c' Hp' Hs'.
      destruct (decide (p' = k)) as [->|]; [by apply Hk0|]. apply (Hlow p' c'); [lia|done]. }
  simpl find_gid_ports.
  destruct (eth (k + start_port is_switch)) eqn:Heth; simpl.
  2:{ apply Hskip. intros c (He & _). congruence. }
  destruct (Htab k) as [c Hc]; [lia|done|].
  destruct (tbl !! Z.to_nat k) as [[c0|]|] eqn:Hl; simplify_eq/=.
  destruct (obs_active c) eqn:Hact; simpl.
  2:{ apply Hskip. intros c' (_ & Hl' & Ha'). rewrite Hl in Hl'. simplify_eq.
      congruence. }
  rewrite find_gid_val. simpl.
  destruct (list_find _ (obs_vec c)) as [[i s]|] eqn:Hf.
  - apply list_find_Some in Hf as (Hi & Hq & Hleast).
    destruct (Z.leb_spec 0 (Z.of_nat i)); [|lia].
    eexists _, _, _. split; [done|]. right. split; [done|].
    exists k, c, i, s. split_and!; [lia|lia|done..| |assumption]. intros; lia.
  - simpl. apply Hskip. intros c' (_ & Hl' & _) (i & s & Hi & Hq).
    rewrite Hl in Hl'. simplify_eq.
    rewrite list_find_None, Forall_lookup in Hf. by eapply Hf.
Qed.

(** X10: [_roce_gid_cache_find_gid], every Ethernet port among the
    first [phys_port_cnt] having a table, returns [-ENOENT] or 0.  On
    [-ENOENT] the caller's [port] and [index] are not written and no
    active table of an Ethernet port has a qualifying slot.  On 0 the
    port written is the lowest Ethernet port with an active table that
    has a qualifying slot, offset by [start_port] and cut to 8 bits,
    and the index written is the lowest qualifying index of that
    table, cut to 16 bits. *)
Theorem find_gid_across_ports is_switch cnt eth tbl g v msk port_buf index_buf :
  eth_ports_have_tables is_switch eth tbl cnt ->
  exists r port' index',
    _roce_gid_cache_find_gid is_switch cnt eth (Some tbl) g (Some v) msk
      port_buf index_buf = Some (r, port', index')
    /\ ((r = - ENOENT /\ port' = port_buf /\ index' = index_buf
         /\ forall p c, 0 <= p < cnt -> searched is_switch eth tbl p c ->
              ~ table_has c g v msk)
        \/ (r = 0
            /\ exists p c i (s : slot_obs),
                 0 <= p < cnt
                 /\ searched is_switch eth tbl p c
                 /\ obs_vec c !! i = Some s
                 /\ slot_qualifies s g v msk
                 /\ port' = (fun _ => u8 (p + start_port is_switch)) <$> port_buf
                 /\ index' = (fun _ => u16 (Z.of_nat i)) <$> index_buf
                 /\ (forall p' c', 0 <= p' < p ->
                       searched is_switch eth tbl p' c' -> ~ table_has c' g v msk)
                 /\ (forall j (s' : slot_obs), obs_vec c !! j = Some s' ->
                       (j < i)%nat -> ~ slot_qualifies s' g v msk))).
Proof.
  intros Htab. unfold _roce_gid_cache_find_gid.
  apply (find_gid_ports_scan is_switch eth tbl g v msk port_buf index_buf cnt 0);
    [lia|]. intros p Hp. apply Htab. lia.
Qed.

(** X11: on a node that is not a switch, what [roce_gid_cache_find_gid]
    reports can be read back.  When the scan of a device nobody writes
    returns 0 with the port and the index it wrote, the device having
    at most 255 ports and tables of at most 65536 slots,
    [roce_gid_cache_get_gid] at that port and index returns 0, the GID
    sought and attributes of the type sought. *)
Theorem find_gid_then_get_gid d cnt eth g type port0 index0 port index
    gid_buf attr_buf :
  0 <= cnt <= 255 ->
  (forall p c, table_of d p = Some c -> Z.of_nat (length (data_vec c)) <= 2 ^ 16) ->
  roce_gid_cache_find_gid false cnt eth (observe d) g type
    (Some port0) (Some index0) = Some (0, Some port, Some index) ->
  exists a,
    roce_gid_cache_get_gid (observe d) port index gid_buf (Some attr_buf)
      = Some (0, g, Some a)
    /\ gid_type a = type.
Proof.
  intros Hcnt Hlen Hfind.
  unfold roce_gid_cache_find_gid, _roce_gid_cache_find_gid, observe in Hfind.
  destruct (roce_gid_cache d) as [tbl|] eqn:Ht; simpl in Hfind; [|simplify_eq].
  set (otbl := (fun c : option ib_roce_gid_cache => observe_cache <$> c) <$> tbl)
    in Hfind.
  assert (Hscan : forall n k, 0 <= k ->
    find_gid_ports false eth otbl (seqZ k (Z.of_nat n)) g
      (Some {| gid_type := type; ndev := 0 |}) roce_gid_type_msk
      (Some port0) (Some index0) = Some (0, Some port, Some index) ->
    exists p c i e,
      k <= p < k + Z.of_nat n
      /\ tbl !! Z.to_nat p = Some (Some c) /\ active c = true
      /\ data_vec c !! i = Some e
      /\ same_gid_and_type g {| gid_type := type; ndev := 0 |} e
      /\ port = u8 (p + 1) /\ index = u16 (Z.of_nat i)).
  { induction n as [|n IH]; intros k Hk Hrun; [simpl in Hrun; simplify_eq|].
    rewrite Nat2Z.inj_succ, seqZ_cons in Hrun by lia. rewrite Z.pred_succ in Hrun.
    rewrite Nat2Z.inj_succ.
    assert (Hnext : find_gid_ports false eth otbl (seqZ (Z.succ k) (Z.of_nat n)) g
      (Some {| gid_type := type; ndev := 0 |}) roce_gid_type_msk
      (Some port0) (Some index0) = Some (0, Some port, Some index) ->
      exists p c i e,
      k <= p < k + Z.succ (Z.of_nat n)
      /\ tbl !! Z.to_nat p = Some (Some c) /\ active c = true
      /\ data_vec c !! i = Some e
      /\ same_gid_and_type g {| gid_type := type; ndev := 0 |} e
      /\ port = u8 (p + 1) /\ index = u16 (Z.of_nat i)).
    { intros Hr. destruct (IH (Z.succ k)) as (p & c & i & e & Hp & H); [lia|done|].
      exists p, c, i, e. split; [lia|done]. }
    simpl find_gid_ports in Hrun.
    destruct (eth (k + 1)); simpl in Hrun; [|by apply Hnext].
    assert (Hlk : otbl !! Z.to_nat k
              = (fun c : option ib_roce_gid_cache => observe_cache <$> c)
                  <$> tbl !! Z.to_nat k) by apply list_lookup_fmap.
    rewrite Hlk in Hrun. clear Hlk.
    destruct (tbl !! Z.to_nat k) as [[c|]|] eqn:Hl; simpl in Hrun; simplify_eq.
    destruct (active c) eqn:Hact; simpl in Hrun; [|by apply Hnext].
    rewrite find_gid_val in Hrun. simpl in Hrun.
    pose proof (list_find_quiescent
      (fun s => slot_qualifies s g {| gid_type := type; ndev := 0 |}
                  roce_gid_type_msk) (data_vec c)) as Hq.
    destruct (list_find _ (quiescent <$> data_vec c)) as [[i s]|].
    - destruct Hq as (e & -> & Hi & Hq%qualifies_type_msk & _).
      destruct (Z.leb_spec 0 (Z.of_nat i)); [|lia]. simplify_eq.
      exists k, c, i, e. split_and!; [lia|lia|done..].
    - simpl in Hrun. by apply Hnext. }
  rewrite <- (Z2Nat.id cnt) in Hfind by lia.
  destruct (Hscan _ 0 ltac:(lia) Hfind)
    as (p & c & i & e & Hp & Hl & Hact & Hi & (Hseq & Hty & Hg) & -> & ->).
  assert (Hc : table_of d (p + 1) = Some c).
  { unfold table_of. rewrite Ht. simpl.
    destruct (Z.ltb_spec (p + 1) 1); [lia|].
    replace (p + 1 - 1) with p by lia. by rewrite Hl. }
  pose proof (Hlen _ _ Hc) as Hlc. apply lookup_lt_Some in Hi as Hlt.
  unfold u8, u16. rewrite !Z.mod_small by lia.
  exists (attr e). split; [|done].
  erewrite get_gid_observe by done. simpl. by rewrite Hg.
Qed.

(** ** Set-up, activation and tear-down *)

Lemma with_cache_array_twice d arr arr' :
  with_cache_array (with_cache_array d arr) arr' = with_cache_array d arr'.
Proof. reflexivity. Qed.

Lemma store_cache_ptr_run d tbl p c :
  roce_gid_cache d = Some tbl ->
  (Z.to_nat p < length tbl)%nat ->
  store_cache_ptr p c d
    = Some (tt, with_cache_array d (Some (<[Z.to_nat p := c]> tbl))).
Proof.
  intros Ht Hp. unfold store_cache_ptr. rewrite Ht. by rewrite decide_True.
Qed.

Lemma load_cache_ptr_run d tbl p c :
  roce_gid_cache d = Some tbl ->
  tbl !! Z.to_nat p = Some c ->
  load_cache_ptr p d = Some (c, d).
Proof. intros Ht Hp. unfold load_cache_ptr. by rewrite Ht, Hp. Qed.

Lemma put_devices_run vec d dev :
  dev <> 0 ->
  exists evs,
    put_devices vec d = Some (tt, logged d evs)
    /\ ref_delta dev evs = - refs_in_vec dev vec
    /\ (Forall (fun e => ndev (attr e) = 0) vec -> evs = []).
Proof.
  intros Hdev. revert d. induction vec as [|e vec IH]; intros d.
  { exists []. split_and!; [|done..]. destruct d. unfold logged. simpl.
    by rewrite app_nil_r. }
  simpl put_devices. unfold names_dev.
  destruct (Z.eqb_spec (ndev (attr e)) 0) as [Hz|Hz]; simpl.
  - destruct (IH d) as (evs & Hrun & Href & Hnil). exists evs.
    split; [done|]. split.
    + simpl. unfold names_dev. rewrite Hz.
      destruct (Z.eqb_spec 0 dev); [congruence|]. fold (refs_in_vec dev vec). lia.
    + intros Hall. apply Hnil. by inversion Hall.
  - destruct (IH (logged d [EvDevPut (ndev (attr e))])) as (evs & Hrun & Href & Hnil).
    exists (EvDevPut (ndev (attr e)) :: evs). split_and!.
    + unfold bind. rewrite emit_run, Hrun. by rewrite logged_logged.
    + simpl. unfold names_dev. fold (refs_in_vec dev vec).
      destruct (ndev (attr e) =? dev); lia.
    + intros Hall. inversion Hall. congruence.
Qed.

Lemma free_fresh_or_null c d :
  fresh_or_null c -> free_roce_gid_cache c d = Some (tt, d).
Proof.
  destruct c as [c|]; [|done]. intros [n ->]. simpl.
  induction n as [|n IH]; [done|]. simpl. unfold bind. simpl. exact IH.
Qed.

Lemma free_ports_fresh n : forall k d tbl,
  0 <= k ->
  roce_gid_cache d = Some tbl ->
  (Z.to_nat k + n <= length tbl)%nat ->
  Forall fresh_or_null tbl ->
  free_ports (seqZ k (Z.of_nat n)) d = Some (tt, d).
Proof.
  induction n as [|n IH]; intros k d tbl Hk Ht Hlen Hall; [done|].
  rewrite Nat2Z.inj_succ, seqZ_cons by lia. rewrite Z.pred_succ. simpl.
  destruct (lookup_lt_is_Some_2 tbl (Z.to_nat k)) as [c Hc]; [lia|].
  erewrite bind_run by by eapply load_cache_ptr_run. cbv beta.
  erewrite bind_run; [|apply free_fresh_or_null; by eapply Forall_lookup_1].
  cbv beta. apply (IH _ _ tbl); [lia|done| |done]. lia.
Qed.

Lemma setup_ports_run len alloc_ok n : forall k d tbl,
  0 <= k ->
  roce_gid_cache d = Some tbl ->
  (Z.to_nat k + n <= length tbl)%nat ->
  Forall fresh_or_null tbl ->
  exists ok tbl',
    setup_ports len alloc_ok (seqZ k (Z.of_nat n)) d
      = Some (ok, with_cache_array d (Some tbl'))
    /\ length tbl' = length tbl
    /\ Forall fresh_or_null tbl'
    /\ (if ok
        then (forall p, k <= p < k + Z.of_nat n -> alloc_ok p = true)
             /\ (forall p, k <= p < k + Z.of_nat n ->
                   tbl' !! Z.to_nat p = Some (Some (alloc_roce_gid_cache (len p))))
             /\ (forall i, (i < Z.to_nat k)%nat -> tbl' !! i = tbl !! i)
        else exists p, k <= p < k + Z.of_nat n /\ alloc_ok p = false).
Proof.
  induction n as [|n IH]; intros k d tbl Hk Ht Hlen Hall.
  { exists true, tbl. simpl. split_and!; try done; try (intros; lia).
    destruct d; simpl in *; by subst. }
  rewrite Nat2Z.inj_succ, seqZ_cons by lia. rewrite Z.pred_succ. simpl setup_ports.
  erewrite bind_run by (eapply store_cache_ptr_run; [done|lia]). cbv beta.
  destruct (alloc_ok k) eqn:Hok; simpl.
  - destruct (IH (Z.succ k) (with_cache_array d
                 (Some (<[Z.to_nat k := Some (alloc_roce_gid_cache (len k))]> tbl)))
              (<[Z.to_nat k := Some (alloc_roce_gid_cache (len k))]> tbl))
      as (ok & tbl' & Hrun & Hl & Hf & Hres); [lia|done| | |].
    { rewrite length_insert. lia. }
    { apply Forall_insert; [done|]. simpl. eauto. }
    exists ok, tbl'. rewrite Hrun. split; [done|]. split.
    { by rewrite Hl, length_insert. }
    split; [done|]. destruct ok.
    + destruct Hres as (Hall' & Hnew & Hold). split_and!.
      * intros p Hp. destruct (decide (p = k)) as [->|]; [done|]. apply Hall'. lia.
      * intros p Hp. destruct (decide (p = k)) as [->|]; [|apply Hnew; lia].
        rewrite Hold by lia. apply list_lookup_insert_eq. lia.
      * intros i Hi. rewrite Hold by lia. apply list_lookup_insert_ne. lia.
    + destruct Hres as (p & Hp & Hbad). exists p. split; [lia|done].
  - exists false, (<[Z.to_nat k := None]> tbl). split; [done|].
    split; [by rewrite length_insert|]. split; [by apply Forall_insert|].
    exists k. split; [lia|done].
Qed.

Lemma set_active_ports_run act n : forall k d tbl,
  0 <= k ->
  roce_gid_cache d = Some tbl ->
  (Z.to_nat k + n <= length tbl)%nat ->
  exists tbl',
    set_active_ports act (seqZ k (Z.of_nat n)) d
      = Some (tt, with_cache_array d (Some tbl'))
    /\ length tbl' = length tbl
    /\ (forall p c, k <= p < k + Z.of_nat n -> tbl !! Z.to_nat p = Some c ->
          tbl' !! Z.to_nat p
          = Some ((fun c => {| active := act; data_vec := data_vec c |}) <$> c))
    /\ (forall i, (i < Z.to_nat k)%nat \/ (Z.to_nat k + n <= i)%nat ->
          tbl' !! i = tbl !! i).
Proof.
  induction n as [|n IH]; intros k d tbl Hk Ht Hlen.
  { exists tbl. simpl. split_and!; try done; try (intros; lia).
    destruct d; simpl in *; by subst. }
  rewrite Nat2Z.inj_succ, seqZ_cons by lia. rewrite Z.pred_succ.
  simpl set_active_ports.
  destruct (lookup_lt_is_Some_2 tbl (Z.to_nat k)) as [c Hc]; [lia|].
  unfold set_roce_gid_cache_active. rewrite bind_assoc.
  erewrite bind_run by by eapply load_cache_ptr_run. cbv beta.
  set (c' := (fun c => {| active := act; data_vec := data_vec c |}) <$> c).
  assert (Hstep : forall (k0 : unit -> M unit),
    bind (match c with
          | Some c0 => store_cache_ptr k (Some {| active := act; data_vec := data_vec c0 |})
          | None => ret tt
          end) k0 d
    = k0 tt (with_cache_array d (Some (<[Z.to_nat k := c']> tbl)))).
  { intros k0. destruct c as [c0|]; simpl.
    - erewrite bind_run by (eapply store_cache_ptr_run; [done|lia]). done.
    - unfold bind, ret. simpl. f_equal. subst c'. simpl.
      rewrite list_insert_id by done. destruct d; simpl in *; by subst. }
  rewrite Hstep.
  destruct (IH (Z.succ k) (with_cache_array d (Some (<[Z.to_nat k := c']> tbl)))
              (<[Z.to_nat k := c']> tbl)) as (tbl' & Hrun & Hl & Hnew & Hold);
    [lia|done| |].
  { rewrite length_insert. lia. }
  exists tbl'. rewrite Hrun. split; [done|]. split.
  { by rewrite Hl, length_insert. }
  split.
  - intros p c1 Hp Hc1. destruct (decide (p = k)) as [->|].
    + rewrite Hold by lia. rewrite list_lookup_insert_eq by lia.
      rewrite Hc in Hc1. by simplify_eq.
    + apply Hnew; [lia|]. rewrite list_lookup_insert_ne by lia. done.
  - intros i Hi. rewrite Hold by lia. apply list_lookup_insert_ne. lia.
Qed.

Lemma seqZ_to_nat cnt : seqZ 0 cnt = seqZ 0 (Z.of_nat (Z.to_nat cnt)).
Proof.
  destruct (Z.le_gt_cases 0 cnt); [by rewrite Z2Nat.id|].
  rewrite seqZ_nil by lia. by replace (Z.to_nat cnt) with 0%nat by lia.
Qed.

Lemma setup_one_cases has_modify_gid cnt len array_ok alloc_ok d :
  exists r d',
    roce_gid_cache_setup_one has_modify_gid cnt len array_ok alloc_ok d
      = Some (r, d')
    /\ hw d' = hw d /\ trace d' = trace d
    /\ ((r = - ENOSYS /\ has_modify_gid = false
         /\ roce_gid_cache d' = roce_gid_cache d)
        \/ (r = - ENOMEM /\ has_modify_gid = true
            /\ (array_ok = false \/ exists p, 0 <= p < cnt /\ alloc_ok p = false)
            /\ roce_gid_cache d' = None)
        \/ (r = 0 /\ has_modify_gid = true /\ array_ok = true
            /\ (forall p, 0 <= p < cnt -> alloc_ok p = true)
            /\ exists tbl,
                 roce_gid_cache d' = Some tbl
                 /\ length tbl = Z.to_nat cnt
                 /\ forall p, 0 <= p < cnt ->
                      tbl !! Z.to_nat p
                      = Some (Some (alloc_roce_gid_cache (len p))))).
Proof.
  unfold roce_gid_cache_setup_one.
  destruct has_modify_gid; simpl.
  2:{ exists (- ENOSYS), d. split_and!; [done..|]. by left. }
  destruct array_ok; simpl.
  2:{ eexists _, _. split; [reflexivity|]. simpl. split_and!; [done..|].
      right. left. split_and!; [done..| |done]. by left. }
  unfold bind at 1. simpl.
  set (d0 := {| roce_gid_cache := Some (replicate (Z.to_nat cnt) None);
                hw := hw d; trace := trace d |}).
  rewrite (seqZ_to_nat cnt).
  destruct (setup_ports_run len alloc_ok (Z.to_nat cnt) 0 d0
              (replicate (Z.to_nat cnt) None))
    as (ok & tbl' & Hrun & Hl & Hf & Hres); [lia|done| | |].
  { rewrite length_replicate. lia. }
  { by apply Forall_replicate. }
  erewrite bind_run by exact Hrun. cbv beta. destruct ok.
  - destruct Hres as (Hall & Hnew & _). eexists _, _. split; [reflexivity|].
    simpl. split_and!; [done..|]. right. right. split_and!; [done..| |].
    + intros p Hp. apply Hall. lia.
    + exists tbl'. split_and!; [done| |].
      * by rewrite Hl, length_replicate.
      * intros p Hp. apply Hnew. lia.
  - destruct Hres as (p & Hp & Hbad).
    erewrite bind_run.
    2:{ apply (free_ports_fresh _ 0 _ tbl'); [lia|done| |done].
        rewrite Hl, length_replicate. lia. }
    cbv beta. eexists _, _. split; [reflexivity|]. simpl.
    split_and!; [done..|]. right. left. split_and!; [done..| |done].
    right. exists p. split; [lia|done].
Qed.

(** X12: [roce_gid_cache_setup_one] sets up every table or none.  It
    returns [-ENOSYS] and touches nothing when the driver has no
    [modify_gid]; it returns [-ENOMEM] and leaves a NULL array when the
    array or the table of any port cannot be allocated; otherwise it
    returns 0 and leaves [phys_port_cnt] tables, each inactive and with
    [gid_tbl_len] zeroed slots.  No device reference is dropped and the
    hardware is not called. *)
Theorem roce_gid_cache_setup_one_all_or_nothing has_modify_gid cnt len
    array_ok alloc_ok d :
  exists r d',
    roce_gid_cache_setup_one has_modify_gid cnt len array_ok alloc_ok d
      = Some (r, d')
    /\ hw d' = hw d /\ trace d' = trace d
    /\ ((r = - ENOSYS /\ has_modify_gid = false
         /\ roce_gid_cache d' = roce_gid_cache d)
        \/ (r = - ENOMEM /\ has_modify_gid = true
            /\ (array_ok = false \/ exists p, 0 <= p < cnt /\ alloc_ok p = false)
            /\ roce_gid_cache d' = None)
        \/ (r = 0 /\ has_modify_gid = true /\ array_ok = true
            /\ (forall p, 0 <= p < cnt -> alloc_ok p = true)
            /\ exists tbl,
                 roce_gid_cache d' = Some tbl
                 /\ length tbl = Z.to_nat cnt
                 /\ forall p, 0 <= p < cnt ->
                      tbl !! Z.to_nat p
                      = Some (Some (alloc_roce_gid_cache (len p))))).
Proof. apply setup_one_cases. Qed.

Lemma cache_array_is_null_present d tbl :
  roce_gid_cache d = Some tbl -> cache_array_is_null d = Some (false, d).
Proof.
  intros Ht. unfold cache_array_is_null. rewrite Ht. by rewrite bool_decide_false.
Qed.

Lemma set_active_state_run d tbl cnt act :
  roce_gid_cache d = Some tbl ->
  (Z.to_nat cnt <= length tbl)%nat ->
  exists tbl',
    roce_gid_cache_set_active_state cnt act d
      = Some (tt, with_cache_array d (Some tbl'))
    /\ length tbl' = length tbl
    /\ (forall p c, 0 <= p < cnt -> tbl !! Z.to_nat p = Some c ->
          tbl' !! Z.to_nat p
          = Some ((fun c => {| active := act; data_vec := data_vec c |}) <$> c))
    /\ (forall i, (Z.to_nat cnt <= i)%nat -> tbl' !! i = tbl !! i).
Proof.
  intros Ht Hlen. unfold roce_gid_cache_set_active_state.
  erewrite bind_run by by eapply cache_array_is_null_present. cbv beta iota.
  rewrite (seqZ_to_nat cnt).
  destruct (set_active_ports_run act (Z.to_nat cnt) 0 d tbl)
    as (tbl' & Hrun & Hl & Hnew & Hold); [lia|done|lia|].
  exists tbl'. split_and!; [done..| |].
  - intros p c Hp. apply Hnew. lia.
  - intros i Hi. apply Hold. lia.
Qed.

(** X13: [roce_gid_cache_client_setup_one] leaves the device ready or
    without a cache.  Either the rescan is scheduled and every port
    has an active table of [gid_tbl_len] zeroed slots, or nothing is
    scheduled and the array is NULL (untouched when the driver has no
    [modify_gid]): a failed allocation of the work item undoes the
    set-up. *)
Theorem roce_gid_cache_client_setup_one_ready_or_absent has_modify_gid cnt len
    array_ok alloc_ok work_ok d :
  exists scheduled d',
    roce_gid_cache_client_setup_one has_modify_gid cnt len array_ok alloc_ok
      work_ok d = Some (scheduled, d')
    /\ hw d' = hw d /\ trace d' = trace d
    /\ (if (scheduled : bool)
        then has_modify_gid = true /\ array_ok = true /\ work_ok = true
             /\ (forall p, 0 <= p < cnt -> alloc_ok p = true)
             /\ forall p, 0 <= p < cnt ->
                  table_of d' (p + 1)
                  = Some {| active := true;
                            data_vec := replicate (len p) zero_entry |}
        else if has_modify_gid
             then roce_gid_cache d' = None
             else roce_gid_cache d' = roce_gid_cache d).
Proof.
  unfold roce_gid_cache_client_setup_one.
  destruct (setup_one_cases has_modify_gid cnt len
              array_ok alloc_ok d) as (r & d1 & Hrun & Hhw & Htr & Hcase).
  erewrite bind_run by exact Hrun. cbv beta.
  destruct Hcase as [(-> & -> & Hc)|[(-> & -> & _ & Hc)|(-> & -> & -> & Hall & tbl & Ht & Hl & Hnew)]].
  - exists false, d1. done.
  - exists false, d1. done.
  - simpl. destruct work_ok; simpl.
    + destruct (set_active_state_run d1 tbl cnt true)
        as (tbl' & Hrun' & Hl' & Hnew' & _); [done|lia|].
      erewrite bind_run by exact Hrun'. cbv beta.
      eexists _, _. split; [reflexivity|]. simpl. split_and!; [done..|].
      intros p Hp. unfold table_of. simpl.
      destruct (Z.ltb_spec (p + 1) 1); [lia|].
      replace (p + 1 - 1) with p by lia.
      erewrite Hnew'; [|lia|apply Hnew; lia]. done.
    + unfold roce_gid_cache_cleanup_one. rewrite bind_assoc.
      erewrite bind_run by by eapply cache_array_is_null_present. cbv beta iota.
      rewrite (seqZ_to_nat cnt).
      assert (Hfresh : Forall fresh_or_null tbl).
      { apply Forall_lookup_2. intros i c Hi.
        apply lookup_lt_Some in Hi as Hlt.
        rewrite <- (Nat2Z.id i) in Hi. rewrite Hnew in Hi by lia.
        simplify_eq. simpl. eauto. }
      rewrite bind_assoc.
      erewrite bind_run
        by (apply (free_ports_fresh _ 0 _ tbl); [lia|done|lia|done]).
      cbv beta. eexists _, _. split; [reflexivity|]. simpl. done.
Qed.

(** X14: [roce_gid_cache_set_active_state] and what follows it.  On
    an array that has a table pointer for each of [phys_port_cnt]
    ports, the call rewrites the [active] flag of the table of every
    port and nothing else; [roce_gid_cache_is_active] then answers with
    the flag written, and after a deactivation [roce_add_gid],
    [roce_del_gid] and [roce_del_all_netdev_gids] refuse with
    [-ENOSYS]. *)
Theorem set_active_state_then_is_active d tbl cnt act port c :
  roce_gid_cache d = Some tbl ->
  (Z.to_nat cnt <= length tbl)%nat ->
  1 <= port <= cnt ->
  table_of d port = Some c ->
  exists d',
    roce_gid_cache_set_active_state cnt act d = Some (tt, d')
    /\ hw d' = hw d /\ trace d' = trace d
    /\ table_of d' port = Some {| active := act; data_vec := data_vec c |}
    /\ roce_gid_cache_is_active port d' = Some (if act then 1 else 0, d')
    /\ (act = false ->
        forall g a dev,
          roce_add_gid port g a d' = Some (- ENOSYS, d')
          /\ roce_del_gid port g a d' = Some (- ENOSYS, d')
          /\ roce_del_all_netdev_gids port dev d' = Some (- ENOSYS, d')).
Proof.
  intros Ht Hlen Hport Hc.
  destruct (set_active_state_run d tbl cnt act Ht Hlen)
    as (tbl' & Hrun & Hl & Hnew & _).
  apply table_of_inv in Hc as (tbl0 & Ht0 & Hp & Hlk).
  rewrite Ht in Ht0. simplify_eq.
  eexists. split; [exact Hrun|]. simpl. split; [done|]. split; [done|].
  assert (Hc' : table_of (with_cache_array d (Some tbl')) port
                = Some {| active := act; data_vec := data_vec c |}).
  { unfold table_of. simpl. rewrite Hp.
    erewrite (Hnew (port - 1)); [|lia|done]. done. }
  split; [done|]. split.
  - unfold roce_gid_cache_is_active.
    erewrite bind_run by by eapply cache_array_is_null_run. cbv beta iota.
    erewrite bind_run by by eapply port_cache_run. cbv beta iota. done.
  - intros -> g a dev. split_and!.
    + by eapply add_gid_inactive.
    + by eapply del_gid_inactive.
    + by eapply del_all_inactive.
Qed.

Lemma ref_delta_app dev evs evs' :
  ref_delta dev (evs ++ evs') = ref_delta dev evs + ref_delta dev evs'.
Proof.
  induction evs as [|e evs IH]; [done|]. destruct e; simpl; lia.
Qed.

Lemma free_ports_run dev n : forall k d tbl,
  dev <> 0 ->
  0 <= k ->
  roce_gid_cache d = Some tbl ->
  (Z.to_nat k + n <= length tbl)%nat ->
  exists evs,
    free_ports (seqZ k (Z.of_nat n)) d = Some (tt, logged d evs)
    /\ ref_delta dev evs = - refs_in_tables dev (take n (drop (Z.to_nat k) tbl)).
Proof.
  induction n as [|n IH]; intros k d tbl Hdev Hk Ht Hlen.
  { exists []. split; [|done]. simpl. unfold ret, logged.
    rewrite app_nil_r. by destruct d. }
  rewrite Nat2Z.inj_succ, seqZ_cons by lia. rewrite Z.pred_succ. simpl free_ports.
  destruct (lookup_lt_is_Some_2 tbl (Z.to_nat k)) as [c Hc]; [lia|].
  erewrite bind_run by by eapply load_cache_ptr_run. cbv beta.
  assert (Hfree : exists evs,
            free_roce_gid_cache c d = Some (tt, logged d evs)
            /\ ref_delta dev evs
               = - from_option (fun c => refs_in_vec dev (data_vec c)) 0 c).
  { destruct c as [c|]; simpl.
    - destruct (put_devices_run (data_vec c) d dev Hdev) as (evs & Hr & Hd & _).
      eauto.
    - exists []. split; [|done]. unfold ret, logged.
      rewrite app_nil_r. by destruct d. }
  destruct Hfree as (evs1 & Hrun1 & Hd1).
  erewrite bind_run by exact Hrun1. cbv beta.
  destruct (IH (Z.succ k) (logged d evs1) tbl) as (evs2 & Hrun2 & Hd2);
    [done|lia|done|lia|].
  exists (evs1 ++ evs2). rewrite Hrun2, logged_logged. split; [done|].
  rewrite ref_delta_app, Hd1, Hd2.
  rewrite (drop_S tbl c (Z.to_nat k)) by done. simpl.
  replace (Z.to_nat (Z.succ k)) with (S (Z.to_nat k)) by lia. lia.
Qed.

(** X15: [roce_gid_cache_cleanup_one] gives back every device
    reference the tables stand for.  On an array of [phys_port_cnt]
    table pointers it leaves a NULL array without calling the driver,
    and for every device the references taken minus the references
    dropped come to minus the number of slots that name the device. *)
Theorem roce_gid_cache_cleanup_one_releases d tbl cnt dev :
  roce_gid_cache d = Some tbl ->
  length tbl = Z.to_nat cnt ->
  dev <> 0 ->
  exists d',
    roce_gid_cache_cleanup_one cnt d = Some (tt, d')
    /\ roce_gid_cache d' = None
    /\ hw d' = hw d
    /\ ref_delta dev (new_events d d') = - refs_in_tables dev tbl.
Proof.
  intros Ht Hlen Hdev. unfold roce_gid_cache_cleanup_one.
  erewrite bind_run by by eapply cache_array_is_null_present. cbv beta iota.
  rewrite (seqZ_to_nat cnt).
  destruct (free_ports_run dev (Z.to_nat cnt) 0 d tbl) as (evs & Hrun & Hd);
    [done|lia|done|lia|].
  erewrite bind_run by exact Hrun. cbv beta.
  eexists. split; [reflexivity|]. simpl. split_and!; [done..|].
  unfold new_events. simpl. rewrite drop_app_length, Hd.
  change (Z.to_nat 0) with 0%nat. rewrite drop_0, <- Hlen. by rewrite firstn_all.
Qed.

(** X16: the first [roce_add_gid] after a successful
    [roce_gid_cache_client_setup_one].  On a port whose table has no
    slot it returns [-ENOSPC]; otherwise, the driver accepting, it
    returns 0 and stores the GID in slot 0 under version 2. *)
Theorem first_add_after_client_setup d cnt len port g a ctx h' :
  1 <= port <= cnt ->
  g <> zgid ->
  modify_gid (hw d) port 0 g a 0 = (0, ctx, h') ->
  exists d1,
    roce_gid_cache_client_setup_one true cnt len true (fun _ => true) true d
      = Some (true, d1)
    /\ match len (port - 1) with
       | O => roce_add_gid port g a d1
              = Some (- ENOSPC, logged d1 [EvMutexLock port; EvMutexUnlock port])
       | S _ => exists d2,
           roce_add_gid port g a d1 = Some (0, d2)
           /\ slot d2 port 0
              = Some {| seq := 2; gid := g; attr := a; context := ctx |}
       end.
Proof.
  intros Hport Hg Hm.
  destruct (setup_one_cases true cnt len true (fun _ => true) d)
    as (r & d0 & Hrun & Hhw & Htr & Hcase).
  destruct Hcase as [(_ & [=] & _)|[(_ & _ & [[=]|(p & _ & [=])] & _)|(-> & _ & _ & _ & tbl & Ht & Hl & Hnew)]].
  destruct (set_active_state_run d0 tbl cnt true)
    as (tbl' & Hrun' & Hl' & Hnew' & _); [done|lia|].
  exists (with_cache_array d0 (Some tbl')). split.
  { unfold roce_gid_cache_client_setup_one.
    erewrite bind_run by exact Hrun. cbv beta. simpl.
    erewrite bind_run by exact Hrun'. done. }
  set (d1 := with_cache_array d0 (Some tbl')).
  set (c := {| active := true; data_vec := replicate (len (port - 1)) zero_entry |}).
  assert (Hc : table_of d1 port = Some c).
  { unfold table_of. simpl. destruct (Z.ltb_spec port 1); [lia|].
    erewrite (Hnew' (port - 1)); [|lia|apply Hnew; lia]. done. }
  assert (Hnone : forall j e', data_vec c !! j = Some e' -> ~ same_gid_and_type g a e').
  { intros j e' [-> _]%lookup_replicate (_ & _ & Hz). simpl in Hz. congruence. }
  destruct (len (port - 1)) as [|n] eqn:Hlen.
  - erewrite add_gid_steps by done.
    pose proof (list_find_quiescent
      (fun s => slot_qualifies s g a roce_gid_type_msk) (data_vec c)) as Hq.
    destruct (list_find _ (quiescent <$> data_vec c)) as [[i s]|]; [|done].
    destruct Hq as (e & _ & Hi & _). done.
  - destruct (add_gid_writes_lowest_empty d1 port c g a 0 zero_entry)
      as (r & ctx' & h'' & Hm' & Hadd); [done|done|done|done| | |].
    { split; [|done]. simpl. unfold SEQ_INVALID. rewrite UINT_MODULUS_value. lia. }
    { intros; lia. }
    unfold d1 in Hm'. simpl in Hm'. change (Z.of_nat 0) with 0 in Hm'.
    rewrite Hhw, Hm in Hm'. simplify_eq.
    eexists. split; [exact Hadd|].
    erewrite slot_updated; [done|done|lia|]. simpl. lia.
Qed.

(** ** One [write_gid] and a reader next to it *)

Lemma write_gid_in_steps port ix g a d :
  write_gid port ix g a d = write_gid_stepwise port ix g a d.
Proof.
  unfold write_gid, write_gid_stepwise, write_gid_invalidate, write_gid_update,
    write_gid_publish.
  unfold bind, ret. simpl.
  destruct (load_entry port ix _) as [[e d1]|]; [|done].
  destruct (store_entry port ix _ d1) as [[[] d2]|]; [|done].
  unfold call_modify_gid.
  destruct (modify_gid (hw d2) port ix g a (context e)) as [[r ctx] h'].
  destruct (when _ _ _) as [[[] d3]|]; [|done].
  destruct (r =? 0) eqn:Hr;
    (destruct (store_entry port ix _ d3) as [[[] d4]|]; [|done]);
    (destruct (when _ _ d4) as [[[] d5]|]; [|done]);
    simpl; rewrite Hr; simpl;
    by destruct (store_entry port ix _ d5) as [[[] d6]|].
Qed.


Lemma store_entry_run d port ix c e e' :
  table_of d port = Some c ->
  0 <= ix ->
  data_vec c !! Z.to_nat ix = Some e ->
  store_entry port ix e' d
    = Some (tt, updated d port (set_slot c ix e') (hw d) []).
Proof.
  intros (tbl & Ht & Hp & Hl)%table_of_inv Hix He.
  assert (Hlt : (Z.to_nat ix < length (data_vec c))%nat) by by eapply lookup_lt_Some.
  assert (Hix' : (ix <? 0) = false) by lia.
  unfold store_entry, updated. rewrite Ht, Hp, Hix', Hl. simpl.
  rewrite decide_True by done. by rewrite app_nil_r.
Qed.

Lemma updated_updated d port c c' h h' evs evs' :
  updated (updated d port c h evs) port c' h' evs'
  = updated d port c' h' (evs ++ evs').
Proof.
  unfold updated. simpl. f_equal; [|by rewrite app_assoc].
  destruct (roce_gid_cache d) as [tbl|]; simpl; [|done].
  by rewrite list_insert_insert_eq.
Qed.

Lemma set_slot_set_slot c ix e e' :
  set_slot (set_slot c ix e) ix e' = set_slot c ix e'.
Proof. unfold set_slot. simpl. by rewrite list_insert_insert_eq. Qed.

Lemma set_slot_some c ix e e' :
  data_vec c !! Z.to_nat ix = Some e ->
  data_vec (set_slot c ix e') !! Z.to_nat ix = Some e'.
Proof.
  intros He. simpl. apply list_lookup_insert_eq. by eapply lookup_lt_Some.
Qed.

(** X17: [write_gid] keeps its slot in flight while it works on it.
    The function is the sequence of its three parts between the write
    barriers; on a slot that exists each part completes; after the
    first the slot carries the in-flight version over its old content,
    after the second the in-flight version over its new content, and
    only the third stores the next version. *)
Theorem write_gid_slot_in_flight d port ix g a e :
  slot d port ix = Some e ->
  exists d1 r e2 d2 d3,
    write_gid_invalidate port ix (logged d [EvWriteGid port ix g a]) = Some (e, d1)
    /\ write_gid_update port ix g a e d1 = Some ((r, e2), d2)
    /\ write_gid_publish port ix (seq e) r e2 d2 = Some (r, d3)
    /\ write_gid port ix g a d = Some (r, d3)
    /\ slot d1 port ix
       = Some {| seq := SEQ_INVALID; gid := gid e; attr := attr e;
                 context := context e |}
    /\ slot d2 port ix = Some e2
    /\ seq e2 = SEQ_INVALID
    /\ slot d3 port ix
       = Some {| seq := publish_seq (seq e); gid := gid e2; attr := attr e2;
                 context := context e2 |}.
Proof.
  intros He. unfold slot in He.
  destruct (table_of d port) as [c|] eqn:Hc; simpl in He; [|done].
  destruct (Z.ltb_spec ix 0) as [|Hix]; [done|].
  assert (Hlt : (Z.to_nat ix < length (data_vec c))%nat) by by eapply lookup_lt_Some.
  set (e1 := {| seq := SEQ_INVALID; gid := gid e; attr := attr e;
                context := context e |}).
  set (d0 := logged d [EvWriteGid port ix g a]).
  assert (Hc0 : table_of d0 port = Some c) by exact Hc.
  set (d1 := updated d0 port (set_slot c ix e1) (hw d0) []).
  assert (H1 : write_gid_invalidate port ix d0 = Some (e, d1)).
  { unfold write_gid_invalidate.
    erewrite bind_run by (eapply load_entry_run; [exact Hc0|done..]).
    cbv beta.
    erewrite bind_run by (eapply store_entry_run; [exact Hc0|done..]).
    done. }
  assert (Hc1 : table_of d1 port = Some (set_slot c ix e1)).
  { eapply table_of_updated. exact Hc0. }
  destruct (modify_gid (hw d) port ix g a (context e)) as [[r ctx] h'] eqn:Hm.
  set (old := ndev (attr e)).
  set (new := if r =? 0 then (g, a, ctx) else (zgid, zattr, 0)).
  set (e2 := {| seq := SEQ_INVALID; gid := new.1.1; attr := new.1.2;
                context := new.2 |}).
  assert (H2 : exists d2,
    write_gid_update port ix g a e d1 = Some ((r, e2), d2)
    /\ table_of d2 port = Some (set_slot c ix e2)).
  { unfold write_gid_update.
    assert (Hcall : call_modify_gid port ix g a (context e) d1
              = Some ((r, ctx), updated d0 port (set_slot c ix e1) h' [])).
    { unfold call_modify_gid. simpl. rewrite Hm. done. }
    erewrite bind_run by exact Hcall. cbv beta iota.
    set (dm := updated d0 port (set_slot c ix e1) h' []).
    assert (Hcm : table_of dm port = Some (set_slot c ix e1)).
    { eapply table_of_updated. exact Hc0. }
    fold old. fold new.
    assert (Hput : exists evs, when (negb (old =? 0) && negb (old =? ndev a))
                     (emit (EvDevPut old)) dm = Some (tt, logged dm evs)).
    { destruct (negb (old =? 0) && negb (old =? ndev a)); simpl.
      - eexists. apply emit_run.
      - exists []. unfold ret, logged. rewrite app_nil_r. by destruct dm. }
    destruct Hput as (evs1 & Hput).
    erewrite bind_run by exact Hput. cbv beta.
    destruct new as [[g' a'] ctx'] eqn:Hnew. cbv beta iota.
    erewrite bind_run.
    2:{ eapply store_entry_run; [rewrite table_of_logged; exact Hcm|done|].
        by eapply set_slot_some. }
    cbv beta.
    set (ds := updated (logged dm evs1) port _ _ []).
    assert (Hcs : table_of ds port = Some (set_slot c ix e2)).
    { unfold ds. erewrite table_of_updated by (rewrite table_of_logged; exact Hcm).
      by rewrite set_slot_set_slot. }
    destruct (negb (ndev a' =? 0) && negb (ndev a' =? old)); simpl.
    - erewrite bind_run by apply emit_run. eexists. split; [done|].
      by rewrite table_of_logged.
    - unfold bind, ret. simpl. eexists. split; [done|]. done. }
  destruct H2 as (d2 & H2 & Hc2).
  assert (H3 : exists d3,
    write_gid_publish port ix (seq e) r e2 d2 = Some (r, d3)
    /\ table_of d3 port
       = Some (set_slot c ix {| seq := publish_seq (seq e); gid := gid e2;
                                attr := attr e2; context := context e2 |})).
  { unfold write_gid_publish.
    erewrite bind_run.
    2:{ eapply store_entry_run; [done|done|]. by eapply set_slot_some. }
    cbv beta.
    set (ds := updated d2 port _ _ []).
    assert (Hcs : table_of ds port
              = Some (set_slot c ix {| seq := publish_seq (seq e); gid := gid e2;
                                       attr := attr e2; context := context e2 |})).
    { unfold ds. erewrite table_of_updated by done. by rewrite set_slot_set_slot. }
    destruct (r =? 0); simpl.
    - erewrite bind_run by apply emit_run. eexists. split; [done|].
      by rewrite table_of_logged.
    - unfold bind, ret. simpl. eexists. split; [done|]. done. }
  destruct H3 as (d3 & H3 & Hc3).
  exists d1, r, e2, d2, d3. split_and!; [done..| | | |done|].
  - rewrite write_gid_in_steps. unfold write_gid_stepwise.
    erewrite bind_run by apply emit_run. cbv beta. fold d0.
    erewrite bind_run by exact H1. cbv beta.
    erewrite bind_run by exact H2. done.
  - unfold slot. rewrite Hc1. simpl. destruct (Z.ltb_spec ix 0); [lia|].
    by eapply set_slot_some.
  - unfold slot. rewrite Hc2. simpl. destruct (Z.ltb_spec ix 0); [lia|].
    by eapply set_slot_some.
  - unfold slot. rewrite Hc3. simpl. destruct (Z.ltb_spec ix 0); [lia|].
    by eapply set_slot_some.
Qed.

Lemma sees_one_write_cases e0 e3 (s : slot_obs) :
  sees_one_write e0 e3 s ->
  seq e0 <> seq e3 ->
  seq (s LdSeq) <> SEQ_INVALID ->
  seq (s LdSeqAgain) = seq (s LdSeq) ->
  (forall ld, s ld = e0) \/ (forall ld, s ld = e3).
Proof.
  intros (ph & Hord & Hview) Hne Hvalid Hsame.
  pose proof (Hview LdSeq) as H1. pose proof (Hview LdSeqAgain) as H2.
  destruct (ph LdSeq) eqn:P1; [|done|].
  - destruct (ph LdSeqAgain) eqn:P2.
    + left. intros ld. pose proof (Hview ld) as H. pose proof (Hord ld) as [_ Hle].
      rewrite ?P2 in Hle. destruct (ph ld); simpl in Hle; [done|lia..].
    + rewrite H1 in Hvalid, Hsame. congruence.
    + rewrite H1, H2 in Hsame. congruence.
  - right. intros ld. pose proof (Hview ld) as H. pose proof (Hord ld) as [Hle _].
    rewrite ?P1 in Hle. destruct (ph ld); simpl in Hle; [lia..|done].
Qed.

Lemma write_gid_changes_seq d port ix g a e0 r d' e3 :
  slot d port ix = Some e0 ->
  0 <= seq e0 < UINT_MODULUS ->
  write_gid port ix g a d = Some (r, d') ->
  slot d' port ix = Some e3 ->
  seq e0 <> seq e3.
Proof.
  intros He0 Hseq Hw He3.
  destruct (write_gid_slots d port ix g a e0 He0)
    as (r' & ctx & h' & d'' & _ & Hw' & He3' & _).
  rewrite Hw in Hw'. injection Hw' as <- <-. rewrite He3 in He3'.
  injection He3' as ->. rewrite seq_written_entry. intros Heq. by eapply publish_seq_changes.
Qed.

(** X18: [roce_gid_cache_get_gid] next to one [write_gid] on the slot
    it reads never returns a mix.  Whatever the reader sees of the
    slot while the write takes it from [e0] to [e3], the call fails
    with [-EAGAIN] leaving the caller's buffers alone, or returns 0
    with the GID and the attributes of [e0], or returns 0 with those
    of [e3]. *)
Theorem get_gid_beside_one_write d port ix g a e0 r d' e3 (s : slot_obs)
    (tbl : list (option cache_obs)) (c : cache_obs) rport index gid_buf attr_buf :
  slot d port ix = Some e0 ->
  0 <= seq e0 < UINT_MODULUS ->
  write_gid port ix g a d = Some (r, d') ->
  slot d' port ix = Some e3 ->
  sees_one_write e0 e3 s ->
  1 <= rport ->
  tbl !! Z.to_nat (rport - 1) = Some (Some c) ->
  obs_active c = true ->
  0 <= index ->
  obs_vec c !! Z.to_nat index = Some s ->
  roce_gid_cache_get_gid (Some tbl) rport index gid_buf attr_buf
    = Some (- EAGAIN, gid_buf, attr_buf)
  \/ roce_gid_cache_get_gid (Some tbl) rport index gid_buf attr_buf
     = Some (0, gid e0, (fun _ => attr e0) <$> attr_buf)
  \/ roce_gid_cache_get_gid (Some tbl) rport index gid_buf attr_buf
     = Some (0, gid e3, (fun _ => attr e3) <$> attr_buf).
Proof.
  intros He0 Hseq Hw He3 Hsees Hport Hc Hact Hix Hs.
  pose proof (write_gid_changes_seq _ _ _ _ _ _ _ _ _ He0 Hseq Hw He3) as Hne.
  apply lookup_lt_Some in Hs as Hlt.
  unfold roce_gid_cache_get_gid.
  destruct (Z.ltb_spec rport 1); [lia|]. rewrite Hc. cbn [mbind option_bind].
  rewrite Hact. cbn [negb].
  destruct (Z.ltb_spec index 0); [lia|].
  destruct (Z.leb_spec (Z.of_nat (length (obs_vec c))) index); [lia|]. cbn [orb].
  match goal with
  | |- context [?x ≫= _] => destruct x as [s'|] eqn:Hs'
  end.
  2:{ pose proof (eq_trans (eq_sym Hs') Hs). done. }
  assert (Some s' = Some s) as [= ->] by exact (eq_trans (eq_sym Hs') Hs).
  cbn [mbind option_bind].
  destruct (Z.eqb_spec (seq (s LdSeq)) SEQ_INVALID) as [|Hvalid]; [by left|].
  destruct (Z.eqb_spec (seq (s LdSeq)) (seq (s LdSeqAgain))) as [Hsame|];
    [|by left]. simpl.
  destruct (sees_one_write_cases e0 e3 s Hsees Hne Hvalid) as [Hall|Hall];
    [done| |]; rewrite !Hall; [right; left|right; right]; by destruct attr_buf.
Qed.

(** X19: [find_gid] next to one [write_gid] never matches a mix.  A
    slot the scan accepts while the write takes it from [e0] to [e3]
    is accepted as well when it holds [e0] and nobody writes, or when
    it holds [e3] and nobody writes. *)
Theorem find_gid_beside_one_write d port ix g a e0 r d' e3 (s : slot_obs)
    g' v msk :
  slot d port ix = Some e0 ->
  0 <= seq e0 < UINT_MODULUS ->
  write_gid port ix g a d = Some (r, d') ->
  slot d' port ix = Some e3 ->
  sees_one_write e0 e3 s ->
  find_gid_slot s g' (Some v) msk = Some true ->
  find_gid_slot (quiescent e0) g' (Some v) msk = Some true
  \/ find_gid_slot (quiescent e3) g' (Some v) msk = Some true.
Proof.
  intros He0 Hseq Hw He3 Hsees Hfind.
  pose proof (write_gid_changes_seq _ _ _ _ _ _ _ _ _ He0 Hseq Hw He3) as Hne.
  rewrite !find_gid_slot_val in *. simplify_eq.
  apply bool_decide_eq_true in Hfind.
  destruct Hfind as (Hvalid & Hty & Hg & Hnd & Hsame).
  destruct (sees_one_write_cases e0 e3 s Hsees Hne Hvalid Hsame) as [Hall|Hall];
    [left|right]; f_equal; apply bool_decide_eq_true;
    rewrite !Hall in *; unfold slot_qualifies, quiescent; done.
Qed.

(** ** [update_gid] and the GIDs of IP addresses *)

Lemma add_gid_outcome d port c g a :
  table_of d port = Some c ->
  active c = true ->
  exists r d' c',
    roce_add_gid port g a d = Some (r, d')
    /\ table_of d' port = Some c'
    /\ active c' = true
    /\ forall j e', slot d' port j = Some e' ->
         slot d port j = Some e' \/ attr e' = a \/ attr e' = zattr.
Proof.
  intros Hc Hact. rewrite (add_gid_steps d port c g a Hc Hact).
  destruct (list_find _ _) as [[i s]|] eqn:Hf.
  { eexists _, _, c. split; [done|]. split; [done|]. split; [done|]. auto. }
  destruct (list_find (fun s => slot_is_free _ _) _) as [[i s]|] eqn:Hf2.
  2:{ eexists _, _, c. split; [done|]. split; [done|]. split; [done|]. auto. }
  apply list_find_quiescent_lt in Hf2.
  destruct (lookup_lt_is_Some_2 (data_vec c) i Hf2) as [e He].
  destruct (write_gid_slots (logged d [EvMutexLock port]) port (Z.of_nat i) g a e)
    as (r & ctx & h' & d1 & _ & Hw & Hi & Hother & (c0 & c1 & Hc0 & Hc1 & Ha1 & _) & _).
  { rewrite slot_logged. by erewrite slot_lookup. }
  rewrite Hw. rewrite table_of_logged, Hc in Hc0. simplify_eq.
  eexists _, _, c1. split; [done|]. split; [done|]. split; [congruence|].
  intros j e' Hj. rewrite slot_logged in Hj.
  destruct (decide (j = Z.of_nat i)) as [->|Hne].
  - rewrite Hi in Hj. simplify_eq. right. unfold written_entry.
    destruct (r =? 0); auto.
  - left. rewrite Hother in Hj by done. by rewrite slot_logged in Hj.
Qed.

Lemma del_gid_outcome d port c g a :
  table_of d port = Some c ->
  active c = true ->
  exists r d' c',
    roce_del_gid port g a d = Some (r, d')
    /\ table_of d' port = Some c'
    /\ active c' = true
    /\ forall j e', slot d' port j = Some e' ->
         slot d port j = Some e' \/ attr e' = a \/ attr e' = zattr.
Proof.
  intros Hc Hact. rewrite (del_gid_steps d port c g a Hc Hact).
  case_bool_decide.
  { eexists _, _, c. split; [done|]. split; [done|]. split; [done|]. auto. }
  destruct (list_find _ _) as [[i s]|] eqn:Hf.
  2:{ eexists _, _, c. split; [done|]. split; [done|]. split; [done|]. auto. }
  apply list_find_quiescent_lt in Hf.
  destruct (lookup_lt_is_Some_2 (data_vec c) i Hf) as [e He].
  destruct (write_gid_slots (logged d [EvMutexLock port]) port (Z.of_nat i)
              zgid zattr e)
    as (r & ctx & h' & d1 & _ & Hw & Hi & Hother & (c0 & c1 & Hc0 & Hc1 & Ha1 & _) & _).
  { rewrite slot_logged. by erewrite slot_lookup. }
  rewrite Hw. rewrite table_of_logged, Hc in Hc0. simplify_eq.
  eexists _, _, c1. split; [done|]. split; [done|]. split; [congruence|].
  intros j e' Hj. rewrite slot_logged in Hj.
  destruct (decide (j = Z.of_nat i)) as [->|Hne].
  - rewrite Hi in Hj. simplify_eq. right. right. unfold written_entry.
    by destruct (r =? 0).
  - left. rewrite Hother in Hj by done. by rewrite slot_logged in Hj.
Qed.

Lemma update_gid_loop_outcome gid_op port g mask types : forall a d c,
  table_of d port = Some c ->
  active c = true ->
  exists a' d' c',
    update_gid_loop gid_op port g a mask types d = Some (a', d')
    /\ table_of d' port = Some c'
    /\ active c' = true
    /\ forall j e', slot d' port j = Some e' ->
         slot d port j = Some e' \/ ndev (attr e') = ndev a \/ ndev (attr e') = 0.
Proof.
  induction types as [|i types IH]; intros a d c Hc Hact.
  { exists a, d, c. split; [done|]. split; [done|]. split; [done|]. auto. }
  simpl update_gid_loop.
  destruct (negb (Z.land (ulong (Z.shiftl 1 i)) mask =? 0)); [|by eapply IH].
  set (a1 := {| gid_type := i; ndev := ndev a |}).
  assert (Hstep : exists r d1 c1,
    match gid_op with
    | GID_ADD => roce_add_gid port g a1
    | GID_DEL => roce_del_gid port g a1
    end d = Some (r, d1)
    /\ table_of d1 port = Some c1 /\ active c1 = true
    /\ forall j e', slot d1 port j = Some e' ->
         slot d port j = Some e' \/ attr e' = a1 \/ attr e' = zattr).
  { destruct gid_op; [by eapply del_gid_outcome|by eapply add_gid_outcome]. }
  destruct Hstep as (r & d1 & c1 & Hrun & Hc1 & Hact1 & Hslots).
  erewrite bind_run by exact Hrun. cbv beta.
  destruct (IH a1 d1 c1 Hc1 Hact1) as (a' & d' & c' & Hrun' & Hc' & Hact' & Hslots').
  exists a', d', c'. split; [done|]. split; [done|]. split; [done|].
  intros j e' Hj. destruct (Hslots' j e' Hj) as [Hold|Hnew]; [|by right].
  destruct (Hslots j e' Hold) as [?|[->| ->]]; auto.
Qed.

(** X21: the GIDs [update_gid_ip] stores name no device, so the
    removal of a device leaves them in place.  On an active table the
    call completes, every slot it changed carries a NULL device, and a
    following [roce_del_all_netdev_gids] for the device the call was
    made for, as [del_netdev_ips] issues it, returns 0 and keeps each
    of those slots as it is. *)
Theorem update_gid_ip_stores_no_device d port c gid_op dev g mask :
  table_of d port = Some c ->
  active c = true ->
  dev <> 0 ->
  exists d1 d2,
    update_gid_ip gid_op port dev g mask d = Some (tt, d1)
    /\ roce_del_all_netdev_gids port dev d1 = Some (0, d2)
    /\ forall j e1, slot d1 port j = Some e1 -> slot d port j <> Some e1 ->
         ndev (attr e1) = 0 /\ slot d2 port j = Some e1.
Proof.
  intros Hc Hact Hdev. unfold update_gid_ip, update_gid.
  destruct (update_gid_loop_outcome gid_op port g mask (indices IB_GID_TYPE_SIZE)
              {| gid_type := 0; ndev := 0 |} d c Hc Hact)
    as (a' & d1 & c1 & Hrun & Hc1 & Hact1 & Hslots).
  destruct (del_all_netdev_gids_run d1 port c1 dev Hc1 Hact1)
    as (d2 & Hdel & _ & Hkeep & _).
  exists d1, d2. erewrite bind_run by exact Hrun. split; [done|]. split; [done|].
  intros j e1 Hj Hchanged.
  assert (Hz : ndev (attr e1) = 0).
  { destruct (Hslots j e1 Hj) as [?|[?|?]]; done. }
  split; [done|]. apply Hkeep; [done|congruence].
Qed.

End Device.

Arguments table_of {hw_state}.
Arguments slot {hw_state}.
Arguments updated {hw_state}.
Arguments logged {hw_state}.
Arguments write_gid {hw_state}.
Arguments seq_after_write {hw_state}.
Arguments find_gid_locked {hw_state}.
Arguments roce_add_gid {hw_state}.
Arguments roce_del_gid {hw_state}.
Arguments roce_del_all_netdev_gids {hw_state}.
Arguments roce_gid_cache_set_default_gid {hw_state}.
Arguments set_default_by_type {hw_state}.

Arguments observe {hw_state}.
Arguments new_events {hw_state}.
Arguments write_gid_invalidate {hw_state}.
Arguments write_gid_update {hw_state}.
Arguments write_gid_publish {hw_state}.
Arguments roce_gid_cache_setup_one {hw_state}.
Arguments roce_gid_cache_cleanup_one {hw_state}.
Arguments roce_gid_cache_set_active_state {hw_state}.
Arguments roce_gid_cache_is_active {hw_state}.
Arguments roce_gid_cache_client_setup_one {hw_state}.
Arguments update_gid_ip {hw_state}.

(** * Properties of [roce_gid_mgmt.c] *)

(** The same parameters as in [GidMgmt]'s section [Notifier]. *)
Section NotifierFacts.

Import GidMgmt.

Variables NETDEV_UP NETDEV_REGISTER NETDEV_UNREGISTER NETDEV_CHANGEADDR : Z.
Variable NETREG_UNREGISTERED : Z.

Local Abbreviation netdevice_event :=
  (GidMgmt.netdevice_event NETDEV_UP NETDEV_REGISTER NETDEV_UNREGISTER
     NETDEV_CHANGEADDR NETREG_UNREGISTERED).
Local Abbreviation distinct_events :=
  (GidMgmt.distinct_events NETDEV_UP NETDEV_REGISTER NETDEV_UNREGISTER
     NETDEV_CHANGEADDR).

Ltac decide_event :=
  repeat match goal with
         | |- context [?a =? ?b] =>
             destruct (Z.eqb_spec a b); try congruence; simpl
         end.

(** C9: with the work item allocated, a registered or brought-up
    interface queues a work item with the add command alone; an
    unregistered interface whose [reg_state] is below
    [NETREG_UNREGISTERED] queues one with the delete command alone; a
    changed address queues one with the delete command followed by the
    add command, which the worker runs in that order; every other
    notification queues nothing. *)
Theorem netdevice_event_resolution event dev reg_state :
  distinct_events ->
  (event = NETDEV_REGISTER \/ event = NETDEV_UP ->
   netdevice_event event dev reg_state true
     = (NOTIFY_DONE, Some {| cmds := [add_cmd; zero_cmd]; ndev := dev |})
   /\ netdevice_event_work_handler {| cmds := [add_cmd; zero_cmd]; ndev := dev |}
      = [RtnlLock; EnumRocePorts dev (Some is_eth_port_of_netdev) add_netdev_ips;
         RtnlUnlock; DevPut dev; Kfree])
  /\ (event = NETDEV_UNREGISTER -> reg_state < NETREG_UNREGISTERED ->
      netdevice_event event dev reg_state true
        = (NOTIFY_DONE, Some {| cmds := [del_cmd; zero_cmd]; ndev := dev |})
      /\ netdevice_event_work_handler {| cmds := [del_cmd; zero_cmd]; ndev := dev |}
         = [RtnlLock; EnumRocePorts dev (Some pass_all_filter) del_netdev_ips;
            RtnlUnlock; DevPut dev; Kfree])
  /\ (event = NETDEV_CHANGEADDR ->
      netdevice_event event dev reg_state true
        = (NOTIFY_DONE, Some {| cmds := [del_cmd; add_cmd]; ndev := dev |})
      /\ netdevice_event_work_handler {| cmds := [del_cmd; add_cmd]; ndev := dev |}
         = [RtnlLock; EnumRocePorts dev (Some pass_all_filter) del_netdev_ips;
            RtnlUnlock;
            RtnlLock; EnumRocePorts dev (Some is_eth_port_of_netdev) add_netdev_ips;
            RtnlUnlock; DevPut dev; Kfree])
  /\ (event = NETDEV_UNREGISTER -> NETREG_UNREGISTERED <= reg_state ->
      forall kmalloc_ok,
        netdevice_event event dev reg_state kmalloc_ok = (NOTIFY_DONE, None))
  /\ (event <> NETDEV_REGISTER -> event <> NETDEV_UP ->
      event <> NETDEV_UNREGISTER -> event <> NETDEV_CHANGEADDR ->
      forall kmalloc_ok,
        netdevice_event event dev reg_state kmalloc_ok = (NOTIFY_DONE, None))
  /\ netdevice_event event dev reg_state false = (NOTIFY_DONE, None).
Proof.
  intros (H1 & H2 & H3 & H4 & H5). unfold GidMgmt.netdevice_event. split_and!.
  - intros [-> | ->]; (split; [|reflexivity]); decide_event; try reflexivity.
  - intros -> Hreg. split; [|reflexivity]. decide_event.
    destruct (Z.ltb_spec reg_state NETREG_UNREGISTERED); [reflexivity|lia].
  - intros ->. split; [|reflexivity]. decide_event; try reflexivity.
  - intros -> Hreg kmalloc_ok. decide_event.
    destruct (Z.ltb_spec reg_state NETREG_UNREGISTERED); [lia|reflexivity].
  - intros Hn1 Hn2 Hn3 Hn4 kmalloc_ok. decide_event; try reflexivity.
  - destruct ((event =? NETDEV_REGISTER) || (event =? NETDEV_UP)); [done|].
    destruct (event =? NETDEV_UNREGISTER);
      [by destruct (reg_state <? NETREG_UNREGISTERED)|].
    by destruct (event =? NETDEV_CHANGEADDR).
Qed.

Lemma run_cmds_discipline dev cs rest :
  rtnl_discipline false (run_cmds dev cs ++ rest) = rtnl_discipline false rest.
Proof.
  induction cs as [|c cs IH]; [done|]. simpl.
  destruct (cb c) as [f|]; [|done]. simpl. exact IH.
Qed.

Lemma run_cmds_dev_puts dev dev' cs : dev_puts dev' (run_cmds dev cs) = 0%nat.
Proof.
  induction cs as [|c cs IH]; [done|]. simpl.
  destruct (cb c) as [f|]; [|done]. simpl. exact IH.
Qed.

Lemma dev_puts_app dev acts acts' :
  dev_puts dev (acts ++ acts') = (dev_puts dev acts + dev_puts dev acts')%nat.
Proof.
  induction acts as [|a acts IH]; [done|]. destruct a; simpl; lia.
Qed.

Lemma enum_calls_app dev acts acts' :
  enum_calls dev (acts ++ acts') = enum_calls dev acts ++ enum_calls dev acts'.
Proof.
  induction acts as [|a acts IH]; [done|]. destruct a; simpl; try done.
  destruct (dev0 =? dev); simpl; by rewrite IH.
Qed.

Lemma run_cmds_enum_calls dev cs :
  (length (enum_calls dev (run_cmds dev cs)) <= length cs)%nat
  /\ Forall (fun fc => exists c, c ∈ cs /\ filter c = fc.1 /\ cb c = Some fc.2)
            (enum_calls dev (run_cmds dev cs)).
Proof.
  induction cs as [|c cs [IHl IHf]]; [by split|]. simpl.
  destruct (cb c) as [f|] eqn:Hcb; simpl; [|split; [lia|done]].
  rewrite Z.eqb_refl. simpl. split; [lia|]. constructor.
  - exists c. split; [apply list_elem_of_here|done].
  - eapply Forall_impl; [exact IHf|]. intros fc (c' & Hin & H).
    exists c'. split; [by apply list_elem_of_further|done].
Qed.

(** X20: [netdevice_event_work_handler], whatever the work item
    holds.  It takes and releases [rtnl] around every enumeration of
    ports and ends with the lock free; it enumerates at most
    [ROCE_NETDEV_CALLBACK_SZ] times, each time with the filter and the
    callback of one command of the item; it drops exactly one
    reference on the device of the item, and the [kfree] of the item
    comes last. *)
Theorem netdevice_event_work_handler_discipline work :
  rtnl_discipline false (netdevice_event_work_handler work) = true
  /\ (length (enum_calls (ndev work) (netdevice_event_work_handler work))
      <= ROCE_NETDEV_CALLBACK_SZ)%nat
  /\ Forall (fun fc => exists c, c ∈ cmds work /\ filter c = fc.1 /\ cb c = Some fc.2)
            (enum_calls (ndev work) (netdevice_event_work_handler work))
  /\ dev_puts (ndev work) (netdevice_event_work_handler work) = 1%nat
  /\ last (netdevice_event_work_handler work) = Some Kfree.
Proof.
  unfold netdevice_event_work_handler. split_and!.
  - by rewrite run_cmds_discipline.
  - rewrite enum_calls_app. simpl. rewrite app_nil_r.
    destruct (run_cmds_enum_calls (ndev work)
                (take ROCE_NETDEV_CALLBACK_SZ (cmds work))) as [Hl _].
    rewrite length_take in Hl. lia.
  - rewrite enum_calls_app. simpl. rewrite app_nil_r.
    destruct (run_cmds_enum_calls (ndev work)
                (take ROCE_NETDEV_CALLBACK_SZ (cmds work))) as [_ Hf].
    eapply Forall_impl; [exact Hf|]. intros fc (c & Hin & H).
    exists c. split; [|done]. apply elem_of_take in Hin as (i & Hi & _).
    by eapply list_elem_of_lookup_2.
  - rewrite dev_puts_app, run_cmds_dev_puts. simpl. by rewrite Z.eqb_refl.
  - change [DevPut (ndev work); Kfree] with ([DevPut (ndev work)] ++ [Kfree]).
    rewrite app_assoc. apply last_snoc.
Qed.

(** X22: a work item that [netdevice_event] queued makes the worker
    enumerate the ports of the notified device once or twice, whatever
    the numbers of the events are: never a work item without work,
    never for another device. *)
Theorem queued_work_enumerates event dev reg_state kmalloc_ok r work :
  netdevice_event event dev reg_state kmalloc_ok = (r, Some work) ->
  r = NOTIFY_DONE
  /\ ndev work = dev
  /\ (1 <= length (enum_calls dev (netdevice_event_work_handler work)) <= 2)%nat
  /\ dev_puts dev (netdevice_event_work_handler work) = 1%nat
  /\ rtnl_discipline false (netdevice_event_work_handler work) = true.
Proof.
  unfold GidMgmt.netdevice_event. intros Hq.
  destruct ((event =? NETDEV_REGISTER) || (event =? NETDEV_UP)).
  { destruct kmalloc_ok; simplify_eq. simpl. rewrite !Z.eqb_refl. simpl.
    split_and!; (done || lia). }
  destruct (event =? NETDEV_UNREGISTER).
  { destruct (reg_state <? NETREG_UNREGISTERED); [|simplify_eq].
    destruct kmalloc_ok; simplify_eq. simpl. rewrite !Z.eqb_refl. simpl.
    split_and!; (done || lia). }
  destruct (event =? NETDEV_CHANGEADDR); [|simplify_eq].
  destruct kmalloc_ok; simplify_eq. simpl. rewrite !Z.eqb_refl. simpl.
  split_and!; (done || lia).
Qed.

End NotifierFacts.

Section AddrFacts.

Import GidAddr.

Variables AF_INET AF_INET6 : Z.
Variables NETDEV_UP NETDEV_DOWN : Z.
Variable ipv6_enabled : bool.
Variable rdma_ip2gid : Z -> list byte -> ib_gid.

Local Abbreviation addr_event :=
  (GidAddr.addr_event AF_INET AF_INET6 NETDEV_UP NETDEV_DOWN ipv6_enabled
     rdma_ip2gid).

(** X23: [addr_event] returns [NOTIFY_DONE] and either does nothing or
    takes one reference on a device and queues one work item for that
    device, with a zero GID type.  It queues exactly when the family
    is [AF_INET], or [AF_INET6] with IPv6 configured, the event is
    [NETDEV_UP] or [NETDEV_DOWN] and the work item is allocated; the
    device is the one of the address structure of that family, and the
    operation is an addition for [NETDEV_UP] and a deletion
    otherwise. *)
Theorem addr_event_resolution event ifa sa_family kmalloc_ok :
  exists effects,
    addr_event event ifa sa_family kmalloc_ok = (GidMgmt.NOTIFY_DONE, effects)
    /\ (effects = []
        \/ exists w,
             effects
             = [DevHold (if sa_family =? AF_INET then v4_dev ifa else v6_dev ifa);
                QueueWork w]
             /\ work_gid_attr w
                = {| gid_type := 0;
                     ndev := if sa_family =? AF_INET then v4_dev ifa
                             else v6_dev ifa |}
             /\ work_gid w
                = rdma_ip2gid sa_family
                    (if sa_family =? AF_INET then v4_ifa_address ifa
                     else v6_addr ifa)
             /\ work_gid_op w = (if event =? NETDEV_UP then GID_ADD else GID_DEL))
    /\ (effects <> [] <->
        (sa_family = AF_INET \/ (ipv6_enabled = true /\ sa_family = AF_INET6))
        /\ (event = NETDEV_UP \/ event = NETDEV_DOWN)
        /\ kmalloc_ok = true).
Proof.
  unfold GidAddr.addr_event.
  destruct (Z.eqb_spec sa_family AF_INET) as [Hf|Hf]; simpl;
    [|destruct ipv6_enabled; simpl;
      [destruct (Z.eqb_spec sa_family AF_INET6) as [Hf6|Hf6]; simpl|]];
    try (destruct (Z.eqb_spec event NETDEV_UP) as [He|He];
         [|destruct (Z.eqb_spec event NETDEV_DOWN) as [He'|He']];
         destruct kmalloc_ok);
    (eexists; split; [reflexivity|]; split;
     [ first [ by left | right; eexists; split_and!; reflexivity ]
     | split;
       [ intros Hne; first [ by destruct Hne | split_and!; auto ]
       | intros ([?|[? ?]] & [?|?] & ?); congruence ] ]).
Qed.

End AddrFacts.

(** * The properties on concrete devices *)

Lemma write_gid_publishes_witness :
  slot (one_port true [entry_with_seq 4]) 1 0 = Some (entry_with_seq 4)
  /\ exists r d' e',
       write_gid modify_ok 1 0 gid_a (attr_ib 0) (one_port true [entry_with_seq 4])
         = Some (r, d')
       /\ slot d' 1 0 = Some e'
       /\ (0 <= seq (entry_with_seq 4) < SEQ_INVALID - 2 ->
           seq e' = seq (entry_with_seq 4) + 2 /\ seq e' <> SEQ_INVALID
           /\ seq (entry_with_seq 4) < seq e')
       /\ (seq (entry_with_seq 4) = SEQ_INVALID - 1 -> seq e' = 1).
Proof.
  split; [reflexivity|].
  apply (write_gid_publishes unit modify_ok (one_port true [entry_with_seq 4])
           1 0 gid_a (attr_ib 0) (entry_with_seq 4)).
  reflexivity.
Defined.

(** C1 as stated fails: from version 0 the write publishes 2, not
    [0 + 1]; and from version [2^32 - 3] it publishes the in-flight
    value itself. *)
Lemma write_gid_seq_not_successor :
  seq_after_write modify_ok 1 0 gid_a (attr_ib 0) (one_port true [entry_with_seq 0])
    = Some 2
  /\ seq_after_write modify_ok 1 0 gid_a (attr_ib 0)
       (one_port true [entry_with_seq 0]) <> Some (uint (0 + 1))
  /\ seq_after_write modify_ok 1 0 gid_a (attr_ib 0)
       (one_port true [entry_with_seq (SEQ_INVALID - 2)]) = Some SEQ_INVALID.
Proof. split_and!; [reflexivity| |reflexivity]. vm_compute. discriminate. Qed.

Lemma dev_b_no_gid_a j e' :
  data_vec table_b !! j = Some e' -> ~ same_gid_and_type gid_a (attr_ib 5) e'.
Proof.
  intros Hj (_ & _ & Hg). destruct j as [|[|j]]; simpl in Hj; [| |done];
    injection Hj as <-; discriminate Hg.
Defined.

Lemma dev_b_first_empty j e' :
  data_vec table_b !! j = Some e' -> (j < 1)%nat -> ~ empty_slot e'.
Proof.
  intros Hj Hlt (_ & Hg). destruct j as [|j]; [|lia].
  simpl in Hj. injection Hj as <-. discriminate Hg.
Defined.

Lemma zero_entry_empty : empty_slot zero_entry.
Proof. split; [discriminate|reflexivity]. Defined.

Lemma roce_add_gid_cases_witness :
  table_of dev_b 1 = Some table_b
  /\ active table_b = true
  /\ exists d',
       roce_add_gid modify_ok 1 gid_a (attr_ib 5) dev_b = Some (0, d')
       /\ slot d' 1 1
          = Some {| seq := 2; gid := gid_a; attr := attr_ib 5; context := 0 |}.
Proof.
  split; [reflexivity|]. split; [reflexivity|].
  destruct (roce_add_gid_cases unit modify_ok dev_b 1 table_b gid_a (attr_ib 5)
              eq_refl eq_refl) as (_ & _ & Hwrite).
  destruct (Hwrite 1%nat zero_entry dev_b_no_gid_a eq_refl zero_entry_empty
              dev_b_first_empty) as (r & ctx & h' & Hm & Hadd).
  vm_compute in Hm. injection Hm as <- <- <-.
  eexists. split; [exact Hadd|]. reflexivity.
Defined.

Lemma failed_modify_gid_not_escalated_witness :
  table_of dev_b 1 = Some table_b
  /\ active table_b = true
  /\ modify_typed tt 1 1 gid_a (attr_ib 5) 0 = (- EINVAL, 9, tt)
  /\ - EINVAL <> 0
  /\ exists d',
       roce_add_gid modify_typed 1 gid_a (attr_ib 5) dev_b = Some (0, d')
       /\ slot d' 1 1 = Some (emptied zero_entry).
Proof.
  split; [reflexivity|]. split; [reflexivity|]. split; [reflexivity|].
  split; [discriminate|].
  destruct (failed_modify_gid_not_escalated unit modify_typed dev_b 1 table_b
              gid_a (attr_ib 5) 1%nat zero_entry (- EINVAL) 9 tt
              eq_refl eq_refl dev_b_no_gid_a eq_refl zero_entry_empty
              dev_b_first_empty eq_refl ltac:(discriminate))
    as (_ & d' & Hadd & Hslot & _).
  exists d'. split; [exact Hadd|exact Hslot].
Defined.

Lemma roce_del_gid_reserved_or_missing_witness :
  table_of dev_b 1 = Some table_b
  /\ active table_b = true
  /\ roce_del_gid modify_ok eui_of 1 (make_default_gid eui_of 5) (attr_ib 5) dev_b
     = Some (- EPERM, dev_b).
Proof.
  split; [reflexivity|]. split; [reflexivity|].
  destruct (roce_del_gid_reserved_or_missing unit modify_ok eui_of dev_b 1 table_b
              (make_default_gid eui_of 5) (attr_ib 5) eq_refl eq_refl)
    as (Hperm & _).
  apply Hperm; [discriminate|reflexivity].
Defined.


Lemma get_gid_outputs_witness :
  1 <= 1
  /\ [Some torn_table] !! Z.to_nat (1 - 1) = Some (Some torn_table)
  /\ obs_active torn_table = true
  /\ roce_gid_cache_get_gid (Some [Some torn_table]) 1 0 gid_b (Some zattr)
     = Some (- EAGAIN, gid_b, Some zattr)
  /\ roce_gid_cache_get_gid (Some [Some torn_table]) 1 1 gid_b (Some zattr)
     = Some (- EINVAL, gid_b, Some zattr).
Proof.
  split; [lia|]. split; [reflexivity|]. split; [reflexivity|].
  destruct (get_gid_outputs [Some torn_table] torn_table 1 0 gid_b (Some zattr)
              ltac:(lia) eq_refl eq_refl) as (_ & Hin & _).
  destruct (get_gid_outputs [Some torn_table] torn_table 1 1 gid_b (Some zattr)
              ltac:(lia) eq_refl eq_refl) as (Hout & _ & _).
  split.
  - apply (Hin torn_slot ltac:(lia) eq_refl). right. discriminate.
  - apply Hout. right. simpl. lia.
Defined.

(** A table of two slots takes two GIDs and refuses the third with
    [-ENOSPC]; after one deletion the third goes into the freed slot. *)
Example capacity_boundary :
  exists d1 d2 d3 d4 d5,
    roce_add_gid modify_ok 1 gid_a (attr_ib 5) (one_port true [zero_entry; zero_entry])
      = Some (0, d1)
    /\ roce_add_gid modify_ok 1 gid_b (attr_ib 5) d1 = Some (0, d2)
    /\ roce_add_gid modify_ok 1 gid_c (attr_ib 5) d2 = Some (- ENOSPC, d3)
    /\ roce_del_gid modify_ok eui_of 1 gid_a (attr_ib 5) d3 = Some (0, d4)
    /\ roce_add_gid modify_ok 1 gid_c (attr_ib 5) d4 = Some (0, d5)
    /\ gid <$> slot d5 1 0 = Some gid_c
    /\ gid <$> slot d5 1 1 = Some gid_b.
Proof.
  eexists _, _, _, _, _.
  split; [vm_compute; reflexivity|]. split; [vm_compute; reflexivity|].
  split; [vm_compute; reflexivity|]. split; [vm_compute; reflexivity|].
  split; [vm_compute; reflexivity|]. split; reflexivity.
Qed.

(** A torn slot is passed over: the scan goes on to the next match. *)
Example find_gid_skips_torn_slot :
  find_gid [torn_slot; quiescent entry_b] gid_a (Some (attr_ib 5)) roce_gid_type_msk
    = Some (-1)
  /\ find_gid [torn_slot; quiescent entry_b] gid_b (Some (attr_ib 5))
       roce_gid_type_msk = Some 1.
Proof. split; reflexivity. Qed.

Lemma inactive_or_absent_cache_witness :
  table_of (one_port false [zero_entry]) 1
    = Some {| active := false; data_vec := [zero_entry] |}
  /\ roce_add_gid modify_ok 1 gid_a (attr_ib 5) (one_port false [zero_entry])
     = Some (- ENOSYS, one_port false [zero_entry])
  /\ roce_del_gid modify_ok eui_of 1 gid_a (attr_ib 5) no_cache = Some (0, no_cache).
Proof.
  destruct (inactive_or_absent_cache unit modify_ok eui_of
              (one_port false [zero_entry]) 1 gid_a (attr_ib 5) 5)
    as (Hinactive & _ & _ & _).
  destruct (inactive_or_absent_cache unit modify_ok eui_of
              no_cache 1 gid_a (attr_ib 5) 5)
    as (_ & _ & Habsent & _).
  split; [reflexivity|]. split.
  - by destruct (Hinactive _ eq_refl eq_refl) as (Hadd & _).
  - by destruct (Habsent eq_refl) as (_ & Hdel & _).
Defined.

(** C3 as stated fails: without a cache [roce_del_gid] and
    [roce_del_all_netdev_gids] return 0 and [roce_gid_cache_get_gid]
    fails with [-EINVAL], none of them with [-ENOSYS]; and
    [roce_gid_cache_set_default_gid] on an inactive table rewrites
    slot 0. *)
Lemma not_ready_counterexample :
  roce_del_gid modify_ok eui_of 1 gid_a (attr_ib 5) no_cache = Some (0, no_cache)
  /\ roce_del_all_netdev_gids modify_ok 1 5 no_cache = Some (0, no_cache)
  /\ roce_gid_cache_get_gid None 1 0 gid_a None = Some (- EINVAL, gid_a, None)
  /\ 0 <> - ENOSYS
  /\ - EINVAL <> - ENOSYS
  /\ exists d',
       roce_gid_cache_set_default_gid modify_ok eui_of 2 1 5 1
         (one_port false [zero_entry]) = Some (tt, d')
       /\ table_of d' 1
          = Some {| active := false;
                    data_vec := [ {| seq := 4; gid := make_default_gid eui_of 5;
                                     attr := attr_ib 5; context := 0 |} ] |}
       /\ table_of d' 1 <> table_of (one_port false [zero_entry]) 1.
Proof.
  split_and!; try reflexivity; try discriminate.
  eexists. split; [vm_compute; reflexivity|]. split; [reflexivity|].
  vm_compute. discriminate.
Qed.

(** C2 fails on the code: [roce_gid_cache_set_default_gid] calls
    [write_gid] twice on the table of port 1 and never takes its
    mutex. *)
Theorem set_default_gid_writes_unlocked :
  exists d',
    roce_gid_cache_set_default_gid modify_ok eui_of 2 1 5 1 dev_b = Some (tt, d')
    /\ trace d'
       = [ EvWriteGid 1 0 zgid zattr; EvDevPut 5; EvGidChange 1;
           EvWriteGid 1 0 (make_default_gid eui_of 5) (attr_ib 5);
           EvDevHold 5; EvGidChange 1 ]
    /\ writes_under_lock [] (trace d') = false.
Proof. eexists. split; [vm_compute; reflexivity|]. split; reflexivity. Qed.

(** The values of [linux/netdevice.h]: [NETDEV_UP] 1, [NETDEV_REGISTER]
    5, [NETDEV_UNREGISTER] 6, [NETDEV_CHANGEADDR] 8, and
    [NETREG_UNREGISTERED] 3. *)
Lemma netdevice_event_resolution_witness :
  GidMgmt.distinct_events 1 5 6 8
  /\ GidMgmt.netdevice_event 1 5 6 8 3 8 42 1 true
     = (GidMgmt.NOTIFY_DONE,
        Some {| GidMgmt.cmds := [GidMgmt.del_cmd; GidMgmt.add_cmd];
                GidMgmt.ndev := 42 |})
  /\ GidMgmt.netdevice_event 1 5 6 8 3 2 42 1 true = (GidMgmt.NOTIFY_DONE, None).
Proof.
  assert (Hd : GidMgmt.distinct_events 1 5 6 8)
    by (unfold GidMgmt.distinct_events; lia).
  split; [exact Hd|].
  destruct (netdevice_event_resolution 1 5 6 8 3 8 42 1 Hd)
    as (_ & _ & Hchange & _).
  destruct (netdevice_event_resolution 1 5 6 8 3 2 42 1 Hd)
    as (_ & _ & _ & _ & Hother & _).
  split.
  - by destruct (Hchange eq_refl).
  - apply Hother; lia.
Defined.

(** ** The further properties on concrete devices *)

Lemma write_gid_changes_version_witness :
  slot dev_b 1 0 = Some entry_b
  /\ 0 <= seq entry_b < UINT_MODULUS
  /\ exists r d' e',
       write_gid modify_ok 1 0 gid_a (attr_ib 5) dev_b = Some (r, d')
       /\ slot d' 1 0 = Some e'
       /\ seq e' <> seq entry_b
       /\ seq e' <> 0
       /\ 0 <= seq e' < UINT_MODULUS.
Proof.
  split; [reflexivity|]. split; [vm_compute; split; [discriminate|reflexivity]|].
  apply (write_gid_changes_version unit modify_ok dev_b 1 0 gid_a (attr_ib 5)
           entry_b); [reflexivity|].
  vm_compute. split; [discriminate|reflexivity].
Defined.

Lemma write_gid_frame_witness :
  slot dev_b 1 0 = Some entry_b
  /\ exists r d' c c',
       write_gid modify_ok 1 0 gid_a (attr_ib 5) dev_b = Some (r, d')
       /\ table_of dev_b 1 = Some c
       /\ table_of d' 1 = Some c'
       /\ active c' = active c
       /\ length (data_vec c') = length (data_vec c)
       /\ (forall j, j <> 0 -> slot d' 1 j = slot dev_b 1 j)
       /\ (forall port', port' <> 1 -> table_of d' port' = table_of dev_b port').
Proof.
  split; [reflexivity|].
  apply (write_gid_frame unit modify_ok dev_b 1 0 gid_a (attr_ib 5) entry_b).
  reflexivity.
Defined.

(** Slot 0 of [dev_b] names device 5; written for device 7, one
    reference on 5 is dropped. *)
Lemma write_gid_device_references_witness :
  slot dev_b 1 0 = Some entry_b
  /\ 5 <> 0
  /\ modify_ok tt 1 0 gid_a (attr_ib 7) (context entry_b) = (0, 0, tt)
  /\ exists d' e',
       write_gid modify_ok 1 0 gid_a (attr_ib 7) dev_b = Some (0, d')
       /\ slot d' 1 0 = Some e'
       /\ ref_delta 5 (new_events dev_b d') = names_dev 5 e' - names_dev 5 entry_b.
Proof.
  split; [reflexivity|]. split; [discriminate|]. split; [reflexivity|].
  destruct (write_gid_device_references unit modify_ok dev_b 1 0 gid_a (attr_ib 7)
              entry_b 0 0 tt 5 eq_refl ltac:(discriminate) eq_refl)
    as (d' & e' & Hw & Hs & Hbal & _).
  exists d', e'. split; [exact Hw|]. split; [exact Hs|]. apply Hbal. by left.
Defined.

Lemma writers_take_the_mutex_witness :
  table_of dev_b 1 = Some table_b
  /\ (exists r d',
        roce_add_gid modify_ok 1 gid_a (attr_ib 5) dev_b = Some (r, d')
        /\ trace d' = trace dev_b ++ new_events dev_b d'
        /\ writes_under_lock [] (new_events dev_b d') = true)
  /\ (exists r d',
        roce_del_gid modify_ok eui_of 1 gid_a (attr_ib 5) dev_b = Some (r, d')
        /\ trace d' = trace dev_b ++ new_events dev_b d'
        /\ writes_under_lock [] (new_events dev_b d') = true)
  /\ (exists r d',
        roce_del_all_netdev_gids modify_ok 1 5 dev_b = Some (r, d')
        /\ trace d' = trace dev_b ++ new_events dev_b d'
        /\ writes_under_lock [] (new_events dev_b d') = true).
Proof.
  split; [reflexivity|].
  apply (writers_take_the_mutex unit modify_ok eui_of dev_b 1 table_b gid_a
           (attr_ib 5) 5).
  reflexivity.
Defined.

Lemma gid_b_not_default : ~ is_default_gid_of eui_of gid_b (attr_ib 5).
Proof. intros [_ H]. vm_compute in H. discriminate H. Defined.

Lemma gid_a_not_default : ~ is_default_gid_of eui_of gid_a (attr_ib 5).
Proof. intros [_ H]. vm_compute in H. discriminate H. Defined.

Lemma entry_b_stored : stored_as gid_b (attr_ib 5) entry_b.
Proof. split_and!; [discriminate|reflexivity..]. Defined.

Lemma nothing_below_zero (P : gid_cache_entry -> Prop) (c : ib_roce_gid_cache)
    j e' :
  data_vec c !! j = Some e' -> (j < 0)%nat -> ~ P e'.
Proof. intros _ Hlt. lia. Defined.

Lemma roce_del_gid_empties_the_match_witness :
  table_of dev_b 1 = Some table_b
  /\ active table_b = true
  /\ data_vec table_b !! 0%nat = Some entry_b
  /\ exists d' e',
       roce_del_gid modify_ok eui_of 1 gid_b (attr_ib 5) dev_b = Some (0, d')
       /\ slot d' 1 (Z.of_nat 0) = Some e'
       /\ gid e' = zgid /\ attr e' = zattr /\ seq e' = publish_seq (seq entry_b)
       /\ (forall j, j <> Z.of_nat 0 -> slot d' 1 j = slot dev_b 1 j).
Proof.
  split; [reflexivity|]. split; [reflexivity|]. split; [reflexivity|].
  apply (roce_del_gid_empties_the_match unit modify_ok eui_of dev_b 1 table_b
           gid_b (attr_ib 5) 0%nat entry_b eq_refl eq_refl gid_b_not_default
           eq_refl entry_b_stored
           (nothing_below_zero (stored_as gid_b (attr_ib 5)) table_b)).
Defined.

Lemma roce_del_all_netdev_gids_slots_witness :
  table_of dev_b 1 = Some table_b
  /\ active table_b = true
  /\ exists d',
       roce_del_all_netdev_gids modify_ok 1 5 dev_b = Some (0, d')
       /\ (forall j e, slot dev_b 1 j = Some e -> ndev (attr e) = 5 ->
             exists e', slot d' 1 j = Some e'
                        /\ gid e' = zgid /\ attr e' = zattr
                        /\ seq e' = publish_seq (seq e))
       /\ (forall j e, slot dev_b 1 j = Some e -> ndev (attr e) <> 5 ->
             slot d' 1 j = Some e)
       /\ (5 <> 0 ->
           forall j e', slot d' 1 j = Some e' -> ndev (attr e') <> 5).
Proof.
  split; [reflexivity|]. split; [reflexivity|].
  apply (roce_del_all_netdev_gids_slots unit modify_ok dev_b 1 table_b 5);
    reflexivity.
Defined.

Lemma zero_seq_in_range : 0 <= seq zero_entry < SEQ_INVALID - 2.
Proof. vm_compute. split; [discriminate|reflexivity]. Defined.




Lemma one_eth_port_has_table :
  eth_ports_have_tables false all_eth [Some (observe_cache table_b)] 1.
Proof.
  intros p Hp _. assert (p = 0) as -> by lia. eexists. reflexivity.
Defined.

(** The scan of the one port of [dev_b] for [gid_b]. *)
Lemma find_gid_across_ports_witness :
  eth_ports_have_tables false all_eth [Some (observe_cache table_b)] 1
  /\ exists r port' index',
       _roce_gid_cache_find_gid false 1 all_eth
         (Some [Some (observe_cache table_b)]) gid_b (Some (attr_ib 5))
         roce_gid_type_msk (Some 0) (Some 9) = Some (r, port', index')
       /\ ((r = - ENOENT /\ port' = Some 0 /\ index' = Some 9
            /\ forall p c, 0 <= p < 1 ->
                 searched false all_eth [Some (observe_cache table_b)] p c ->
                 ~ table_has c gid_b (attr_ib 5) roce_gid_type_msk)
           \/ (r = 0
               /\ exists p c i (s : slot_obs),
                    0 <= p < 1
                    /\ searched false all_eth [Some (observe_cache table_b)] p c
                    /\ obs_vec c !! i = Some s
                    /\ slot_qualifies s gid_b (attr_ib 5) roce_gid_type_msk
                    /\ port' = (fun _ => u8 (p + start_port false)) <$> Some 0
                    /\ index' = (fun _ => u16 (Z.of_nat i)) <$> Some 9
                    /\ (forall p' c', 0 <= p' < p ->
                          searched false all_eth [Some (observe_cache table_b)] p' c' ->
                          ~ table_has c' gid_b (attr_ib 5) roce_gid_type_msk)
                    /\ (forall j (s' : slot_obs), obs_vec c !! j = Some s' ->
                          (j < i)%nat ->
                          ~ slot_qualifies s' gid_b (attr_ib 5) roce_gid_type_msk))).
Proof.
  split; [exact one_eth_port_has_table|].
  apply (find_gid_across_ports false 1 all_eth [Some (observe_cache table_b)]
           gid_b (attr_ib 5) roce_gid_type_msk (Some 0) (Some 9)
           one_eth_port_has_table).
Defined.

Lemma dev_b_tables_small p c :
  table_of dev_b p = Some c -> Z.of_nat (length (data_vec c)) <= 2 ^ 16.
Proof.
  unfold table_of. simpl. destruct (p <? 1); [discriminate|].
  destruct (Z.to_nat (p - 1)) as [|[|n]]; simpl; [|discriminate..].
  intros [= <-]. vm_compute. discriminate.
Defined.

Lemma find_gid_then_get_gid_witness :
  0 <= 1 <= 255
  /\ roce_gid_cache_find_gid false 1 all_eth (observe dev_b) gid_b 0
       (Some 0) (Some 9) = Some (0, Some 1, Some 0)
  /\ exists a,
       roce_gid_cache_get_gid (observe dev_b) 1 0 gid_a (Some zattr)
         = Some (0, gid_b, Some a)
       /\ gid_type a = 0.
Proof.
  split; [lia|]. split; [reflexivity|].
  apply (find_gid_then_get_gid unit dev_b 1 all_eth gid_b 0 0 9 1 0 gid_a zattr
           ltac:(lia) dev_b_tables_small eq_refl).
Defined.

Lemma set_active_state_then_is_active_witness :
  roce_gid_cache dev_b = Some [Some table_b]
  /\ (Z.to_nat 1 <= length [Some table_b])%nat
  /\ 1 <= 1 <= 1
  /\ table_of dev_b 1 = Some table_b
  /\ exists d',
       roce_gid_cache_set_active_state 1 false dev_b = Some (tt, d')
       /\ hw d' = hw dev_b /\ trace d' = trace dev_b
       /\ table_of d' 1 = Some {| active := false; data_vec := data_vec table_b |}
       /\ roce_gid_cache_is_active 1 d' = Some (0, d')
       /\ (false = false ->
           forall g a dev,
             roce_add_gid modify_ok 1 g a d' = Some (- ENOSYS, d')
             /\ roce_del_gid modify_ok eui_of 1 g a d' = Some (- ENOSYS, d')
             /\ roce_del_all_netdev_gids modify_ok 1 dev d' = Some (- ENOSYS, d')).
Proof.
  split; [reflexivity|]. split; [simpl; lia|]. split; [lia|].
  split; [reflexivity|].
  apply (set_active_state_then_is_active unit modify_ok eui_of dev_b
           [Some table_b] 1 false 1 table_b eq_refl);
    [simpl; lia|lia|reflexivity].
Defined.

(** One slot of [dev_b] names device 5: the clean-up drops one
    reference on it. *)
Lemma roce_gid_cache_cleanup_one_releases_witness :
  roce_gid_cache dev_b = Some [Some table_b]
  /\ length [Some table_b] = Z.to_nat 1
  /\ 5 <> 0
  /\ refs_in_tables 5 [Some table_b] = 1
  /\ exists d',
       roce_gid_cache_cleanup_one 1 dev_b = Some (tt, d')
       /\ roce_gid_cache d' = None
       /\ hw d' = hw dev_b
       /\ ref_delta 5 (new_events dev_b d') = - refs_in_tables 5 [Some table_b].
Proof.
  split; [reflexivity|]. split; [reflexivity|]. split; [discriminate|].
  split; [reflexivity|].
  apply (roce_gid_cache_cleanup_one_releases unit dev_b [Some table_b] 1 5
           eq_refl eq_refl).
  discriminate.
Defined.

Lemma gid_a_not_zero : gid_a <> zgid.
Proof. discriminate. Defined.

Lemma first_add_after_client_setup_witness :
  1 <= 1 <= 2
  /\ modify_ok (hw no_cache) 1 0 gid_a (attr_ib 5) 0 = (0, 0, tt)
  /\ exists d1,
       roce_gid_cache_client_setup_one true 2 (fun _ => 2%nat) true
         (fun _ => true) true no_cache = Some (true, d1)
       /\ exists d2,
            roce_add_gid modify_ok 1 gid_a (attr_ib 5) d1 = Some (0, d2)
            /\ slot d2 1 0
               = Some {| seq := 2; gid := gid_a; attr := attr_ib 5; context := 0 |}.
Proof.
  split; [lia|]. split; [reflexivity|].
  apply (first_add_after_client_setup unit modify_ok no_cache 2 (fun _ => 2%nat)
           1 gid_a (attr_ib 5) 0 tt ltac:(lia) gid_a_not_zero eq_refl).
Defined.

Lemma write_gid_slot_in_flight_witness :
  slot dev_b 1 0 = Some entry_b
  /\ exists d1 r e2 d2 d3,
       write_gid_invalidate 1 0 (logged dev_b [EvWriteGid 1 0 gid_a (attr_ib 5)])
         = Some (entry_b, d1)
       /\ write_gid_update modify_ok 1 0 gid_a (attr_ib 5) entry_b d1
          = Some ((r, e2), d2)
       /\ write_gid_publish 1 0 (seq entry_b) r e2 d2 = Some (r, d3)
       /\ write_gid modify_ok 1 0 gid_a (attr_ib 5) dev_b = Some (r, d3)
       /\ slot d1 1 0
          = Some {| seq := SEQ_INVALID; gid := gid entry_b; attr := attr entry_b;
                    context := context entry_b |}
       /\ slot d2 1 0 = Some e2
       /\ seq e2 = SEQ_INVALID
       /\ slot d3 1 0
          = Some {| seq := publish_seq (seq entry_b); gid := gid e2;
                    attr := attr e2; context := context e2 |}.
Proof.
  split; [reflexivity|].
  apply (write_gid_slot_in_flight unit modify_ok dev_b 1 0 gid_a (attr_ib 5)
           entry_b).
  reflexivity.
Defined.

Lemma torn_slot_sees_one_write : sees_one_write entry_b entry_a torn_slot.
Proof.
  exists torn_phases. split.
  - intros ld. destruct ld; simpl; lia.
  - intros ld. destruct ld; reflexivity.
Defined.

Lemma entry_b_seq_in_range : 0 <= seq entry_b < UINT_MODULUS.
Proof. vm_compute. split; [discriminate|reflexivity]. Defined.

(** The reader of [torn_slot] ran next to the write that took slot 0
    of [dev_b] from [entry_b] to [entry_a]: it is told to try again. *)
Lemma get_gid_beside_one_write_witness :
  slot dev_b 1 0 = Some entry_b
  /\ write_gid modify_ok 1 0 gid_a (attr_ib 5) dev_b = Some (0, dev_b_rewritten)
  /\ slot dev_b_rewritten 1 0 = Some entry_a
  /\ sees_one_write entry_b entry_a torn_slot
  /\ roce_gid_cache_get_gid (Some [Some torn_table]) 1 0 gid_c (Some zattr)
     = Some (- EAGAIN, gid_c, Some zattr).
Proof.
  split; [reflexivity|]. split; [reflexivity|]. split; [reflexivity|].
  split; [exact torn_slot_sees_one_write|].
  destruct (get_gid_beside_one_write unit modify_ok dev_b 1 0 gid_a (attr_ib 5)
              entry_b 0 dev_b_rewritten entry_a torn_slot [Some torn_table]
              torn_table 1 0 gid_c (Some zattr) eq_refl entry_b_seq_in_range
              eq_refl eq_refl torn_slot_sees_one_write ltac:(lia) eq_refl eq_refl
              ltac:(lia) eq_refl) as [H|[H|H]];
    [exact H|discriminate H..].
Defined.

Lemma quiescent_sees_one_write : sees_one_write entry_b entry_a (quiescent entry_b).
Proof.
  exists (fun _ => BeforeWrite). split.
  - intros ld. simpl. lia.
  - intros ld. reflexivity.
Defined.

Lemma find_gid_beside_one_write_witness :
  slot dev_b 1 0 = Some entry_b
  /\ write_gid modify_ok 1 0 gid_a (attr_ib 5) dev_b = Some (0, dev_b_rewritten)
  /\ slot dev_b_rewritten 1 0 = Some entry_a
  /\ find_gid_slot (quiescent entry_b) gid_b (Some (attr_ib 5)) roce_gid_type_msk
     = Some true
  /\ (find_gid_slot (quiescent entry_b) gid_b (Some (attr_ib 5)) roce_gid_type_msk
      = Some true
      \/ find_gid_slot (quiescent entry_a) gid_b (Some (attr_ib 5))
           roce_gid_type_msk = Some true).
Proof.
  split; [reflexivity|]. split; [reflexivity|]. split; [reflexivity|].
  split; [reflexivity|].
  apply (find_gid_beside_one_write unit modify_ok dev_b 1 0 gid_a (attr_ib 5)
           entry_b 0 dev_b_rewritten entry_a (quiescent entry_b) gid_b
           (attr_ib 5) roce_gid_type_msk eq_refl entry_b_seq_in_range eq_refl
           eq_refl quiescent_sees_one_write eq_refl).
Defined.

Lemma update_gid_ip_stores_no_device_witness :
  table_of dev_b 1 = Some table_b
  /\ active table_b = true
  /\ 5 <> 0
  /\ exists d1 d2,
       update_gid_ip modify_ok eui_of 2 GID_ADD 1 5 gid_a 3 dev_b = Some (tt, d1)
       /\ roce_del_all_netdev_gids modify_ok 1 5 d1 = Some (0, d2)
       /\ forall j e1, slot d1 1 j = Some e1 -> slot dev_b 1 j <> Some e1 ->
            ndev (attr e1) = 0 /\ slot d2 1 j = Some e1.
Proof.
  split; [reflexivity|]. split; [reflexivity|]. split; [discriminate|].
  apply (update_gid_ip_stores_no_device unit modify_ok eui_of 2 dev_b 1 table_b
           GID_ADD 5 gid_a 3 eq_refl eq_refl).
  discriminate.
Defined.

Lemma queued_work_enumerates_witness :
  GidMgmt.netdevice_event 1 5 6 8 3 8 42 1 true
    = (0, Some {| GidMgmt.cmds := [GidMgmt.del_cmd; GidMgmt.add_cmd];
                  GidMgmt.ndev := 42 |})
  /\ 0 = GidMgmt.NOTIFY_DONE
  /\ GidMgmt.ndev {| GidMgmt.cmds := [GidMgmt.del_cmd; GidMgmt.add_cmd];
                     GidMgmt.ndev := 42 |} = 42
  /\ (1 <= length (enum_calls 42
                     (GidMgmt.netdevice_event_work_handler
                        {| GidMgmt.cmds := [GidMgmt.del_cmd; GidMgmt.add_cmd];
                           GidMgmt.ndev := 42 |})) <= 2)%nat
  /\ dev_puts 42
       (GidMgmt.netdevice_event_work_handler
          {| GidMgmt.cmds := [GidMgmt.del_cmd; GidMgmt.add_cmd];
             GidMgmt.ndev := 42 |}) = 1%nat
  /\ rtnl_discipline false
       (GidMgmt.netdevice_event_work_handler
          {| GidMgmt.cmds := [GidMgmt.del_cmd; GidMgmt.add_cmd];
             GidMgmt.ndev := 42 |}) = true.
Proof.
  split; [reflexivity|].
  apply (queued_work_enumerates 1 5 6 8 3 8 42 1 true 0
           {| GidMgmt.cmds := [GidMgmt.del_cmd; GidMgmt.add_cmd];
              GidMgmt.ndev := 42 |}).
  reflexivity.
Defined.
